(** * Dlink front end: the recursive-descent parser and the code generation
      of operation nodes, as a shallow embedding.

    Sources embedded here:
    - [Parser.cc]      (the cursor, [accept], and every grammar production);
    - [ParseStruct/Operation.cc] ([operator_string], [code_gen] and [tree_gen]
      of the expression nodes and of [ReturnStatement]);
    - [ParseStruct/Declaration.hh], [ParseStruct/Type.hh] (the node records).

    C++ features and how they are written here:
    - a [std::shared_ptr<T>] is an [option T]; [None] is the null pointer;
    - dereferencing a null pointer, reading the token iterator outside the
      sequence, and C++ exceptions are the [fault] outcomes;
    - the parser object's mutable members ([token_iter_], [errors_]) are an
      explicit state threaded by a state-and-fault monad;
    - [while] loops and the mutual recursion of the productions take a fuel
      argument; exhausting it is the [OutOfFuel] fault. *)

From Stdlib Require Import List String Ascii ZArith Lia Bool DecimalString.
Import ListNotations.
Open Scope string_scope.
Open Scope list_scope.
Set Warnings "-register-all".

(* ================================================================= *)
(** ** Tokens *)

Module TokenType.

(** Modelled from the spec: [Token.hh] is absent, so the enumeration lists
    exactly the enumerators that [Parser.cc] and [Operation.cc] name (the
    spec only says that [TokenType] is a closed enumeration of literals,
    identifiers, keywords, operators and punctuation). *)
Inductive t : Set :=
| plus | increment | plus_assign
| minus | decrement | minus_assign
| multiply | multiply_assign
| divide | divide_assign
| modulo | modulo_assign
| assign | equal | noteq | greater | eqgreater | less | eqless
| logic_and | logic_or
| bit_not | bit_and | bit_and_assign | bit_or | bit_or_assign
| bit_xor | bit_xor_assign
| bit_lshift | bit_lshift_assign | bit_rshift | bit_rshift_assign
| dot
| lbrace | rbrace | lparen | rparen | lbparen | rbparen
| comma | semicolon
| identifier | dec_integer
| _unsigned | _signed | _char | _short | _int | _long | _void | _return.

Scheme Equality for t.

(** [==] on two enumerators. *)
Definition eqb : t -> t -> bool := t_beq.

End TokenType.

Abbreviation TokenType := TokenType.t.

Module Token.

(** Modelled from the spec: [Token.hh] is absent.  The spec gives
    [Token{type, lexeme, source-location}]; the sources read the members
    [type] and [data] (the lexeme). *)
Record t : Set := mk {
  type : TokenType;
  data : string;
  line : nat;
  col  : nat
}.

End Token.

Abbreviation Token := Token.t.

Definition TokenSeq := list Token.

(** The two characters that a Rocq string literal cannot spell directly. *)
Definition dquote : string := String "034"%char EmptyString.
Definition newline : string := String "010"%char EmptyString.

(* ================================================================= *)
(** ** Diagnostics *)

(** [Error(token, message)]; the class itself ([Message/Error.hh]) is absent
    and only its constructor is used. *)
Record Error : Set := mkError {
  error_token   : Token;
  error_message : string
}.

(* ================================================================= *)
(** ** Outcomes and the state monad *)

Inductive fault : Set :=
| OutOfRange                 (* the token iterator is read outside the sequence *)
| NullPointer                (* a null shared pointer is dereferenced *)
| InvalidArgument            (* std::invalid_argument (std::stoi) *)
| StdOutOfRange              (* std::out_of_range (std::stoi, map::at) *)
| Thrown (e : Error)         (* throw Error(...) *)
| OutOfFuel.                 (* the model ran out of fuel *)

Inductive outcome (A : Type) : Type :=
| Ret (a : A)
| Fault (f : fault).

Arguments Ret {A} a.
Arguments Fault {A} f.

Definition StateM (S A : Type) : Type := S -> outcome (A * S).

Definition ret {S A : Type} (a : A) : StateM S A :=
  fun s => Ret (a, s).

Definition bind {S A B : Type} (m : StateM S A) (k : A -> StateM S B) : StateM S B :=
  fun s => match m s with
           | Ret (a, s') => k a s'
           | Fault f => Fault f
           end.

Definition raise {S A : Type} (f : fault) : StateM S A :=
  fun _ => Fault f.

Definition lift {S A : Type} (o : outcome A) : StateM S A :=
  fun s => match o with
           | Ret a => Ret (a, s)
           | Fault f => Fault f
           end.

Declare Scope monad_scope.
Delimit Scope monad_scope with monad.
Notation "x <- c ;; k" := (bind c (fun x => k))
  (at level 61, c at next level, right associativity) : monad_scope.
Notation "' pat <- c ;; k" := (bind c (fun x => match x with pat => k end))
  (at level 61, pat pattern, c at next level, right associativity) : monad_scope.
Notation "c ;; k" := (bind c (fun _ => k))
  (at level 61, right associativity) : monad_scope.
Open Scope monad_scope.

(* ================================================================= *)
(** ** The AST node model *)

(** Expression nodes ([ParseStruct/Operation.hh]); every node carries the
    token member of its [Expression] base. *)
Inductive Expression : Set :=
| Integer32 (token : Token) (data : Z)
| Identifier (token : Token) (id : string)
| BinaryOperation (token : Token) (op : TokenType)
                  (lhs rhs : option Expression)
| UnaryOperation (token : Token) (op : TokenType) (rhs : option Expression)
| FunctionCallOperation (token : Token) (func_expr : option Expression)
                        (argument : list (option Expression)).

Definition ExpressionPtr : Set := option Expression.

(** Type nodes ([ParseStruct/Type.hh]). *)
Inductive Type_ : Set :=
| SimpleType (token : Token) (identifier : string) (is_unsigned : bool)
| StaticArray (token : Token) (type : option Type_) (length : ExpressionPtr)
| LValueReference (token : Token) (type : option Type_).

Definition TypePtr : Set := option Type_.

(** The [token] member of the [Type] base. *)
Definition Type_token (ty : Type_) : Token :=
  match ty with
  | SimpleType token _ _ => token
  | StaticArray token _ _ => token
  | LValueReference token _ => token
  end.

(** The [token] member of the [Expression] base. *)
Definition Expression_token (e : Expression) : Token :=
  match e with
  | Integer32 token _ => token
  | Identifier token _ => token
  | BinaryOperation token _ _ _ => token
  | UnaryOperation token _ _ => token
  | FunctionCallOperation token _ _ => token
  end.

(** [struct VariableDeclaration] ([ParseStruct/Declaration.hh]); it is held
    by value in a function's parameter vector. *)
Record VariableDeclaration : Set := mkVariableDeclaration {
  vd_token      : Token;
  vd_type       : TypePtr;
  vd_identifier : string;
  vd_expression : ExpressionPtr
}.

(** Statement nodes. *)
Inductive Statement : Set :=
| ExpressionStatement (token : Token) (expression : ExpressionPtr)
| ReturnStatement (token : Token) (return_expr : ExpressionPtr)
| VariableDeclarationStatement (decl : VariableDeclaration)
| FunctionDeclaration (token : Token) (return_type : TypePtr)
                      (identifier : string)
                      (parameter : list VariableDeclaration)
                      (body : option Statement)
| Scope (token : Token) (statements : list (option Statement))
        (parent : option Statement)
| Block (token : Token) (statements : list (option Statement)).

Definition StatementPtr : Set := option Statement.

(* ================================================================= *)
(** ** [std::stoi] *)

Definition is_space (c : ascii) : bool :=
  let n := nat_of_ascii c in
  (n =? 32)%nat || ((9 <=? n)%nat && (n <=? 13)%nat).

Definition digit_of (c : ascii) : option Z :=
  let n := nat_of_ascii c in
  if ((48 <=? n)%nat && (n <=? 57)%nat)%bool then Some (Z.of_nat (n - 48)) else None.

Fixpoint skip_spaces (s : string) : string :=
  match s with
  | String c rest => if is_space c then skip_spaces rest else s
  | EmptyString => s
  end.

(** The decimal digits at the head of [s], accumulated left to right;
    [seen] tells whether a digit was read at all. *)
Fixpoint read_digits (s : string) (acc : Z) (seen : bool) : Z * bool :=
  match s with
  | String c rest =>
      match digit_of c with
      | Some d => read_digits rest (10 * acc + d)%Z true
      | None => (acc, seen)
      end
  | EmptyString => (acc, seen)
  end.

(** [std::stoi(str)] in base 10: leading white space, an optional sign, then
    digits; [std::invalid_argument] when no digit follows and
    [std::out_of_range] when the value does not fit an [int]. *)
Definition stoi (str : string) : outcome Z :=
  let s := skip_spaces str in
  let '(negative, s') :=
    match s with
    | String "-"%char rest => (true, rest)
    | String "+"%char rest => (false, rest)
    | _ => (false, s)
    end in
  let '(magnitude, seen) := read_digits s' 0%Z false in
  if seen then
    let value := if negative then (- magnitude)%Z else magnitude in
    if ((-2147483648 <=? value)%Z && (value <=? 2147483647)%Z)%bool
    then Ret value
    else Fault StdOutOfRange
  else Fault InvalidArgument.

(* ================================================================= *)
(** ** The parser *)

Module Parser.

(** The mutable members of a [Parser]: the cursor [token_iter_] (as an
    index into [input_]) and the error list of [errors_]. *)
Record State : Set := mkState {
  token_iter_ : nat;
  errors_     : list Error
}.

(** A production that returns [bool] and writes the node to [out] and the
    first token to [*start_token]: [None] is [return false] (nothing is
    written), [Some (node, start)] is [return true] with the two values
    written.  The node itself may be the null pointer. *)
Definition production (P : Type) : Type := StateM State (option (P * Token)).

(** [a || b] on two calls that return [bool]: [b] runs only when [a]
    returned false. *)
Definition orelse {A : Type} (a b : StateM State (option A)) : StateM State (option A) :=
  r <- a ;;
  match r with
  | Some x => ret (Some x)
  | None => b
  end.

Section Session.

(** [Parser::Parser(const TokenSeq& input)]: [input_] is fixed and the
    cursor starts at [input_.cbegin()]. *)
Variable input_ : TokenSeq.

Definition initial : State := {| token_iter_ := 0; errors_ := [] |}.

Definition current_token : StateM State Token :=
  fun s => match nth_error input_ (token_iter_ s) with
           | Some tok => Ret (tok, s)
           | None => Fault OutOfRange
           end.

Definition previous_token : StateM State Token :=
  fun s => match token_iter_ s with
           | O => Fault OutOfRange
           | S p => match nth_error input_ p with
                    | Some tok => Ret (tok, s)
                    | None => Fault OutOfRange
                    end
           end.

Definition next_token : StateM State Token :=
  fun s => match nth_error input_ (S (token_iter_ s)) with
           | Some tok => Ret (tok, s)
           | None => Fault OutOfRange
           end.

(** [token_iter_++] *)
Definition advance : StateM State unit :=
  fun s => Ret (tt, {| token_iter_ := S (token_iter_ s); errors_ := errors_ s |}).

(** [errors_.add_error(e)] *)
Definition add_error (e : Error) : StateM State unit :=
  fun s => Ret (tt, {| token_iter_ := token_iter_ s; errors_ := errors_ s ++ [e] |}).

Definition get_errors : StateM State (list Error) :=
  fun s => Ret (errors_ s, s).

(** [errors_.add_error(Error(current_token(), msg(current_token().data)))] *)
Definition error_here (msg : string -> string) : StateM State unit :=
  cur <- current_token ;;
  add_error (mkError cur (msg (Token.data cur))).

Definition expected (what : string) (got : string) : string :=
  ("Expected " ++ what ++ ", but got " ++ dquote ++ got ++ dquote)%string.

Definition unexpected (got : string) : string :=
  ("Unexpected " ++ dquote ++ got ++ dquote)%string.

(** [Parser::accept]: [Some tok] is [true], [tok] being the value written
    through [start_token] (the token just consumed). *)
Definition accept (token_type : TokenType) : StateM State (option Token) :=
  cur <- current_token ;;
  if TokenType.eqb (Token.type cur) token_type then
    advance ;;
    prev <- previous_token ;;
    ret (Some prev)
  else ret None.

(* ------------------------------------------------------------- *)
(** *** Literals and names *)

Definition number : production ExpressionPtr :=
  r <- accept TokenType.dec_integer ;;
  match r with
  | Some number_start =>
      prev <- previous_token ;;
      value <- lift (stoi (Token.data prev)) ;;
      ret (Some (Some (Integer32 number_start value), number_start))
  | None => ret None
  end.

Definition identifier : production ExpressionPtr :=
  r <- accept TokenType.identifier ;;
  match r with
  | Some identifier_start =>
      prev <- previous_token ;;
      ret (Some (Some (Identifier identifier_start (Token.data prev)), identifier_start))
  | None => ret None
  end.

Definition atom : production ExpressionPtr :=
  orelse number identifier.

(* ------------------------------------------------------------- *)
(** *** Expressions, given the production [expr] for the nested calls *)

Section Expressions.

Variable expr : production ExpressionPtr.

Definition paren : production ExpressionPtr :=
  l <- accept TokenType.lparen ;;
  match l with
  | Some paren_start =>
      (* the result of [expr(expression)] is not tested: on failure
         [expression] keeps its initial null value *)
      e <- expr ;;
      let expression : ExpressionPtr :=
        match e with
        | Some (p, _) => p
        | None => None
        end in
      r <- accept TokenType.rparen ;;
      match r with
      | Some _ => ret (Some (expression, paren_start))
      | None => error_here (expected "')'") ;; ret None
      end
  | None => atom
  end.

(** The inner [while (true)] of [func_call]: [Some arg] is [break]
    (the closing parenthesis was consumed), [None] is [return false]. *)
Fixpoint func_call_arguments (fuel : nat) (arg : list ExpressionPtr)
  : StateM State (option (list ExpressionPtr)) :=
  match fuel with
  | O => raise OutOfFuel
  | S fuel' =>
      e <- expr ;;
      match e with
      | Some (a_arg, _) =>
          let arg := arg ++ [a_arg] in
          r <- accept TokenType.rparen ;;
          match r with
          | Some _ => ret (Some arg)
          | None =>
              c <- accept TokenType.comma ;;
              match c with
              | Some _ => func_call_arguments fuel' arg
              | None =>
                  error_here (expected "',' or ';'") ;; ret None
              end
          end
      | None =>
          r <- accept TokenType.rparen ;;
          match r with
          | Some _ => ret (Some arg)
          | None => func_call_arguments fuel' arg
          end
      end
  end.

(** The outer [while (accept(lparen))] of [func_call]. *)
Fixpoint func_call_loop (fuel : nat) (func_call_start : Token)
         (func_expr : ExpressionPtr) : StateM State (option ExpressionPtr) :=
  match fuel with
  | O => raise OutOfFuel
  | S fuel' =>
      l <- accept TokenType.lparen ;;
      match l with
      | Some _ =>
          a <- func_call_arguments fuel' [] ;;
          match a with
          | Some arg =>
              func_call_loop fuel' func_call_start
                (Some (FunctionCallOperation func_call_start func_expr arg))
          | None => ret None
          end
      | None => ret (Some func_expr)
      end
  end.

Definition func_call (fuel : nat) : production ExpressionPtr :=
  p <- paren ;;
  match p with
  | None => ret None
  | Some (func_expr, func_call_start) =>
      r <- func_call_loop fuel func_call_start func_expr ;;
      match r with
      | Some out => ret (Some (out, func_call_start))
      | None => ret None
      end
  end.

Definition unary_plusminus (fuel : nat) : production ExpressionPtr :=
  a <- orelse (accept TokenType.plus) (accept TokenType.minus) ;;
  match a with
  | Some plusminus_start =>
      prev <- previous_token ;;
      let op := Token.type prev in
      f <- func_call fuel ;;
      match f with
      | None => error_here (expected "expression") ;; ret None
      | Some (rhs, _) =>
          ret (Some (Some (UnaryOperation plusminus_start op rhs), plusminus_start))
      end
  | None => func_call fuel
  end.

Fixpoint muldiv_loop (fuel : nat) (rhs_fuel : nat) (muldiv_start : Token)
         (lhs : ExpressionPtr) : StateM State (option ExpressionPtr) :=
  match fuel with
  | O => raise OutOfFuel
  | S fuel' =>
      a <- orelse (accept TokenType.multiply) (accept TokenType.divide) ;;
      match a with
      | Some _ =>
          prev <- previous_token ;;
          let op := Token.type prev in
          r <- unary_plusminus rhs_fuel ;;
          match r with
          | None => error_here (expected "expression") ;; ret None
          | Some (rhs, _) =>
              muldiv_loop fuel' rhs_fuel muldiv_start
                (Some (BinaryOperation muldiv_start op lhs rhs))
          end
      | None => ret (Some lhs)
      end
  end.

Definition muldiv (fuel : nat) : production ExpressionPtr :=
  l <- unary_plusminus fuel ;;
  match l with
  | None => ret None
  | Some (lhs, muldiv_start) =>
      r <- muldiv_loop fuel fuel muldiv_start lhs ;;
      match r with
      | Some out => ret (Some (out, muldiv_start))
      | None => ret None
      end
  end.

Fixpoint addsub_loop (fuel : nat) (rhs_fuel : nat) (addsub_start : Token)
         (lhs : ExpressionPtr) : StateM State (option ExpressionPtr) :=
  match fuel with
  | O => raise OutOfFuel
  | S fuel' =>
      a <- orelse (accept TokenType.plus) (accept TokenType.minus) ;;
      match a with
      | Some _ =>
          prev <- previous_token ;;
          let op := Token.type prev in
          r <- muldiv rhs_fuel ;;
          match r with
          | None => error_here (expected "expression") ;; ret None
          | Some (rhs, _) =>
              addsub_loop fuel' rhs_fuel addsub_start
                (Some (BinaryOperation addsub_start op lhs rhs))
          end
      | None => ret (Some lhs)
      end
  end.

Definition addsub (fuel : nat) : production ExpressionPtr :=
  l <- muldiv fuel ;;
  match l with
  | None => ret None
  | Some (lhs, addsub_start) =>
      r <- addsub_loop fuel fuel addsub_start lhs ;;
      match r with
      | Some out => ret (Some (out, addsub_start))
      | None => ret None
      end
  end.

(** The [while (accept(assign))] of [assign]: the operands pushed so
    far, or [None] for [return false]. *)
Fixpoint assign_loop (fuel : nat) (rhs_fuel : nat) (operands : list ExpressionPtr)
  : StateM State (option (list ExpressionPtr)) :=
  match fuel with
  | O => raise OutOfFuel
  | S fuel' =>
      a <- accept TokenType.assign ;;
      match a with
      | Some _ =>
          r <- addsub rhs_fuel ;;
          match r with
          | None => error_here (expected "expression") ;; ret None
          | Some (rhs, _) => assign_loop fuel' rhs_fuel (operands ++ [rhs])
          end
      | None => ret (Some operands)
      end
  end.

(** [result = operands.back(); operands.pop_back();
    std::reverse(...); for (operand : operands) result = BinaryOperation(...)] *)
Definition assign_fold (assign_start : Token) (operands : list ExpressionPtr)
  : ExpressionPtr :=
  fold_left
    (fun result operand =>
       Some (BinaryOperation assign_start TokenType.assign operand result))
    (rev (removelast operands))
    (last operands None).

Definition assign (fuel : nat) : production ExpressionPtr :=
  l <- addsub fuel ;;
  match l with
  | None => ret None
  | Some (lhs, assign_start) =>
      r <- assign_loop fuel fuel [lhs] ;;
      match r with
      | Some operands => ret (Some (assign_fold assign_start operands, assign_start))
      | None => ret None
      end
  end.

End Expressions.

(** [Parser::expr]: [return assign(out, start_token)], the recursion
    through [paren] and [func_call] being counted by the fuel. *)
Fixpoint expr (fuel : nat) : production ExpressionPtr :=
  match fuel with
  | O => raise OutOfFuel
  | S fuel' => assign (expr fuel') fuel'
  end.

(* ------------------------------------------------------------- *)
(** *** Types *)

(** The four tests that follow [unsigned] or [signed] in [simple_type];
    the two branches of the source differ only in the flag given to
    [SimpleType]. *)
Definition simple_type_after_sign (simple_type_start : Token) (is_unsigned : bool)
  : production TypePtr :=
  c <- accept TokenType._char ;;
  match c with
  | Some _ => ret None
  | None =>
  s <- accept TokenType._short ;;
  match s with
  | Some _ => ret None
  | None =>
  i <- accept TokenType._int ;;
  match i with
  | Some _ =>
      ret (Some (Some (SimpleType simple_type_start "int" is_unsigned), simple_type_start))
  | None =>
  l <- accept TokenType._long ;;
  match l with
  | Some _ => ret None
  | None =>
      ret (Some (Some (SimpleType simple_type_start "int" is_unsigned), simple_type_start))
  end end end end.

Definition simple_type : production TypePtr :=
  u <- accept TokenType._unsigned ;;
  match u with
  | Some simple_type_start => simple_type_after_sign simple_type_start true
  | None =>
  g <- accept TokenType._signed ;;
  match g with
  | Some simple_type_start => simple_type_after_sign simple_type_start false
  | None =>
  c <- accept TokenType._char ;;
  match c with
  | Some _ => ret None
  | None =>
  s <- accept TokenType._short ;;
  match s with
  | Some _ => ret None
  | None =>
  i <- accept TokenType._int ;;
  match i with
  | Some simple_type_start =>
      ret (Some (Some (SimpleType simple_type_start "int" false), simple_type_start))
  | None =>
  l <- accept TokenType._long ;;
  match l with
  | Some _ => ret None
  | None =>
  v <- accept TokenType._void ;;
  match v with
  | Some simple_type_start =>
      ret (Some (Some (SimpleType simple_type_start "void" false), simple_type_start))
  | None => ret None
  end end end end end end end.

Definition reference_type : production TypePtr :=
  t <- simple_type ;;
  match t with
  | Some (type, reference_start_token) =>
      a <- accept TokenType.bit_and ;;
      match a with
      | Some _ =>
          ret (Some (Some (LValueReference reference_start_token type),
                     reference_start_token))
      | None => ret (Some (type, reference_start_token))
      end
  | None => ret None
  end.

(** The [loop:] label of [array_type], entered after a ['['] was
    consumed; [goto loop] is the recursive call. *)
Fixpoint array_type_loop (fuel : nat) (expr_fuel : nat) (array_start_token : Token)
         (lhs_array_type : TypePtr) : production TypePtr :=
  match fuel with
  | O => raise OutOfFuel
  | S fuel' =>
      e <- expr expr_fuel ;;
      match e with
      | Some (length, _) =>
          r <- accept TokenType.rbparen ;;
          match r with
          | Some _ =>
              let lhs_array_type :=
                Some (StaticArray array_start_token lhs_array_type length) in
              l <- accept TokenType.lbparen ;;
              match l with
              | Some _ =>
                  array_type_loop fuel' expr_fuel array_start_token lhs_array_type
              | None => ret (Some (lhs_array_type, array_start_token))
              end
          | None => ret None   (* falls through to the final [return false] *)
          end
      | None =>
          error_here (fun _ => "TODO") ;; ret None
      end
  end.

Definition array_type (fuel : nat) : production TypePtr :=
  r <- reference_type ;;
  match r with
  | Some (type, array_start_token) =>
      l <- accept TokenType.lbparen ;;
      match l with
      | Some _ => array_type_loop fuel fuel array_start_token type
      | None => ret (Some (type, array_start_token))
      end
  | None => ret None
  end.

Definition type (fuel : nat) : production TypePtr :=
  array_type fuel.

(* ------------------------------------------------------------- *)
(** *** Statements *)

Definition expr_stmt (fuel : nat) : production StatementPtr :=
  e <- expr fuel ;;
  match e with
  | None => ret None
  | Some (expression, expr_stmt_start) =>
      s <- accept TokenType.semicolon ;;
      match s with
      | Some _ =>
          ret (Some (Some (ExpressionStatement expr_stmt_start expression),
                     expr_stmt_start))
      | None => error_here (expected "';'") ;; ret None
      end
  end.

Definition return_stmt (fuel : nat) : production StatementPtr :=
  r <- accept TokenType._return ;;
  match r with
  | Some return_start =>
      (* [expr(return_expr);] the result is not tested *)
      e <- expr fuel ;;
      let return_expr : ExpressionPtr :=
        match e with
        | Some (p, _) => p
        | None => None
        end in
      s <- accept TokenType.semicolon ;;
      match s with
      | Some _ =>
          ret (Some (Some (ReturnStatement return_start return_expr), return_start))
      | None => error_here (expected "';'") ;; ret None
      end
  | None => expr_stmt fuel
  end.

(** The value of a default-constructed [Token] (a local [Token x;] that
    no call has written yet); [Token.hh] is absent. *)
Variable default_token : Token.

Section Declarations.

(** [Parser::scope], for the body of a function declaration. *)
Variable scope : production StatementPtr.

(** The [while (true)] of [func_decl]: [Some param_list] is [break],
    [None] is [return false]. *)
Fixpoint func_decl_parameters (fuel : nat) (type_fuel : nat)
         (var_decl_start_token : Token) (param_list : list VariableDeclaration)
  : StateM State (option (list VariableDeclaration)) :=
  match fuel with
  | O => raise OutOfFuel
  | S fuel' =>
      t <- type type_fuel ;;
      match t with
      | Some (param_type, _) =>
          match param_type with
          | None => raise NullPointer      (* [param_type->token] *)
          | Some ty =>
              if TokenType.eqb (Token.type (Type_token ty)) TokenType._void then
                r <- accept TokenType.rparen ;;
                match r with
                | Some _ => ret (Some param_list)
                | None =>
                    error_here
                      (fun _ => "Unexpected additional parameter in void paramter function") ;;
                    ret None
                end
              else
                i <- accept TokenType.identifier ;;
                match i with
                | Some _ =>
                    prev <- previous_token ;;
                    let param :=
                      mkVariableDeclaration var_decl_start_token param_type
                                            (Token.data prev) None in
                    let param_list := param_list ++ [param] in
                    _ <- accept TokenType.comma ;;
                    func_decl_parameters fuel' type_fuel var_decl_start_token param_list
                | None =>
                    c <- accept TokenType.comma ;;
                    match c with
                    | Some _ =>
                        let param :=
                          mkVariableDeclaration var_decl_start_token param_type "" None in
                        func_decl_parameters fuel' type_fuel var_decl_start_token
                                             (param_list ++ [param])
                    | None =>
                        func_decl_parameters fuel' type_fuel var_decl_start_token param_list
                    end
                end
          end
      | None =>
          r <- accept TokenType.rparen ;;
          match r with
          | Some _ => ret (Some param_list)
          | None => error_here unexpected ;; ret None
          end
      end
  end.

(** [Parser::func_decl], always called without a [start_token]. *)
Definition func_decl (fuel : nat) (var_decl_start_token : Token)
           (return_type : TypePtr) (identifier : string)
  : StateM State (option StatementPtr) :=
  p <- func_decl_parameters fuel fuel var_decl_start_token [] ;;
  match p with
  | None => ret None
  | Some param_list =>
      b <- scope ;;
      match b with
      | None => error_here unexpected ;; ret None
      | Some (body, _) =>
          ret (Some (Some (FunctionDeclaration var_decl_start_token return_type
                                               identifier param_list body)))
      end
  end.

(** [Parser::var_decl].  The second component of a success tells what
    was written through [start_token]: the function-declaration path
    returns through [func_decl], which writes nothing. *)
Definition var_decl (fuel : nat)
  : StateM State (option (StatementPtr * option Token)) :=
  t <- type fuel ;;
  match t with
  | Some (type_expr, var_decl_start) =>
      i <- accept TokenType.identifier ;;
      match i with
      | Some _ =>
          prev <- previous_token ;;
          let name := Token.data prev in
          a <- accept TokenType.assign ;;
          match a with
          | Some _ =>
              e <- expr fuel ;;
              match e with
              | Some (expression, _) =>
                  s <- accept TokenType.semicolon ;;
                  match s with
                  | Some _ =>
                      ret (Some (Some (VariableDeclarationStatement
                                         (mkVariableDeclaration var_decl_start type_expr
                                                                name expression)),
                                 Some var_decl_start))
                  | None => error_here (expected "';'") ;; ret None
                  end
              | None => error_here (expected "expression") ;; ret None
              end
          | None =>
              s <- accept TokenType.semicolon ;;
              match s with
              | Some _ =>
                  ret (Some (Some (VariableDeclarationStatement
                                     (mkVariableDeclaration var_decl_start type_expr
                                                            name None)),
                             Some var_decl_start))
              | None =>
                  l <- accept TokenType.lparen ;;
                  match l with
                  | Some _ =>
                      f <- func_decl fuel var_decl_start type_expr name ;;
                      match f with
                      | Some out => ret (Some (out, None))
                      | None => ret None
                      end
                  | None => error_here (expected "identifier") ;; ret None
                  end
              end
          end
      | None => error_here (expected "identifier") ;; ret None
      end
  | None =>
      r <- return_stmt fuel ;;
      match r with
      | Some (statement, return_start) => ret (Some (statement, Some return_start))
      | None => ret None
      end
  end.

(** The [while (var_decl(statement))] of a braced [scope]. *)
Fixpoint scope_statements (fuel : nat) (decl_fuel : nat)
         (statements : list StatementPtr) : StateM State (list StatementPtr) :=
  match fuel with
  | O => raise OutOfFuel
  | S fuel' =>
      v <- var_decl decl_fuel ;;
      match v with
      | Some (statement, _) =>
          scope_statements fuel' decl_fuel (statements ++ [statement])
      | None => ret statements
      end
  end.

Definition scope_body (fuel : nat) : production StatementPtr :=
  l <- accept TokenType.lbrace ;;
  match l with
  | Some scope_start =>
      statements <- scope_statements fuel fuel [] ;;
      r <- accept TokenType.rbrace ;;
      match r with
      | Some _ => ret (Some (Some (Scope scope_start statements None), scope_start))
      | None => error_here (expected "'}'") ;; ret None
      end
  | None =>
      v <- var_decl fuel ;;
      match v with
      | Some (statement, written) =>
          let var_decl_start :=
            match written with
            | Some tok => tok
            | None => default_token
            end in
          ret (Some (statement, var_decl_start))
      | None => ret None
      end
  end.

End Declarations.

(** [Parser::scope], the recursion through [func_decl] being counted by
    the fuel. *)
Fixpoint scope (fuel : nat) : production StatementPtr :=
  match fuel with
  | O => raise OutOfFuel
  | S fuel' => scope_body (scope fuel') fuel'
  end.

(** The [while (scope(statement, &block_start))] of [block]; it returns
    the last value of [block_start] and the statements. *)
Fixpoint block_loop (fuel : nat) (scope_fuel : nat) (block_start : Token)
         (statements : list StatementPtr)
  : StateM State (Token * list StatementPtr) :=
  match fuel with
  | O => raise OutOfFuel
  | S fuel' =>
      s <- scope scope_fuel ;;
      match s with
      | Some (statement, start) =>
          block_loop fuel' scope_fuel start (statements ++ [statement])
      | None => ret (block_start, statements)
      end
  end.

Definition block (fuel : nat) : production StatementPtr :=
  '(block_start, statements) <- block_loop fuel fuel default_token [] ;;
  errors <- get_errors ;;
  match errors with
  | [] => ret (Some (Some (Block block_start statements), block_start))
  | _ :: _ => ret None
  end.

(** [Parser::parse]: [Some out] is [true] with the tree in [output]. *)
Definition parse (fuel : nat) : StateM State (option StatementPtr) :=
  b <- block fuel ;;
  match b with
  | Some (out, _) => ret (Some out)
  | None => ret None
  end.

End Session.

End Parser.

(* ================================================================= *)
(** ** The backend builder *)

Module LLVM.

(** Modelled from the spec: [CodeGen.hh], [LLVMValue.hh] and the backend
    itself are absent.  The spec describes the backend as an opaque
    instruction builder that receives a deterministic sequence of calls
    and hands back value handles.  Here a value handle is the term that
    tells how the value was made, and the builder is the list of the
    instructions created so far, oldest first. *)
Inductive Value : Set :=
| null                                   (* a handle that holds no value *)
| ConstantInt (bits : nat) (value : Z)   (* an integer constant *)
| Extern (name : string)                 (* a value made outside these sources *)
| Add (lhs rhs : Value)
| Sub (lhs rhs : Value)
| Mul (lhs rhs : Value)
| SDiv (lhs rhs : Value)
| Call (callee : Value) (args : list Value)
| Return (value : Value).

Definition Builder : Set := list Value.

Definition is_null (v : Value) : bool :=
  match v with
  | null => true
  | _ => false
  end.

(** [builder.getInt32(n)] and [builder.getFalse()] make constants and
    create no instruction. *)
Definition getInt32 (n : Z) : Value := ConstantInt 32 n.
Definition getFalse : Value := ConstantInt 1 0.

(** Every [Create...] call appends its instruction and returns it. *)
Definition emit (instruction : Value) : StateM Builder Value :=
  fun builder => Ret (instruction, builder ++ [instruction]).

Definition CreateAdd (lhs rhs : Value) := emit (Add lhs rhs).
Definition CreateSub (lhs rhs : Value) := emit (Sub lhs rhs).
Definition CreateMul (lhs rhs : Value) := emit (Mul lhs rhs).
Definition CreateSDiv (lhs rhs : Value) := emit (SDiv lhs rhs).
Definition CreateCall (callee : Value) (args : list Value) := emit (Call callee args).
Definition CreateRet (value : Value) := emit (Return value).

End LLVM.

(* ================================================================= *)
(** ** [ParseStruct/Operation.cc] *)

Definition operator_string (operator_type : TokenType) : string :=
  match operator_type with
  | TokenType.plus => "+"
  | TokenType.increment => "++"
  | TokenType.plus_assign => "+="
  | TokenType.minus => "-"
  | TokenType.decrement => "--"
  | TokenType.minus_assign => "-="
  | TokenType.multiply => "*"
  | TokenType.multiply_assign => "*="
  | TokenType.divide => "/"
  | TokenType.divide_assign => "/="
  | TokenType.modulo => "%"
  | TokenType.modulo_assign => "%="
  | TokenType.assign => "="
  | TokenType.equal => "=="
  | TokenType.noteq => "!="
  | TokenType.greater => ">"
  | TokenType.eqgreater => ">="
  | TokenType.less => "<"
  | TokenType.eqless => "<="
  | TokenType.logic_and => "&&"
  | TokenType.logic_or => "||"
  | TokenType.bit_not => "~"
  | TokenType.bit_and => "&"
  | TokenType.bit_and_assign => "&="
  | TokenType.bit_or => "|"
  | TokenType.bit_or_assign => "|="
  | TokenType.bit_xor => "^"
  | TokenType.bit_xor_assign => "^="
  | TokenType.bit_lshift => "<<"
  | TokenType.bit_lshift_assign => "<<="
  | TokenType.bit_rshift => ">>"
  | TokenType.bit_rshift_assign => ">>="
  | TokenType.dot => "."
  | _ => ""
  end.

(** [std::to_string(int)] *)
Definition to_string (n : Z) : string :=
  NilZero.string_of_int (Z.to_int n).

(** [p->...] on a shared pointer. *)
Definition deref {A B : Type} (p : option A) (k : A -> outcome B) : outcome B :=
  match p with
  | Some a => k a
  | None => Fault NullPointer
  end.

Definition deref_in {S A B : Type} (p : option A) (k : A -> StateM S B) : StateM S B :=
  match p with
  | Some a => k a
  | None => raise NullPointer
  end.

Definition and_then {A B : Type} (o : outcome A) (k : A -> outcome B) : outcome B :=
  match o with
  | Ret a => k a
  | Fault f => Fault f
  end.

Section Operation.

(** What [Operation.cc] uses and does not define: [tree_prefix] (declared
    [extern]), the map [token_map] (read with [at], which throws
    [std::out_of_range] on a missing key), and the two methods of
    [Identifier]. *)
Variable tree_prefix : nat -> string.
Variable token_map : TokenType -> option string.
Variable Identifier_tree_gen : Token -> string -> nat -> outcome string.
Variable Identifier_code_gen : Token -> string -> StateM LLVM.Builder LLVM.Value.

Definition token_map_at (op : TokenType) : outcome string :=
  match token_map op with
  | Some name => Ret name
  | None => Fault StdOutOfRange
  end.

(** The operator line shared by the two operation nodes:
    [tree_prefix(depth + 1) + operator_string(op) + '(' + token_map.at(op) + ')'] *)
Definition operator_line (depth : nat) (op : TokenType) : outcome string :=
  and_then (token_map_at op) (fun name =>
  Ret (tree_prefix (depth + 1) ++ operator_string op ++ "(" ++ name ++ ")")%string).

(** [tree_gen] of the expression nodes, dispatched on the node. *)
Fixpoint Expression_tree_gen (e : Expression) (depth : nat) : outcome string :=
  match e with
  | Integer32 _ data =>
      Ret (tree_prefix depth ++ "Integer32(" ++ to_string data ++ ")")%string
  | Identifier token id => Identifier_tree_gen token id depth
  | BinaryOperation _ op lhs rhs =>
      let tree := (tree_prefix depth ++ "BinaryOperation:" ++ newline)%string in
      let depth := S depth in
      let tree := (tree ++ tree_prefix depth ++ "lhs:" ++ newline)%string in
      deref lhs (fun l =>
      and_then (Expression_tree_gen l (depth + 1)) (fun lhs_tree =>
      let tree := (tree ++ lhs_tree ++ newline)%string in
      let tree := (tree ++ tree_prefix depth ++ "rhs:" ++ newline)%string in
      deref rhs (fun r =>
      and_then (Expression_tree_gen r (depth + 1)) (fun rhs_tree =>
      let tree := (tree ++ rhs_tree ++ newline)%string in
      let tree := (tree ++ tree_prefix depth ++ "op:" ++ newline)%string in
      and_then (operator_line depth op) (fun line =>
      Ret (tree ++ line)%string)))))
  | UnaryOperation _ op rhs =>
      let tree := (tree_prefix depth ++ "UnaryOperation:" ++ newline)%string in
      let depth := S depth in
      let tree := (tree ++ tree_prefix depth ++ "rhs:" ++ newline)%string in
      deref rhs (fun r =>
      and_then (Expression_tree_gen r (depth + 1)) (fun rhs_tree =>
      let tree := (tree ++ rhs_tree ++ newline)%string in
      let tree := (tree ++ tree_prefix depth ++ "op:" ++ newline)%string in
      and_then (operator_line depth op) (fun line =>
      Ret (tree ++ line)%string)))
  | FunctionCallOperation _ func_expr argument =>
      let result := (tree_prefix depth ++ "FunctionCallOperation:" ++ newline)%string in
      let depth := S depth in
      let result := (result ++ tree_prefix depth ++ "func_expr:" ++ newline)%string in
      deref func_expr (fun f =>
      and_then (Expression_tree_gen f (depth + 1)) (fun func_tree =>
      let result := (result ++ func_tree ++ newline)%string in
      let result := (result ++ tree_prefix depth ++ "argument:" ++ newline)%string in
      let depth := S depth in
      (fix arguments (args : list (option Expression)) (result : string)
         : outcome string :=
         match args with
         | [] => Ret result
         | arg :: args' =>
             deref arg (fun a =>
             and_then (Expression_tree_gen a depth) (fun arg_tree =>
             arguments args' (result ++ arg_tree)%string))
         end) argument result))
  end.

(** [code_gen] of the expression nodes, dispatched on the node. *)
Fixpoint Expression_code_gen (e : Expression) : StateM LLVM.Builder LLVM.Value :=
  match e with
  | Integer32 _ data => ret (LLVM.getInt32 data)
  | Identifier token id => Identifier_code_gen token id
  | BinaryOperation _ op lhs rhs =>
      lhs_value <- deref_in lhs (fun l => Expression_code_gen l) ;;
      rhs_value <- deref_in rhs (fun r => Expression_code_gen r) ;;
      match op with
      | TokenType.plus => LLVM.CreateAdd lhs_value rhs_value
      | TokenType.minus => LLVM.CreateSub lhs_value rhs_value
      | TokenType.multiply => LLVM.CreateMul lhs_value rhs_value
      | TokenType.divide => LLVM.CreateSDiv lhs_value rhs_value
      | _ => ret LLVM.getFalse
      end
  | UnaryOperation _ op rhs =>
      rhs_value <- deref_in rhs (fun r => Expression_code_gen r) ;;
      match op with
      | TokenType.plus => LLVM.CreateMul (LLVM.getInt32 1) rhs_value
      | TokenType.minus => LLVM.CreateMul (LLVM.getInt32 (-1)) rhs_value
      | _ => ret LLVM.getFalse
      end
  | FunctionCallOperation token func_expr argument =>
      function <- deref_in func_expr (fun f => Expression_code_gen f) ;;
      if LLVM.is_null function then
        raise (Thrown (mkError token "Expected callable function expression"))
      else
        arg_real <-
          (fix arguments (args : list (option Expression))
             : StateM LLVM.Builder (list LLVM.Value) :=
             match args with
             | [] => ret []
             | arg :: args' =>
                 value <- deref_in arg (fun a => Expression_code_gen a) ;;
                 values <- arguments args' ;;
                 ret (value :: values)
             end) argument ;;
        LLVM.CreateCall function arg_real
  end.

(** [ReturnStatement::tree_gen] and [ReturnStatement::code_gen], on the
    node's member [return_expr]. *)
Definition ReturnStatement_tree_gen (return_expr : ExpressionPtr) (depth : nat)
  : outcome string :=
  let tree := (tree_prefix depth ++ "ReturnStatement:" ++ newline)%string in
  deref return_expr (fun e =>
  and_then (Expression_tree_gen e (depth + 1)) (fun expr_tree =>
  Ret (tree ++ expr_tree)%string)).

Definition ReturnStatement_code_gen (return_expr : ExpressionPtr)
  : StateM LLVM.Builder LLVM.Value :=
  value <- deref_in return_expr (fun e => Expression_code_gen e) ;;
  LLVM.CreateRet value.

End Operation.

(* ================================================================= *)
(** ** Token classes and sample values used by the statements *)

(** The token types tested by the loops of [func_call], [muldiv], [addsub]
    and [assign] once an operand has been read. *)
Definition continues_expression (ty : TokenType) : bool :=
  match ty with
  | TokenType.lparen | TokenType.multiply | TokenType.divide
  | TokenType.plus | TokenType.minus | TokenType.assign => true
  | _ => false
  end.

(** The token types that some [accept] reached from [expr] takes as a first
    token. *)
Definition starts_expression (ty : TokenType) : bool :=
  match ty with
  | TokenType.plus | TokenType.minus | TokenType.lparen
  | TokenType.dec_integer | TokenType.identifier => true
  | _ => false
  end.

(** The token types that some [accept] reached from [scope] takes as a
    first token. *)
Definition starts_scope (ty : TokenType) : bool :=
  match ty with
  | TokenType.lbrace
  | TokenType._unsigned | TokenType._signed | TokenType._char | TokenType._short
  | TokenType._int | TokenType._long | TokenType._void
  | TokenType._return => true
  | _ => starts_expression ty
  end.

(** The parser state after one more token was consumed. *)
Definition after_token (s : Parser.State) : Parser.State :=
  {| Parser.token_iter_ := S (Parser.token_iter_ s);
     Parser.errors_ := Parser.errors_ s |}.

(** A default-constructed token and an [Identifier::code_gen], to run the
    definitions on concrete inputs. *)
Definition sample_default_token : Token := Token.mk TokenType.dot "" 0 0.

Definition sample_Identifier_code_gen (_ : Token) (id : string)
  : StateM LLVM.Builder LLVM.Value :=
  ret (LLVM.Extern id).

From Stdlib Require DecimalPos.

(* ================================================================= *)
(** ** [Encoder.cc] *)

Module Encoder.

(** A [char16_t] or [char32_t] code unit is its value as a [Z]. *)

(** [static_cast<std::int32_t>(c) - 0xD800 < 2048], a signed comparison. *)
Definition is_surrogate (c : Z) : bool :=
  (c - 0xD800 <? 2048)%Z.

(** [c & 0xFFFFFC00 == 0xD800]: in C++ [==] binds tighter than [&], so the
    operand of [&] is the result of the comparison of the two constants. *)
Definition is_high_surrogate (c : Z) : bool :=
  negb (Z.land c (Z.b2z (0xFFFFFC00 =? 0xD800)%Z) =? 0)%Z.

(** [c & 0xFFFFFC00 == 0XDC00] *)
Definition is_low_surrogate (c : Z) : bool :=
  negb (Z.land c (Z.b2z (0xFFFFFC00 =? 0xDC00)%Z) =? 0)%Z.

(** [(high_surrogate << 10) + low_surrogate - 0x35FDC00], computed in [int]
    (no overflow for 16-bit operands) and converted to [char32_t]. *)
Definition to_utf32_char (high_surrogate low_surrogate : Z) : Z :=
  ((Z.shiftl high_surrogate 10 + low_surrogate - 0x35FDC00) mod 2 ^ 32)%Z.

(** The loop of [utf32_encode(const std::u16string&)] from the iterator
    position whose remaining code units are [utf16string], [result] being
    the string built so far. *)
Fixpoint utf32_encode_from (utf16string : list Z) (result : list Z)
  : outcome (list Z) :=
  match utf16string with
  | [] => Ret result
  | c :: rest =>
      if negb (is_surrogate c) then
        utf32_encode_from rest (result ++ [c])
      else
        match rest with
        | next :: rest' =>
            (* [is_low_surrogate( *(++iter))] runs only when the left
               operand of [&&] is true *)
            if (is_high_surrogate c && is_low_surrogate next)%bool then
              utf32_encode_from rest' (result ++ [to_utf32_char c next])
            else Fault InvalidArgument
        | [] => Fault InvalidArgument
        end
  end.

Definition utf32_encode (utf16string : list Z) : outcome (list Z) :=
  utf32_encode_from utf16string [].

End Encoder.

(* ================================================================= *)
(** ** Relations between parser states, used by the invariants *)

(** From [s] to [s'] the cursor only moved forward, never past the end of
    [input] unless it already was there, and errors were only appended. *)
Definition advances (input : TokenSeq) (s s' : Parser.State) : Prop :=
  Parser.token_iter_ s <= Parser.token_iter_ s'
  /\ Parser.token_iter_ s' <= Nat.max (Parser.token_iter_ s) (List.length input)
  /\ exists raised, Parser.errors_ s' = Parser.errors_ s ++ raised.

(** Every normal return of [m] advances the state. *)
Definition forward {A : Type} (input : TokenSeq) (m : StateM Parser.State A) : Prop :=
  forall s a s', m s = Ret (a, s') -> advances input s s'.

(** A production is [consuming] when each of its successes consumed a
    token, [clean] when each of its failures either left the state alone or
    raised an error, and [loud] when each of its failures raised an error. *)
Definition consuming {A : Type} (p : StateM Parser.State (option A)) : Prop :=
  forall s a s', p s = Ret (Some a, s') ->
                 Parser.token_iter_ s < Parser.token_iter_ s'.

Definition clean {A : Type} (p : StateM Parser.State (option A)) : Prop :=
  forall s s', p s = Ret (None, s') ->
               s' = s \/ List.length (Parser.errors_ s) < List.length (Parser.errors_ s').

Definition loud {A : Type} (p : StateM Parser.State (option A)) : Prop :=
  forall s s', p s = Ret (None, s') ->
               List.length (Parser.errors_ s) < List.length (Parser.errors_ s').

(** The size keywords for which [simple_type] returns false after having
    consumed them. *)
Definition size_keyword (ty : TokenType) : bool :=
  match ty with
  | TokenType._char | TokenType._short | TokenType._long => true
  | _ => false
  end.

(* ================================================================= *)
(** ** Trees without null pointers *)

(** A property of the expression a pointer holds, if it holds one. *)
Definition on_pointer (P : Expression -> Prop) (p : ExpressionPtr) : Prop :=
  match p with
  | Some e => P e
  | None => True
  end.

(** No child pointer of the tree is null. *)
Fixpoint null_free (e : Expression) : bool :=
  let child (p : option Expression) :=
    match p with
    | Some x => null_free x
    | None => false
    end in
  match e with
  | Integer32 _ _ => true
  | Identifier _ _ => true
  | BinaryOperation _ _ lhs rhs => child lhs && child rhs
  | UnaryOperation _ _ rhs => child rhs
  | FunctionCallOperation _ func_expr argument =>
      child func_expr && forallb child argument
  end.

(* ================================================================= *)
(** ** Operator chains of any length, used to state associativity *)

(** The node [atom] builds for an identifier token. *)
Definition operand (t : Token) : ExpressionPtr :=
  Some (Identifier t (Token.data t)).

(** The tokens of [op1 x1 op2 x2 ...]. *)
Definition chain_tokens (chain : list (Token * Token)) : TokenSeq :=
  flat_map (fun link => [fst link; snd link]) chain.

(** [((lhs op1 x1) op2 x2) ...]: each link wraps the tree built so far. *)
Definition left_nested (start : Token) (lhs : ExpressionPtr)
  (chain : list (Token * Token)) : ExpressionPtr :=
  fold_left
    (fun lhs link =>
       Some (BinaryOperation start (Token.type (fst link)) lhs (operand (snd link))))
    chain lhs.

(** [x = (y = (... = z))] *)
Fixpoint right_nested (start : Token) (x : Token) (rest : list Token) : ExpressionPtr :=
  match rest with
  | [] => operand x
  | y :: rest' =>
      Some (BinaryOperation start TokenType.assign (operand x)
              (right_nested start y rest'))
  end.

Definition additive (ty : TokenType) : bool :=
  match ty with
  | TokenType.plus | TokenType.minus => true
  | _ => false
  end.

Definition multiplicative (ty : TokenType) : bool :=
  match ty with
  | TokenType.multiply | TokenType.divide => true
  | _ => false
  end.

(** A production is [grounded] on [input] when each of its failures leaves
    the cursor on a token of [input]. *)
Definition grounded {A : Type} (input : TokenSeq)
  (p : StateM Parser.State (option A)) : Prop :=
  forall s s', p s = Ret (None, s') ->
               Parser.token_iter_ s' < List.length input.

(** The loop of [FunctionCallOperation::code_gen] over the argument vector,
    the same [fix] as in [Expression_code_gen], under a name. *)
Definition FunctionCallOperation_arguments
  (Identifier_code_gen : Token -> string -> StateM LLVM.Builder LLVM.Value)
  : list (option Expression) -> StateM LLVM.Builder (list LLVM.Value) :=
  fix arguments (args : list (option Expression))
    : StateM LLVM.Builder (list LLVM.Value) :=
    match args with
    | [] => ret []
    | arg :: args' =>
        value <- deref_in arg (fun a => Expression_code_gen Identifier_code_gen a) ;;
        values <- arguments args' ;;
        ret (value :: values)
    end.


(* ================================================================= *)
(** ** Properties *)

(** Replaces a token variable by its four members and its type by the
    enumerator a hypothesis gives for it. *)
Ltac expose_token t :=
  let ty := fresh "ty" in
  let d := fresh "d" in
  let l := fresh "l" in
  let c := fresh "c" in
  destruct t as [ty d l c]; cbn [Token.type Token.data] in *; subst.

Ltac by_cases_on_type t :=
  let ty := fresh "ty" in
  let d := fresh "d" in
  let l := fresh "l" in
  let c := fresh "c" in
  destruct t as [ty d l c]; cbn [Token.type Token.data] in *;
  destruct ty; try discriminate.

(* ----------------------------------------------------------------- *)
(** *** The cursor *)

Section Cursor.

Variable input : TokenSeq.

Lemma accept_match (s : Parser.State) (tok : Token) :
  nth_error input (Parser.token_iter_ s) = Some tok ->
  Parser.accept input (Token.type tok) s = Ret (Some tok, after_token s).
Proof.
  intros H. unfold Parser.accept, Parser.current_token, bind.
  rewrite H. unfold TokenType.eqb.
  rewrite (TokenType.internal_t_dec_lb _ _ eq_refl).
  cbn. rewrite H. reflexivity.
Qed.

Lemma accept_mismatch (s : Parser.State) (tok : Token) (ty : TokenType) :
  nth_error input (Parser.token_iter_ s) = Some tok ->
  TokenType.eqb (Token.type tok) ty = false ->
  Parser.accept input ty s = Ret (None, s).
Proof.
  intros H E. unfold Parser.accept, Parser.current_token, bind.
  rewrite H, E. reflexivity.
Qed.

(** [accept] moves the cursor by one token on a match and leaves the whole
    state alone otherwise; it never touches the errors. *)
Lemma accept_state (ty : TokenType) (s s' : Parser.State) (r : option Token) :
  Parser.accept input ty s = Ret (r, s') ->
  match r with
  | Some tok => s' = after_token s /\ nth_error input (Parser.token_iter_ s) = Some tok
                /\ Token.type tok = ty
  | None => s' = s
  end.
Proof.
  unfold Parser.accept, Parser.current_token, bind.
  destruct (nth_error input (Parser.token_iter_ s)) as [cur | ] eqn:H; [ | discriminate ].
  destruct (TokenType.eqb (Token.type cur) ty) eqn:E.
  - cbn. rewrite H. intros X. inversion X; subst.
    repeat split. apply TokenType.internal_t_dec_bl. exact E.
  - intros X. inversion X; subst. reflexivity.
Qed.

(** At a token that starts no expression, [expr] returns false and changes
    nothing. *)
Lemma expr_fails_at (s : Parser.State) (tok : Token) (fuel : nat) :
  nth_error input (Parser.token_iter_ s) = Some tok ->
  starts_expression (Token.type tok) = false ->
  Parser.expr input (S fuel) s = Ret (None, s).
Proof.
  intros H E.
  assert (R : forall ty, starts_expression ty = true ->
                         Parser.accept input ty s = Ret (None, s)).
  { intros ty Hty. apply (accept_mismatch s tok ty H).
    destruct (Token.type tok); try discriminate E;
      destruct ty; try discriminate Hty; reflexivity. }
  cbn [Parser.expr].
  unfold Parser.assign, Parser.addsub, Parser.muldiv, Parser.unary_plusminus,
    Parser.func_call, Parser.paren, Parser.atom, Parser.number, Parser.identifier,
    Parser.orelse, bind.
  repeat (rewrite !R by reflexivity; cbv beta iota delta [ret]).
  reflexivity.
Qed.

(** At a token that starts no scope, [scope] returns false and changes
    nothing: no error is raised. *)
Lemma scope_fails_at (default_token : Token) (s : Parser.State) (tok : Token)
  (fuel : nat) :
  nth_error input (Parser.token_iter_ s) = Some tok ->
  starts_scope (Token.type tok) = false ->
  Parser.scope input default_token (S (S fuel)) s = Ret (None, s).
Proof.
  intros H E.
  assert (R : forall ty, starts_scope ty = true ->
                         Parser.accept input ty s = Ret (None, s)).
  { intros ty Hty. apply (accept_mismatch s tok ty H).
    destruct (Token.type tok); try discriminate E;
      destruct ty; try discriminate Hty; reflexivity. }
  assert (X : Parser.expr input (S fuel) s = Ret (None, s)).
  { apply (expr_fails_at s tok fuel H).
    destruct (Token.type tok); try discriminate E; reflexivity. }
  cbn [Parser.scope].
  unfold Parser.scope_body, Parser.var_decl, Parser.type, Parser.array_type,
    Parser.reference_type, Parser.simple_type, Parser.return_stmt, Parser.expr_stmt, bind.
  repeat (rewrite !R by reflexivity; cbv beta iota delta [ret]).
  rewrite X. reflexivity.
Qed.

(** So [parse], started on such a token with no error recorded, returns
    true at once with an empty [Block]. *)
Lemma parse_true_at_rejected_token (default_token : Token) (s : Parser.State)
  (tok : Token) (fuel : nat) :
  nth_error input (Parser.token_iter_ s) = Some tok ->
  starts_scope (Token.type tok) = false ->
  Parser.errors_ s = [] ->
  Parser.parse input default_token (S (S fuel)) s
  = Ret (Some (Some (Block default_token [])), s).
Proof.
  intros H E Hs.
  unfold Parser.parse, Parser.block, bind. cbn [Parser.block_loop]. unfold bind.
  rewrite (scope_fails_at default_token s tok fuel H E).
  cbn. rewrite Hs. reflexivity.
Qed.

(** On [( )] the nested [expr] fails on the closing parenthesis and [paren]
    succeeds with a null output, whatever the cursor and the errors so far. *)
Lemma paren_on_empty_parentheses (s : Parser.State) (lp rp : Token) (fuel : nat) :
  nth_error input (Parser.token_iter_ s) = Some lp ->
  nth_error input (S (Parser.token_iter_ s)) = Some rp ->
  Token.type lp = TokenType.lparen ->
  Token.type rp = TokenType.rparen ->
  Parser.expr input (S fuel) (after_token s) = Ret (None, after_token s)
  /\ Parser.paren input (Parser.expr input (S fuel)) s
     = Ret (Some (None, lp), after_token (after_token s)).
Proof.
  intros Hl Hr Tl Tr.
  assert (X : Parser.expr input (S fuel) (after_token s) = Ret (None, after_token s)).
  { apply (expr_fails_at (after_token s) rp fuel Hr). rewrite Tr. reflexivity. }
  split; [ exact X | ].
  unfold Parser.paren, bind.
  rewrite <- Tl, (accept_match s lp Hl).
  rewrite X.
  rewrite <- Tr, (accept_match (after_token s) rp Hr).
  reflexivity.
Qed.

(** On [return ;] the production [return_stmt] builds a [ReturnStatement]
    whose expression is null. *)
Lemma return_stmt_without_expression (s : Parser.State) (t_return t_semi : Token)
  (fuel : nat) :
  nth_error input (Parser.token_iter_ s) = Some t_return ->
  nth_error input (S (Parser.token_iter_ s)) = Some t_semi ->
  Token.type t_return = TokenType._return ->
  Token.type t_semi = TokenType.semicolon ->
  Parser.return_stmt input (S fuel) s
  = Ret (Some (Some (ReturnStatement t_return None), t_return),
         after_token (after_token s)).
Proof.
  intros Hr Hs Tr Ts.
  unfold Parser.return_stmt, bind.
  rewrite <- Tr, (accept_match s t_return Hr).
  rewrite (expr_fails_at (after_token s) t_semi fuel Hs) by (rewrite Ts; reflexivity).
  rewrite <- Ts, (accept_match (after_token s) t_semi Hs).
  reflexivity.
Qed.

End Cursor.

(** The fold of [assign] nests to the right, whatever the number of
    operands. *)
Lemma assign_fold_cons (assign_start : Token) (x y : ExpressionPtr)
  (operands : list ExpressionPtr) :
  Parser.assign_fold assign_start (x :: y :: operands)
  = Some (BinaryOperation assign_start TokenType.assign x
            (Parser.assign_fold assign_start (y :: operands))).
Proof.
  unfold Parser.assign_fold.
  change (removelast (x :: y :: operands)) with (x :: removelast (y :: operands)).
  change (last (x :: y :: operands) None) with (last (y :: operands) None).
  cbn [rev]. rewrite fold_left_app. reflexivity.
Qed.

Lemma assign_fold_single (assign_start : Token) (x : ExpressionPtr) :
  Parser.assign_fold assign_start [x] = x.
Proof. reflexivity. Qed.

(* ----------------------------------------------------------------- *)
(** *** Overall success of [parse] *)

(** C1 (the claim as the spec words it fails): on [int x ; )] the parser
    returns true with a [Block] of one declaration and no error, while the
    cursor stands at index 3 of 4: the closing parenthesis is never
    consumed. *)
Lemma parse_leaves_tokens_unread :
  let t_int := Token.mk TokenType._int "int" 1 1 in
  let t_x := Token.mk TokenType.identifier "x" 1 5 in
  let t_semi := Token.mk TokenType.semicolon ";" 1 6 in
  let t_rparen := Token.mk TokenType.rparen ")" 1 8 in
  let input := [t_int; t_x; t_semi; t_rparen] in
  Parser.parse input sample_default_token 3 Parser.initial
  = Ret (Some (Some (Block t_int
                       [Some (VariableDeclarationStatement
                                (mkVariableDeclaration t_int
                                   (Some (SimpleType t_int "int" false)) "x" None))])),
         {| Parser.token_iter_ := 3; Parser.errors_ := [] |})
  /\ 3 < List.length input.
Proof.
  cbv zeta. split.
  - vm_compute. reflexivity.
  - cbn. lia.
Qed.

(** C1 (amended): whenever [parse] returns true, its output is a [Block],
    the error list is empty at that point, and the state is the one in
    which the loop over [scope] stopped, that is, where the first [scope]
    call returned false; nothing requires the cursor to be at the end. *)
Theorem parse_true_only_without_errors
  (input : TokenSeq) (default_token : Token) (fuel : nat)
  (s s' : Parser.State) (out : StatementPtr) :
  Parser.parse input default_token fuel s = Ret (Some out, s') ->
  Parser.errors_ s' = []
  /\ exists block_start statements,
       out = Some (Block block_start statements)
       /\ Parser.block_loop input default_token fuel fuel default_token [] s
          = Ret ((block_start, statements), s').
Proof.
  unfold Parser.parse, Parser.block, Parser.get_errors, bind, ret.
  destruct (Parser.block_loop input default_token fuel fuel default_token [] s)
    as [[[block_start statements] s1] | f]; [ | discriminate ].
  destruct (Parser.errors_ s1) eqn:E; intros H; inversion H; subst.
  split; [ assumption | ].
  exists block_start, statements. split; reflexivity.
Qed.

Lemma parse_true_only_without_errors_witness :
  Parser.errors_ {| Parser.token_iter_ := 3; Parser.errors_ := [] |} = []
  /\ exists block_start statements,
       Some (Block (Token.mk TokenType._int "int" 1 1)
               [Some (VariableDeclarationStatement
                        (mkVariableDeclaration (Token.mk TokenType._int "int" 1 1)
                           (Some (SimpleType (Token.mk TokenType._int "int" 1 1) "int" false))
                           "x" None))])
       = Some (Block block_start statements)
       /\ Parser.block_loop
            [Token.mk TokenType._int "int" 1 1; Token.mk TokenType.identifier "x" 1 5;
             Token.mk TokenType.semicolon ";" 1 6; Token.mk TokenType.rparen ")" 1 8]
            sample_default_token 3 3 sample_default_token [] Parser.initial
          = Ret ((block_start, statements),
                 {| Parser.token_iter_ := 3; Parser.errors_ := [] |}).
Proof.
  apply (parse_true_only_without_errors
           [Token.mk TokenType._int "int" 1 1; Token.mk TokenType.identifier "x" 1 5;
            Token.mk TokenType.semicolon ";" 1 6; Token.mk TokenType.rparen ")" 1 8]
           sample_default_token 3 Parser.initial).
  vm_compute. reflexivity.
Defined.

(* ----------------------------------------------------------------- *)
(** *** Shape of the expression trees *)

(** C4: for identifier tokens [a], [b], [c] separated by two [=] tokens and
    followed by a token that does not continue an expression, [expr]
    returns true with
    [BinaryOperation(=, Identifier(a), BinaryOperation(=, Identifier(b), Identifier(c)))],
    having consumed the five tokens and raised no error. *)
Theorem assign_right_associative
  (ta e1 tb e2 tc nxt : Token) (rest : TokenSeq) (fuel : nat) :
  Token.type ta = TokenType.identifier ->
  Token.type e1 = TokenType.assign ->
  Token.type tb = TokenType.identifier ->
  Token.type e2 = TokenType.assign ->
  Token.type tc = TokenType.identifier ->
  continues_expression (Token.type nxt) = false ->
  Parser.expr (ta :: e1 :: tb :: e2 :: tc :: nxt :: rest) (4 + fuel) Parser.initial
  = Ret (Some (Some (BinaryOperation ta TokenType.assign
                       (Some (Identifier ta (Token.data ta)))
                       (Some (BinaryOperation ta TokenType.assign
                                (Some (Identifier tb (Token.data tb)))
                                (Some (Identifier tc (Token.data tc)))))),
               ta),
         {| Parser.token_iter_ := 5; Parser.errors_ := [] |}).
Proof.
  intros Ha H1 Hb H2 Hc Hn.
  expose_token ta. expose_token e1. expose_token tb. expose_token e2. expose_token tc.
  by_cases_on_type nxt; vm_compute; reflexivity.
Qed.

Lemma assign_right_associative_witness :
  let ta := Token.mk TokenType.identifier "a" 1 1 in
  let e1 := Token.mk TokenType.assign "=" 1 3 in
  let tb := Token.mk TokenType.identifier "b" 1 5 in
  let e2 := Token.mk TokenType.assign "=" 1 7 in
  let tc := Token.mk TokenType.identifier "c" 1 9 in
  let semi := Token.mk TokenType.semicolon ";" 1 10 in
  Parser.expr [ta; e1; tb; e2; tc; semi] 4 Parser.initial
  = Ret (Some (Some (BinaryOperation ta TokenType.assign
                       (Some (Identifier ta "a"))
                       (Some (BinaryOperation ta TokenType.assign
                                (Some (Identifier tb "b"))
                                (Some (Identifier tc "c"))))),
               ta),
         {| Parser.token_iter_ := 5; Parser.errors_ := [] |}).
Proof.
  cbv zeta.
  apply (assign_right_associative
           (Token.mk TokenType.identifier "a" 1 1) (Token.mk TokenType.assign "=" 1 3)
           (Token.mk TokenType.identifier "b" 1 5) (Token.mk TokenType.assign "=" 1 7)
           (Token.mk TokenType.identifier "c" 1 9) (Token.mk TokenType.semicolon ";" 1 10)
           [] 0); reflexivity.
Defined.

(** C5: for the integer tokens [1], [2], [3] separated by [+] and [*] and
    followed by a token that does not continue an expression, [expr]
    returns true with
    [BinaryOperation(+, Integer32(1), BinaryOperation( *, Integer32(2), Integer32(3)))]. *)
Theorem muldiv_binds_tighter_than_addsub
  (t1 op1 t2 op2 t3 nxt : Token) (rest : TokenSeq) (fuel : nat) :
  Token.type t1 = TokenType.dec_integer -> Token.data t1 = "1" ->
  Token.type op1 = TokenType.plus ->
  Token.type t2 = TokenType.dec_integer -> Token.data t2 = "2" ->
  Token.type op2 = TokenType.multiply ->
  Token.type t3 = TokenType.dec_integer -> Token.data t3 = "3" ->
  continues_expression (Token.type nxt) = false ->
  Parser.expr (t1 :: op1 :: t2 :: op2 :: t3 :: nxt :: rest) (4 + fuel) Parser.initial
  = Ret (Some (Some (BinaryOperation t1 TokenType.plus
                       (Some (Integer32 t1 1))
                       (Some (BinaryOperation t2 TokenType.multiply
                                (Some (Integer32 t2 2))
                                (Some (Integer32 t3 3))))),
               t1),
         {| Parser.token_iter_ := 5; Parser.errors_ := [] |}).
Proof.
  intros H1 D1 Hp H2 D2 Hm H3 D3 Hn.
  expose_token t1. expose_token op1. expose_token t2. expose_token op2. expose_token t3.
  by_cases_on_type nxt; vm_compute; reflexivity.
Qed.

Lemma muldiv_binds_tighter_than_addsub_witness :
  let t1 := Token.mk TokenType.dec_integer "1" 1 1 in
  let op1 := Token.mk TokenType.plus "+" 1 3 in
  let t2 := Token.mk TokenType.dec_integer "2" 1 5 in
  let op2 := Token.mk TokenType.multiply "*" 1 7 in
  let t3 := Token.mk TokenType.dec_integer "3" 1 9 in
  let semi := Token.mk TokenType.semicolon ";" 1 10 in
  Parser.expr [t1; op1; t2; op2; t3; semi] 4 Parser.initial
  = Ret (Some (Some (BinaryOperation t1 TokenType.plus
                       (Some (Integer32 t1 1))
                       (Some (BinaryOperation t2 TokenType.multiply
                                (Some (Integer32 t2 2))
                                (Some (Integer32 t3 3))))),
               t1),
         {| Parser.token_iter_ := 5; Parser.errors_ := [] |}).
Proof.
  cbv zeta.
  apply (muldiv_binds_tighter_than_addsub
           (Token.mk TokenType.dec_integer "1" 1 1) (Token.mk TokenType.plus "+" 1 3)
           (Token.mk TokenType.dec_integer "2" 1 5) (Token.mk TokenType.multiply "*" 1 7)
           (Token.mk TokenType.dec_integer "3" 1 9) (Token.mk TokenType.semicolon ";" 1 10)
           [] 0); reflexivity.
Defined.

(** C6: addition/subtraction and multiplication/division are
    left-associative.  For the integer tokens [1], [2], [3] separated by two
    operators of one level, both among [+] and [-] or both among [*] and
    [/], and followed by a token that does not continue an expression,
    [expr] returns true with
    [BinaryOperation(op2, BinaryOperation(op1, Integer32(1), Integer32(2)), Integer32(3))];
    with two [-] this is
    [BinaryOperation(-, BinaryOperation(-, Integer32(1), Integer32(2)), Integer32(3))]. *)
Theorem addsub_left_associative
  (t1 op1 t2 op2 t3 nxt : Token) (rest : TokenSeq) (fuel : nat) :
  Token.type t1 = TokenType.dec_integer -> Token.data t1 = "1" ->
  Token.type t2 = TokenType.dec_integer -> Token.data t2 = "2" ->
  Token.type t3 = TokenType.dec_integer -> Token.data t3 = "3" ->
  (additive (Token.type op1) && additive (Token.type op2)
   || multiplicative (Token.type op1) && multiplicative (Token.type op2))%bool
  = true ->
  continues_expression (Token.type nxt) = false ->
  Parser.expr (t1 :: op1 :: t2 :: op2 :: t3 :: nxt :: rest) (4 + fuel) Parser.initial
  = Ret (Some (Some (BinaryOperation t1 (Token.type op2)
                       (Some (BinaryOperation t1 (Token.type op1)
                                (Some (Integer32 t1 1))
                                (Some (Integer32 t2 2))))
                       (Some (Integer32 t3 3))),
               t1),
         {| Parser.token_iter_ := 5; Parser.errors_ := [] |}).
Proof.
  intros H1 D1 H2 D2 H3 D3 Hop Hn.
  expose_token t1. expose_token t2. expose_token t3.
  destruct op1 as [ty1 data1 line1 col1], op2 as [ty2 data2 line2 col2].
  cbn [Token.type] in *.
  destruct ty1; try discriminate Hop;
    destruct ty2; try discriminate Hop;
    by_cases_on_type nxt; vm_compute; reflexivity.
Qed.

Lemma addsub_left_associative_witness :
  let t1 := Token.mk TokenType.dec_integer "1" 1 1 in
  let op1 := Token.mk TokenType.minus "-" 1 3 in
  let t2 := Token.mk TokenType.dec_integer "2" 1 5 in
  let op2 := Token.mk TokenType.minus "-" 1 7 in
  let t3 := Token.mk TokenType.dec_integer "3" 1 9 in
  let semi := Token.mk TokenType.semicolon ";" 1 10 in
  Parser.expr [t1; op1; t2; op2; t3; semi] 4 Parser.initial
  = Ret (Some (Some (BinaryOperation t1 TokenType.minus
                       (Some (BinaryOperation t1 TokenType.minus
                                (Some (Integer32 t1 1))
                                (Some (Integer32 t2 2))))
                       (Some (Integer32 t3 3))),
               t1),
         {| Parser.token_iter_ := 5; Parser.errors_ := [] |}).
Proof.
  cbv zeta.
  apply (addsub_left_associative
           (Token.mk TokenType.dec_integer "1" 1 1) (Token.mk TokenType.minus "-" 1 3)
           (Token.mk TokenType.dec_integer "2" 1 5) (Token.mk TokenType.minus "-" 1 7)
           (Token.mk TokenType.dec_integer "3" 1 9) (Token.mk TokenType.semicolon ";" 1 10)
           [] 0); reflexivity.
Defined.

(* ----------------------------------------------------------------- *)
(** *** Start tokens *)

(** C3 (the code at two failing inputs): in [a = b = c ;] the inner
    [BinaryOperation], built for [b = c], stores the token of [a] and not
    the token of [b]; in [int f ( int a , int b ) { }] both parameters store
    the first token of the whole declaration and not the [int] each of
    them begins with. *)
Theorem start_token_of_inner_nodes :
  let ta := Token.mk TokenType.identifier "a" 1 1 in
  let e1 := Token.mk TokenType.assign "=" 1 3 in
  let tb := Token.mk TokenType.identifier "b" 1 5 in
  let e2 := Token.mk TokenType.assign "=" 1 7 in
  let tc := Token.mk TokenType.identifier "c" 1 9 in
  let semi := Token.mk TokenType.semicolon ";" 1 10 in
  let f_int := Token.mk TokenType._int "int" 2 1 in
  let f_name := Token.mk TokenType.identifier "f" 2 5 in
  let f_lparen := Token.mk TokenType.lparen "(" 2 7 in
  let a_int := Token.mk TokenType._int "int" 2 9 in
  let a_name := Token.mk TokenType.identifier "a" 2 13 in
  let f_comma := Token.mk TokenType.comma "," 2 15 in
  let b_int := Token.mk TokenType._int "int" 2 17 in
  let b_name := Token.mk TokenType.identifier "b" 2 21 in
  let f_rparen := Token.mk TokenType.rparen ")" 2 23 in
  let f_lbrace := Token.mk TokenType.lbrace "{" 2 25 in
  let f_rbrace := Token.mk TokenType.rbrace "}" 2 27 in
  let int_at (tok : Token) := Some (SimpleType tok "int" false) in
  (Parser.expr [ta; e1; tb; e2; tc; semi] 4 Parser.initial
   = Ret (Some (Some (BinaryOperation ta TokenType.assign
                        (Some (Identifier ta "a"))
                        (Some (BinaryOperation ta TokenType.assign
                                 (Some (Identifier tb "b"))
                                 (Some (Identifier tc "c"))))),
                ta),
          {| Parser.token_iter_ := 5; Parser.errors_ := [] |})
   /\ ta <> tb)
  /\
  (Parser.var_decl
     [f_int; f_name; f_lparen; a_int; a_name; f_comma; b_int; b_name; f_rparen;
      f_lbrace; f_rbrace]
     (Parser.scope
        [f_int; f_name; f_lparen; a_int; a_name; f_comma; b_int; b_name; f_rparen;
         f_lbrace; f_rbrace]
        sample_default_token 3)
     4 Parser.initial
   = Ret (Some (Some (FunctionDeclaration f_int (int_at f_int) "f"
                        [mkVariableDeclaration f_int (int_at a_int) "a" None;
                         mkVariableDeclaration f_int (int_at b_int) "b" None]
                        (Some (Scope f_lbrace [] None))),
                None),
          {| Parser.token_iter_ := 11; Parser.errors_ := [] |})
   /\ f_int <> a_int /\ f_int <> b_int).
Proof.
  cbv zeta. split.
  - split; [ vm_compute; reflexivity | discriminate ].
  - split; [ vm_compute; reflexivity | split; discriminate ].
Qed.

(* ----------------------------------------------------------------- *)
(** *** Error accumulation *)

(** C8: on [int x = ;] (whatever follows the semicolon) [parse] returns
    false, the error list holds exactly one error, and that error's token
    is the semicolon, the token that follows [=]. *)
Theorem missing_initializer_is_reported
  (t_int t_x t_eq t_semi : Token) (rest : TokenSeq)
  (default_token : Token) (fuel : nat) :
  Token.type t_int = TokenType._int ->
  Token.type t_x = TokenType.identifier ->
  Token.type t_eq = TokenType.assign ->
  Token.type t_semi = TokenType.semicolon ->
  Parser.parse (t_int :: t_x :: t_eq :: t_semi :: rest) default_token (3 + fuel)
               Parser.initial
  = Ret (None,
         {| Parser.token_iter_ := 3;
            Parser.errors_ :=
              [mkError t_semi
                 ("Expected expression, but got " ++ dquote ++ Token.data t_semi ++ dquote)%string]
         |})
  /\ nth_error (t_int :: t_x :: t_eq :: t_semi :: rest) (2 + 1) = Some t_semi.
Proof.
  intros H0 H1 H2 H3.
  expose_token t_int. expose_token t_x. expose_token t_eq. expose_token t_semi.
  split; [ vm_compute | ]; reflexivity.
Qed.

Lemma missing_initializer_is_reported_witness :
  let t_int := Token.mk TokenType._int "int" 1 1 in
  let t_x := Token.mk TokenType.identifier "x" 1 5 in
  let t_eq := Token.mk TokenType.assign "=" 1 7 in
  let t_semi := Token.mk TokenType.semicolon ";" 1 9 in
  Parser.parse [t_int; t_x; t_eq; t_semi] sample_default_token 3 Parser.initial
  = Ret (None,
         {| Parser.token_iter_ := 3;
            Parser.errors_ :=
              [mkError t_semi
                 ("Expected expression, but got " ++ dquote ++ ";" ++ dquote)%string]
         |})
  /\ nth_error [t_int; t_x; t_eq; t_semi] 3 = Some t_semi.
Proof.
  cbv zeta.
  apply (missing_initializer_is_reported
           (Token.mk TokenType._int "int" 1 1) (Token.mk TokenType.identifier "x" 1 5)
           (Token.mk TokenType.assign "=" 1 7) (Token.mk TokenType.semicolon ";" 1 9)
           [] sample_default_token 0); reflexivity.
Defined.

(* ----------------------------------------------------------------- *)
(** *** Null expressions built by the parser *)

(** C9: wherever the cursor stands on [(] followed by [)], the call of
    [expr] inside [paren] returns false without moving the cursor and
    [paren] returns true all the same, its output left null, two tokens
    consumed and no error added; and [parse] on [( ) ;] followed by a token
    that starts no scope returns true with an [ExpressionStatement] whose
    expression is the null pointer. *)
Theorem paren_true_with_null_expression
  (input : TokenSeq) (s : Parser.State)
  (lp rp semi nxt : Token) (rest : TokenSeq) (default_token : Token) (fuel : nat) :
  nth_error input (Parser.token_iter_ s) = Some lp ->
  nth_error input (S (Parser.token_iter_ s)) = Some rp ->
  Token.type lp = TokenType.lparen ->
  Token.type rp = TokenType.rparen ->
  Token.type semi = TokenType.semicolon ->
  starts_scope (Token.type nxt) = false ->
  Parser.expr input (S fuel) (after_token s) = Ret (None, after_token s)
  /\ Parser.paren input (Parser.expr input (S fuel)) s
     = Ret (Some (None, lp),
            {| Parser.token_iter_ := 2 + Parser.token_iter_ s;
               Parser.errors_ := Parser.errors_ s |})
  /\ Parser.parse (lp :: rp :: semi :: nxt :: rest) default_token (4 + fuel)
                  Parser.initial
     = Ret (Some (Some (Block lp [Some (ExpressionStatement lp None)])),
            {| Parser.token_iter_ := 3; Parser.errors_ := [] |}).
Proof.
  intros Hl Hr Tl Tr Ts Tn.
  destruct (paren_on_empty_parentheses input s lp rp fuel Hl Hr Tl Tr) as [X P].
  split; [ exact X | ].
  split; [ exact P | ].
  clear Hl Hr X P.
  expose_token lp. expose_token rp. expose_token semi.
  by_cases_on_type nxt; vm_compute; reflexivity.
Qed.

Lemma paren_true_with_null_expression_witness :
  let lp := Token.mk TokenType.lparen "(" 1 1 in
  let rp := Token.mk TokenType.rparen ")" 1 2 in
  let semi := Token.mk TokenType.semicolon ";" 1 3 in
  let nxt := Token.mk TokenType.rbrace "}" 2 1 in
  Parser.expr [lp; rp] 1 {| Parser.token_iter_ := 1; Parser.errors_ := [] |}
  = Ret (None, {| Parser.token_iter_ := 1; Parser.errors_ := [] |})
  /\ Parser.paren [lp; rp] (Parser.expr [lp; rp] 1) Parser.initial
     = Ret (Some (None, lp), {| Parser.token_iter_ := 2; Parser.errors_ := [] |})
  /\ Parser.parse [lp; rp; semi; nxt] sample_default_token 4 Parser.initial
     = Ret (Some (Some (Block lp [Some (ExpressionStatement lp None)])),
            {| Parser.token_iter_ := 3; Parser.errors_ := [] |}).
Proof.
  cbv zeta.
  apply (paren_true_with_null_expression
           [Token.mk TokenType.lparen "(" 1 1; Token.mk TokenType.rparen ")" 1 2]
           Parser.initial
           (Token.mk TokenType.lparen "(" 1 1) (Token.mk TokenType.rparen ")" 1 2)
           (Token.mk TokenType.semicolon ";" 1 3) (Token.mk TokenType.rbrace "}" 2 1)
           [] sample_default_token 0); reflexivity.
Defined.

(* ----------------------------------------------------------------- *)
(** *** Code generation of the operation nodes *)

Section CodeGeneration.

Variable Identifier_code_gen : Token -> string -> StateM LLVM.Builder LLVM.Value.

(** The instructions of a node follow those of its operands: the two
    operands of a binary node run in order, left first. *)
Lemma BinaryOperation_code_gen_operands
  (token : Token) (op : TokenType) (lhs rhs : Expression)
  (builder b1 b2 : LLVM.Builder) (lhs_value rhs_value : LLVM.Value) :
  Expression_code_gen Identifier_code_gen lhs builder = Ret (lhs_value, b1) ->
  Expression_code_gen Identifier_code_gen rhs b1 = Ret (rhs_value, b2) ->
  Expression_code_gen Identifier_code_gen (BinaryOperation token op (Some lhs) (Some rhs)) builder
  = match op with
    | TokenType.plus => LLVM.CreateAdd lhs_value rhs_value b2
    | TokenType.minus => LLVM.CreateSub lhs_value rhs_value b2
    | TokenType.multiply => LLVM.CreateMul lhs_value rhs_value b2
    | TokenType.divide => LLVM.CreateSDiv lhs_value rhs_value b2
    | _ => Ret (LLVM.getFalse, b2)
    end.
Proof.
  intros Hl Hr. cbn [Expression_code_gen deref_in].
  unfold bind at 1. rewrite Hl.
  unfold bind at 1. rewrite Hr.
  destruct op; reflexivity.
Qed.

(** C2 (what the code does where the claim asks for an error): for every
    operator other than [+], [-], [*], [/], once both operands have
    generated their code, [BinaryOperation::code_gen] returns normally,
    with the constant false as its value and no instruction of its own. *)
Theorem BinaryOperation_code_gen_other_operator
  (token : Token) (op : TokenType) (lhs rhs : Expression)
  (builder b1 b2 : LLVM.Builder) (lhs_value rhs_value : LLVM.Value) :
  op <> TokenType.plus -> op <> TokenType.minus ->
  op <> TokenType.multiply -> op <> TokenType.divide ->
  Expression_code_gen Identifier_code_gen lhs builder = Ret (lhs_value, b1) ->
  Expression_code_gen Identifier_code_gen rhs b1 = Ret (rhs_value, b2) ->
  Expression_code_gen Identifier_code_gen (BinaryOperation token op (Some lhs) (Some rhs)) builder
  = Ret (LLVM.getFalse, b2).
Proof.
  intros Hp Hm Ht Hd Hl Hr.
  rewrite (BinaryOperation_code_gen_operands token op lhs rhs builder b1 b2
             lhs_value rhs_value Hl Hr).
  destruct op; try reflexivity; congruence.
Qed.

(** C7: once the operand has generated its code with value [v], a
    [UnaryOperation] with operator [+] creates the one instruction
    [Mul (constant 1) v] and returns it, and with operator [-] the one
    instruction [Mul (constant -1) v]. *)
Theorem UnaryOperation_code_gen_multiplies
  (token : Token) (rhs : Expression)
  (builder b1 : LLVM.Builder) (rhs_value : LLVM.Value) :
  Expression_code_gen Identifier_code_gen rhs builder = Ret (rhs_value, b1) ->
  Expression_code_gen Identifier_code_gen (UnaryOperation token TokenType.plus (Some rhs)) builder
  = Ret (LLVM.Mul (LLVM.ConstantInt 32 1) rhs_value,
         b1 ++ [LLVM.Mul (LLVM.ConstantInt 32 1) rhs_value])
  /\ Expression_code_gen Identifier_code_gen (UnaryOperation token TokenType.minus (Some rhs)) builder
     = Ret (LLVM.Mul (LLVM.ConstantInt 32 (-1)) rhs_value,
            b1 ++ [LLVM.Mul (LLVM.ConstantInt 32 (-1)) rhs_value]).
Proof.
  intros Hr. cbn [Expression_code_gen deref_in].
  unfold bind. rewrite Hr. split; reflexivity.
Qed.

End CodeGeneration.

Lemma BinaryOperation_code_gen_other_operator_witness :
  let t1 := Token.mk TokenType.identifier "a" 1 1 in
  let t2 := Token.mk TokenType.dec_integer "2" 1 5 in
  Expression_code_gen sample_Identifier_code_gen
    (BinaryOperation t1 TokenType.assign (Some (Identifier t1 "a")) (Some (Integer32 t2 2)))
    []
  = Ret (LLVM.getFalse, []).
Proof.
  cbv zeta.
  apply (BinaryOperation_code_gen_other_operator sample_Identifier_code_gen
           (Token.mk TokenType.identifier "a" 1 1) TokenType.assign
           (Identifier (Token.mk TokenType.identifier "a" 1 1) "a")
           (Integer32 (Token.mk TokenType.dec_integer "2" 1 5) 2)
           [] [] [] (LLVM.Extern "a") (LLVM.getInt32 2));
    try discriminate; reflexivity.
Defined.

Lemma UnaryOperation_code_gen_multiplies_witness :
  let t := Token.mk TokenType.minus "-" 1 1 in
  let t5 := Token.mk TokenType.dec_integer "5" 1 2 in
  Expression_code_gen sample_Identifier_code_gen
    (UnaryOperation t TokenType.plus (Some (Integer32 t5 5))) []
  = Ret (LLVM.Mul (LLVM.ConstantInt 32 1) (LLVM.ConstantInt 32 5),
         [LLVM.Mul (LLVM.ConstantInt 32 1) (LLVM.ConstantInt 32 5)])
  /\ Expression_code_gen sample_Identifier_code_gen
       (UnaryOperation t TokenType.minus (Some (Integer32 t5 5))) []
     = Ret (LLVM.Mul (LLVM.ConstantInt 32 (-1)) (LLVM.ConstantInt 32 5),
            [LLVM.Mul (LLVM.ConstantInt 32 (-1)) (LLVM.ConstantInt 32 5)]).
Proof.
  cbv zeta.
  apply (UnaryOperation_code_gen_multiplies sample_Identifier_code_gen
           (Token.mk TokenType.minus "-" 1 1)
           (Integer32 (Token.mk TokenType.dec_integer "5" 1 2) 5)
           [] [] (LLVM.getInt32 5)).
  reflexivity.
Defined.

(** C10: [ReturnStatement::tree_gen] and [ReturnStatement::code_gen]
    dereference [return_expr] whatever it holds: with a null [return_expr]
    both end in a null-pointer dereference, so either one returning
    normally implies that [return_expr] is not null; with a non-null one,
    [code_gen] is the expression's code followed by the return instruction.
    And wherever the cursor stands on [return] followed by [;], the
    production [return_stmt] returns true with a [ReturnStatement] whose
    [return_expr] is null. *)
Theorem ReturnStatement_requires_expression
  (tree_prefix : nat -> string) (token_map : TokenType -> option string)
  (Identifier_tree_gen : Token -> string -> nat -> outcome string)
  (Identifier_code_gen : Token -> string -> StateM LLVM.Builder LLVM.Value)
  (input : TokenSeq) (s : Parser.State) (t_return t_semi : Token) (fuel : nat) :
  nth_error input (Parser.token_iter_ s) = Some t_return ->
  nth_error input (S (Parser.token_iter_ s)) = Some t_semi ->
  Token.type t_return = TokenType._return ->
  Token.type t_semi = TokenType.semicolon ->
  (forall depth,
      ReturnStatement_tree_gen tree_prefix token_map Identifier_tree_gen None depth
      = Fault NullPointer)
  /\ (forall builder,
         ReturnStatement_code_gen Identifier_code_gen None builder = Fault NullPointer)
  /\ (forall return_expr depth tree,
         ReturnStatement_tree_gen tree_prefix token_map Identifier_tree_gen
                                  return_expr depth = Ret tree ->
         return_expr <> None)
  /\ (forall return_expr builder result,
         ReturnStatement_code_gen Identifier_code_gen return_expr builder = Ret result ->
         return_expr <> None)
  /\ (forall e builder value b1,
         Expression_code_gen Identifier_code_gen e builder = Ret (value, b1) ->
         ReturnStatement_code_gen Identifier_code_gen (Some e) builder
         = Ret (LLVM.Return value, b1 ++ [LLVM.Return value]))
  /\ Parser.return_stmt input (S fuel) s
     = Ret (Some (Some (ReturnStatement t_return None), t_return),
            {| Parser.token_iter_ := 2 + Parser.token_iter_ s;
               Parser.errors_ := Parser.errors_ s |}).
Proof.
  intros Hr Hs Tr Ts.
  split; [ reflexivity | ].
  split; [ reflexivity | ].
  split; [ intros return_expr depth tree H E; subst; discriminate | ].
  split; [ intros return_expr builder result H E; subst; discriminate | ].
  split.
  - intros e builder value b1 H.
    unfold ReturnStatement_code_gen, deref_in, bind. rewrite H. reflexivity.
  - exact (return_stmt_without_expression input s t_return t_semi fuel Hr Hs Tr Ts).
Qed.

Lemma ReturnStatement_requires_expression_witness :
  let t_return := Token.mk TokenType._return "return" 1 1 in
  let t_semi := Token.mk TokenType.semicolon ";" 1 8 in
  ReturnStatement_code_gen sample_Identifier_code_gen None [] = Fault NullPointer
  /\ Parser.return_stmt [t_return; t_semi] 1 Parser.initial
     = Ret (Some (Some (ReturnStatement t_return None), t_return),
            {| Parser.token_iter_ := 2; Parser.errors_ := [] |}).
Proof.
  cbv zeta.
  pose proof (ReturnStatement_requires_expression
                (fun _ => "") (fun _ => None) (fun _ _ _ => Ret "")
                sample_Identifier_code_gen
                [Token.mk TokenType._return "return" 1 1;
                 Token.mk TokenType.semicolon ";" 1 8]
                Parser.initial
                (Token.mk TokenType._return "return" 1 1)
                (Token.mk TokenType.semicolon ";" 1 8) 0
                eq_refl eq_refl eq_refl eq_refl) as H.
  split.
  - apply (proj1 (proj2 H)).
  - apply (proj2 (proj2 (proj2 (proj2 (proj2 H))))).
Defined.

(* ================================================================= *)
(** ** Further properties: [Encoder.cc] *)

(** X1: on a well-formed surrogate pair [to_utf32_char] is the code point
    the pair encodes, a supplementary-plane code point. *)
Theorem to_utf32_char_surrogate_pair (high low : Z) :
  (0xD800 <= high <= 0xDBFF)%Z ->
  (0xDC00 <= low <= 0xDFFF)%Z ->
  Encoder.to_utf32_char high low
  = (0x10000 + (high - 0xD800) * 0x400 + (low - 0xDC00))%Z
  /\ (0x10000 <= Encoder.to_utf32_char high low <= 0x10FFFF)%Z.
Proof.
  intros Hh Hl. unfold Encoder.to_utf32_char.
  rewrite Z.shiftl_mul_pow2 by lia.
  change (2 ^ 10)%Z with 1024%Z. change (2 ^ 32)%Z with 4294967296%Z.
  rewrite Z.mod_small by lia. lia.
Qed.

Lemma to_utf32_char_surrogate_pair_witness :
  Encoder.to_utf32_char 0xD83D 0xDE00 = 0x1F600%Z
  /\ (0x10000 <= Encoder.to_utf32_char 0xD83D 0xDE00 <= 0x10FFFF)%Z.
Proof.
  apply (to_utf32_char_surrogate_pair 0xD83D 0xDE00); lia.
Defined.

(** X2: [is_high_surrogate] and [is_low_surrogate] return false for every
    code unit, the high and low surrogates included: the test
    [c & 0xFFFFFC00 == 0xD800] masks [c] with the result of comparing the
    two constants. *)
Theorem surrogate_halves_never_recognised (c : Z) :
  Encoder.is_high_surrogate c = false /\ Encoder.is_low_surrogate c = false.
Proof.
  unfold Encoder.is_high_surrogate, Encoder.is_low_surrogate.
  change (Z.b2z (0xFFFFFC00 =? 0xD800)%Z) with 0%Z.
  change (Z.b2z (0xFFFFFC00 =? 0xDC00)%Z) with 0%Z.
  rewrite Z.land_0_r. split; reflexivity.
Qed.

(** X3: [is_surrogate] holds exactly for the code units below [0xE000],
    so also for every ASCII character: the subtraction is signed and its
    result is only compared from above. *)
Theorem is_surrogate_below_E000 (c : Z) :
  Encoder.is_surrogate c = true <-> (c < 0xE000)%Z.
Proof.
  unfold Encoder.is_surrogate. rewrite Z.ltb_lt. lia.
Qed.

Lemma utf32_encode_from_spec (utf16string result : list Z) :
  Encoder.utf32_encode_from utf16string result
  = if forallb (fun c => (0xE000 <=? c)%Z) utf16string
    then Ret (result ++ utf16string)
    else Fault InvalidArgument.
Proof.
  revert result. induction utf16string as [ | c rest IH ]; intros result.
  - cbn. rewrite app_nil_r. reflexivity.
  - cbn [Encoder.utf32_encode_from forallb].
    destruct (0xE000 <=? c)%Z eqn:E.
    + assert (S : Encoder.is_surrogate c = false)
        by (unfold Encoder.is_surrogate; apply Z.leb_le in E; apply Z.ltb_ge; lia).
      rewrite S. cbn [negb andb]. rewrite IH, <- app_assoc. reflexivity.
    + assert (S : Encoder.is_surrogate c = true)
        by (unfold Encoder.is_surrogate; apply Z.leb_gt in E; apply Z.ltb_lt; lia).
      rewrite S. cbn [negb andb].
      destruct rest as [ | next rest' ]; [ reflexivity | ].
      unfold Encoder.is_high_surrogate.
      change (Z.b2z (0xFFFFFC00 =? 0xD800)%Z) with 0%Z.
      rewrite Z.land_0_r. reflexivity.
Qed.

(** X4: [utf32_encode] returns its argument unchanged when every code unit
    is at least [0xE000], and throws [std::invalid_argument] as soon as the
    string holds a code unit below [0xE000]: an ASCII character or either
    half of a surrogate pair. *)
Theorem utf32_encode_spec (utf16string : list Z) :
  Encoder.utf32_encode utf16string
  = if forallb (fun c => (0xE000 <=? c)%Z) utf16string
    then Ret utf16string
    else Fault InvalidArgument.
Proof.
  unfold Encoder.utf32_encode. apply utf32_encode_from_spec.
Qed.

(* ================================================================= *)
(** ** Further properties: the parser's cursor and error list *)

Section Forward.

Variable input : TokenSeq.

Lemma advances_refl (s : Parser.State) : advances input s s.
Proof.
  repeat split; try lia. exists []. now rewrite app_nil_r.
Qed.

Lemma advances_trans (s1 s2 s3 : Parser.State) :
  advances input s1 s2 -> advances input s2 s3 -> advances input s1 s3.
Proof.
  intros (A1 & B1 & r1 & E1) (A2 & B2 & r2 & E2).
  repeat split; try lia.
  exists (r1 ++ r2). now rewrite E2, E1, app_assoc.
Qed.

Lemma bind_inv {A B : Type} (m : StateM Parser.State A) (k : A -> StateM Parser.State B)
  (s s' : Parser.State) (b : B) :
  bind m k s = Ret (b, s') ->
  exists a s1, m s = Ret (a, s1) /\ k a s1 = Ret (b, s').
Proof.
  unfold bind. destruct (m s) as [[a s1] | f]; [ | discriminate ].
  intros H. exists a, s1. split; [ reflexivity | exact H ].
Qed.

Lemma forward_ret {A : Type} (a : A) : forward input (ret a).
Proof. intros s x s' H. inversion H; subst. apply advances_refl. Qed.

Lemma forward_raise {A : Type} (f : fault) : forward input (@raise Parser.State A f).
Proof. intros s x s' H. discriminate H. Qed.

Lemma forward_lift {A : Type} (o : outcome A) : forward input (lift o).
Proof.
  intros s x s' H. unfold lift in H. destruct o; inversion H; subst.
  apply advances_refl.
Qed.

Lemma forward_bind {A B : Type} (m : StateM Parser.State A)
  (k : A -> StateM Parser.State B) :
  forward input m -> (forall a, forward input (k a)) -> forward input (bind m k).
Proof.
  intros Hm Hk s b s' H.
  apply bind_inv in H. destruct H as (a & s1 & H1 & H2).
  exact (advances_trans _ _ _ (Hm _ _ _ H1) (Hk _ _ _ _ H2)).
Qed.

Lemma forward_current_token : forward input (Parser.current_token input).
Proof.
  intros s x s' H. unfold Parser.current_token in H.
  destruct (nth_error input (Parser.token_iter_ s)); inversion H; subst.
  apply advances_refl.
Qed.

Lemma forward_previous_token : forward input (Parser.previous_token input).
Proof.
  intros s x s' H. unfold Parser.previous_token in H.
  destruct (Parser.token_iter_ s); [ discriminate | ].
  destruct (nth_error input n); inversion H; subst.
  apply advances_refl.
Qed.

Lemma forward_accept (ty : TokenType) : forward input (Parser.accept input ty).
Proof.
  intros s r s' H. apply accept_state in H. destruct r as [tok | ].
  - destruct H as (E & N & _). subst s'.
    assert (L : Parser.token_iter_ s < List.length input).
    { apply nth_error_Some. rewrite N. discriminate. }
    repeat split; cbn; try lia. exists []. now rewrite app_nil_r.
  - subst. apply advances_refl.
Qed.

Lemma forward_add_error (e : Error) : forward input (Parser.add_error e).
Proof.
  intros s x s' H. inversion H; subst.
  repeat split; cbn; try lia. exists [e]. reflexivity.
Qed.

Lemma forward_error_here (msg : string -> string) :
  forward input (Parser.error_here input msg).
Proof.
  unfold Parser.error_here. apply forward_bind.
  - apply forward_current_token.
  - intros cur. apply forward_add_error.
Qed.

Lemma forward_get_errors : forward input Parser.get_errors.
Proof. intros s x s' H. inversion H; subst. apply advances_refl. Qed.

Lemma forward_orelse {A : Type} (a b : StateM Parser.State (option A)) :
  forward input a -> forward input b -> forward input (Parser.orelse a b).
Proof.
  intros Ha Hb. unfold Parser.orelse. apply forward_bind; [ exact Ha | ].
  intros [x | ]; [ apply forward_ret | exact Hb ].
Qed.

(** One step of a proof that a production is [forward]: split a [bind],
    close a primitive, or case on the scrutinee of a [match]. *)
Ltac forward_step :=
  match goal with
  | H : forward _ ?m |- forward _ ?m => exact H
  | H : forall _, forward _ _ |- forward _ _ => solve [ apply H ]
  | H : forall _ _, forward _ _ |- forward _ _ => solve [ apply H ]
  | H : forall _ _ _, forward _ _ |- forward _ _ => solve [ apply H ]
  | H : forall _ _ _ _, forward _ _ |- forward _ _ => solve [ apply H ]
  | |- forward _ (bind _ _) => apply forward_bind; [ | intros ? ]
  | |- forward _ (ret _) => apply forward_ret
  | |- forward _ (raise _) => apply forward_raise
  | |- forward _ (lift _) => apply forward_lift
  | |- forward _ (Parser.accept _ _) => apply forward_accept
  | |- forward _ (Parser.error_here _ _) => apply forward_error_here
  | |- forward _ (Parser.previous_token _) => apply forward_previous_token
  | |- forward _ (Parser.current_token _) => apply forward_current_token
  | |- forward _ Parser.get_errors => apply forward_get_errors
  | |- forward _ (Parser.orelse _ _) => apply forward_orelse
  | |- forward _ (match ?x with _ => _ end) => destruct x
  | |- forward _ (let _ := _ in _) => cbv zeta
  end.

Ltac forward_auto := repeat forward_step.

Lemma forward_number : forward input (Parser.number input).
Proof. unfold Parser.number. forward_auto. Qed.

Lemma forward_identifier : forward input (Parser.identifier input).
Proof. unfold Parser.identifier. forward_auto. Qed.

Lemma forward_atom : forward input (Parser.atom input).
Proof.
  unfold Parser.atom. apply forward_orelse;
    [ apply forward_number | apply forward_identifier ].
Qed.

Section ForwardExpressions.

Variable expr : Parser.production ExpressionPtr.
Hypothesis forward_expr : forward input expr.

Lemma forward_paren : forward input (Parser.paren input expr).
Proof. unfold Parser.paren. forward_auto. apply forward_atom. Qed.

Lemma forward_func_call_arguments (fuel : nat) (arg : list ExpressionPtr) :
  forward input (Parser.func_call_arguments input expr fuel arg).
Proof.
  revert arg. induction fuel as [ | fuel IH ]; intros arg; cbn [Parser.func_call_arguments];
    forward_auto.
Qed.

Lemma forward_func_call_loop (fuel : nat) (start : Token) (func_expr : ExpressionPtr) :
  forward input (Parser.func_call_loop input expr fuel start func_expr).
Proof.
  revert func_expr. induction fuel as [ | fuel IH ]; intros func_expr;
    cbn [Parser.func_call_loop]; forward_auto.
  apply forward_func_call_arguments.
Qed.

Lemma forward_func_call (fuel : nat) : forward input (Parser.func_call input expr fuel).
Proof.
  unfold Parser.func_call. forward_auto;
    first [ apply forward_paren | apply forward_func_call_loop ].
Qed.

Lemma forward_unary_plusminus (fuel : nat) :
  forward input (Parser.unary_plusminus input expr fuel).
Proof. unfold Parser.unary_plusminus. forward_auto; apply forward_func_call. Qed.

Lemma forward_muldiv_loop (fuel rhs_fuel : nat) (start : Token) (lhs : ExpressionPtr) :
  forward input (Parser.muldiv_loop input expr fuel rhs_fuel start lhs).
Proof.
  revert lhs. induction fuel as [ | fuel IH ]; intros lhs; cbn [Parser.muldiv_loop];
    forward_auto.
  apply forward_unary_plusminus.
Qed.

Lemma forward_muldiv (fuel : nat) : forward input (Parser.muldiv input expr fuel).
Proof.
  unfold Parser.muldiv. forward_auto;
    first [ apply forward_unary_plusminus | apply forward_muldiv_loop ].
Qed.

Lemma forward_addsub_loop (fuel rhs_fuel : nat) (start : Token) (lhs : ExpressionPtr) :
  forward input (Parser.addsub_loop input expr fuel rhs_fuel start lhs).
Proof.
  revert lhs. induction fuel as [ | fuel IH ]; intros lhs; cbn [Parser.addsub_loop];
    forward_auto.
  apply forward_muldiv.
Qed.

Lemma forward_addsub (fuel : nat) : forward input (Parser.addsub input expr fuel).
Proof.
  unfold Parser.addsub. forward_auto;
    first [ apply forward_muldiv | apply forward_addsub_loop ].
Qed.

Lemma forward_assign_loop (fuel rhs_fuel : nat) (operands : list ExpressionPtr) :
  forward input (Parser.assign_loop input expr fuel rhs_fuel operands).
Proof.
  revert operands. induction fuel as [ | fuel IH ]; intros operands;
    cbn [Parser.assign_loop]; forward_auto.
  apply forward_addsub.
Qed.

Lemma forward_assign (fuel : nat) : forward input (Parser.assign input expr fuel).
Proof.
  unfold Parser.assign. forward_auto;
    first [ apply forward_addsub | apply forward_assign_loop ].
Qed.

End ForwardExpressions.

Lemma forward_expr (fuel : nat) : forward input (Parser.expr input fuel).
Proof.
  induction fuel as [ | fuel IH ]; cbn [Parser.expr].
  - apply forward_raise.
  - apply forward_assign. exact IH.
Qed.

Lemma forward_simple_type_after_sign (start : Token) (is_unsigned : bool) :
  forward input (Parser.simple_type_after_sign input start is_unsigned).
Proof. unfold Parser.simple_type_after_sign. forward_auto. Qed.

Lemma forward_simple_type : forward input (Parser.simple_type input).
Proof.
  unfold Parser.simple_type. forward_auto; apply forward_simple_type_after_sign.
Qed.

Lemma forward_reference_type : forward input (Parser.reference_type input).
Proof. unfold Parser.reference_type. forward_auto. apply forward_simple_type. Qed.

Lemma forward_array_type_loop (fuel expr_fuel : nat) (start : Token) (lhs : TypePtr) :
  forward input (Parser.array_type_loop input fuel expr_fuel start lhs).
Proof.
  revert lhs. induction fuel as [ | fuel IH ]; intros lhs; cbn [Parser.array_type_loop];
    forward_auto.
  apply forward_expr.
Qed.

Lemma forward_type (fuel : nat) : forward input (Parser.type input fuel).
Proof.
  unfold Parser.type, Parser.array_type. forward_auto;
    first [ apply forward_reference_type | apply forward_array_type_loop ].
Qed.

Lemma forward_expr_stmt (fuel : nat) : forward input (Parser.expr_stmt input fuel).
Proof. unfold Parser.expr_stmt. forward_auto. apply forward_expr. Qed.

Lemma forward_return_stmt (fuel : nat) : forward input (Parser.return_stmt input fuel).
Proof.
  unfold Parser.return_stmt. forward_auto;
    first [ apply forward_expr | apply forward_expr_stmt ].
Qed.

Section ForwardDeclarations.

Variable default_token : Token.
Variable scope : Parser.production StatementPtr.
Hypothesis forward_scope : forward input scope.

Lemma forward_func_decl_parameters (fuel type_fuel : nat) (start : Token)
  (param_list : list VariableDeclaration) :
  forward input (Parser.func_decl_parameters input fuel type_fuel start param_list).
Proof.
  revert param_list. induction fuel as [ | fuel IH ]; intros param_list;
    cbn [Parser.func_decl_parameters]; forward_auto.
  apply forward_type.
Qed.

Lemma forward_func_decl (fuel : nat) (start : Token) (return_type : TypePtr)
  (name : string) :
  forward input (Parser.func_decl input scope fuel start return_type name).
Proof.
  unfold Parser.func_decl. forward_auto. apply forward_func_decl_parameters.
Qed.

Lemma forward_var_decl (fuel : nat) : forward input (Parser.var_decl input scope fuel).
Proof.
  unfold Parser.var_decl. forward_auto;
    first [ apply forward_type | apply forward_expr | apply forward_func_decl
          | apply forward_return_stmt ].
Qed.

Lemma forward_scope_statements (fuel decl_fuel : nat) (statements : list StatementPtr) :
  forward input (Parser.scope_statements input scope fuel decl_fuel statements).
Proof.
  revert statements. induction fuel as [ | fuel IH ]; intros statements;
    cbn [Parser.scope_statements]; forward_auto.
  apply forward_var_decl.
Qed.

Lemma forward_scope_body (fuel : nat) :
  forward input (Parser.scope_body input default_token scope fuel).
Proof.
  unfold Parser.scope_body. forward_auto;
    first [ apply forward_scope_statements | apply forward_var_decl ].
Qed.

End ForwardDeclarations.

Lemma forward_scope (default_token : Token) (fuel : nat) :
  forward input (Parser.scope input default_token fuel).
Proof.
  induction fuel as [ | fuel IH ]; cbn [Parser.scope].
  - apply forward_raise.
  - apply forward_scope_body. exact IH.
Qed.

Lemma forward_block_loop (default_token : Token) (fuel scope_fuel : nat)
  (block_start : Token) (statements : list StatementPtr) :
  forward input (Parser.block_loop input default_token fuel scope_fuel block_start statements).
Proof.
  revert block_start statements.
  induction fuel as [ | fuel IH ]; intros block_start statements;
    cbn [Parser.block_loop]; forward_auto.
  apply forward_scope.
Qed.

Lemma forward_parse (default_token : Token) (fuel : nat) :
  forward input (Parser.parse input default_token fuel).
Proof.
  unfold Parser.parse, Parser.block. forward_auto. apply forward_block_loop.
Qed.

End Forward.

(** X5: whatever [parse] returns, the cursor never moved backwards, it
    stands inside the token sequence or at its end when it started there,
    and the error list is the initial one with errors appended: no error
    is ever dropped or reordered. *)
Theorem parse_cursor_and_errors
  (input : TokenSeq) (default_token : Token) (fuel : nat)
  (s s' : Parser.State) (out : option StatementPtr) :
  Parser.parse input default_token fuel s = Ret (out, s') ->
  Parser.token_iter_ s <= List.length input ->
  Parser.token_iter_ s <= Parser.token_iter_ s' <= List.length input
  /\ exists raised, Parser.errors_ s' = Parser.errors_ s ++ raised.
Proof.
  intros H L.
  destruct (forward_parse input default_token fuel s out s' H) as (A & B & R).
  split; [ lia | exact R ].
Qed.

Lemma parse_cursor_and_errors_witness :
  0 <= 3 <= 4
  /\ exists raised,
       [mkError (Token.mk TokenType.semicolon ";" 1 9)
          ("Expected expression, but got " ++ dquote ++ ";" ++ dquote)%string]
       = [] ++ raised.
Proof.
  apply (parse_cursor_and_errors
           [Token.mk TokenType._int "int" 1 1; Token.mk TokenType.identifier "x" 1 5;
            Token.mk TokenType.assign "=" 1 7; Token.mk TokenType.semicolon ";" 1 9]
           sample_default_token 3 Parser.initial
           {| Parser.token_iter_ := 3;
              Parser.errors_ :=
                [mkError (Token.mk TokenType.semicolon ";" 1 9)
                   ("Expected expression, but got " ++ dquote ++ ";" ++ dquote)%string] |}
           None).
  - vm_compute. reflexivity.
  - cbn. lia.
Defined.


(* ================================================================= *)
(** ** Further properties: what a success consumes and how a failure shows *)

Section Progress.

Variable input : TokenSeq.

Lemma forward_measure {A : Type} (m : StateM Parser.State A)
  (s s' : Parser.State) (a : A) :
  forward input m -> m s = Ret (a, s') ->
  Parser.token_iter_ s <= Parser.token_iter_ s'
  /\ List.length (Parser.errors_ s) <= List.length (Parser.errors_ s').
Proof.
  intros F H. destruct (F s a s' H) as (P & _ & raised & E).
  split; [ exact P | ]. rewrite E, length_app. lia.
Qed.

Lemma accept_measure (ty : TokenType) (s s' : Parser.State) (r : option Token) :
  Parser.accept input ty s = Ret (r, s') ->
  match r with
  | Some _ => Parser.token_iter_ s' = S (Parser.token_iter_ s)
              /\ List.length (Parser.errors_ s') = List.length (Parser.errors_ s)
  | None => s' = s
  end.
Proof.
  intros H. apply accept_state in H. destruct r as [tok | ].
  - destruct H as (E & _). subst s'. split; reflexivity.
  - exact H.
Qed.

Lemma previous_token_state (s s' : Parser.State) (tok : Token) :
  Parser.previous_token input s = Ret (tok, s') -> s' = s.
Proof.
  unfold Parser.previous_token. destruct (Parser.token_iter_ s); [ discriminate | ].
  destruct (nth_error input n); intros H; inversion H; reflexivity.
Qed.

Lemma lift_state {A : Type} (o : outcome A) (s s' : Parser.State) (a : A) :
  lift o s = Ret (a, s') -> s' = s.
Proof. unfold lift. destruct o; intros H; inversion H; reflexivity. Qed.

Lemma error_here_measure (msg : string -> string) (s s' : Parser.State) (u : unit) :
  Parser.error_here input msg s = Ret (u, s') ->
  Parser.token_iter_ s' = Parser.token_iter_ s
  /\ List.length (Parser.errors_ s') = S (List.length (Parser.errors_ s)).
Proof.
  unfold Parser.error_here, Parser.current_token, Parser.add_error, bind.
  destruct (nth_error input (Parser.token_iter_ s)); intros H; inversion H; subst.
  cbn. rewrite length_app. cbn. split; lia.
Qed.

Lemma accept_in_range (ty : TokenType) (s s' : Parser.State) (r : option Token) :
  Parser.accept input ty s = Ret (r, s') ->
  Parser.token_iter_ s < List.length input.
Proof.
  unfold Parser.accept, Parser.current_token, bind.
  destruct (nth_error input (Parser.token_iter_ s)) eqn:E; [ | discriminate ].
  intros _. apply nth_error_Some. rewrite E. discriminate.
Qed.

Lemma error_here_in_range (msg : string -> string) (s s' : Parser.State) (u : unit) :
  Parser.error_here input msg s = Ret (u, s') ->
  Parser.token_iter_ s < List.length input.
Proof.
  unfold Parser.error_here, Parser.current_token, bind.
  destruct (nth_error input (Parser.token_iter_ s)) eqn:E; [ | discriminate ].
  intros _. apply nth_error_Some. rewrite E. discriminate.
Qed.

(** Phase one: take a run apart into the runs of the calls it is made of. *)
Ltac split_run :=
  repeat match goal with
    | H : bind _ _ _ = Ret _ |- _ =>
        apply bind_inv in H;
        let a := fresh "a" in
        let s := fresh "s" in
        let H1 := fresh "Run" in
        destruct H as (a & s & H1 & H); cbv beta in H
    | H : Parser.orelse _ _ _ = Ret _ |- _ => unfold Parser.orelse in H
    | H : ret _ _ = Ret _ |- _ => inversion H; subst; clear H
    | H : raise _ _ = Ret _ |- _ => discriminate H
    | H : lift _ _ = Ret _ |- _ => apply lift_state in H; subst
    | H : (match ?x with _ => _ end) _ = Ret _ |- _ => destruct x
    | H : (let _ := _ in _) _ = Ret _ |- _ => cbv zeta in H
    end.

(** Phase two: replace the run of each call by what is known of it. *)
Ltac note_runs :=
  repeat match goal with
    | H : Parser.accept _ _ _ = Ret _ |- _ =>
        pose proof (accept_in_range _ _ _ _ H);
        apply accept_measure in H; cbv iota in H
    | H : Parser.previous_token _ _ = Ret _ |- _ => apply previous_token_state in H
    | H : Parser.error_here _ _ _ = Ret _ |- _ =>
        pose proof (error_here_in_range _ _ _ _ H);
        apply error_here_measure in H
    | H : ?m ?s = Ret (Some ?a, ?s1) |- _ =>
        try (let X := fresh "X" in
             assert (X : consuming m) by (auto with parser_facts);
             specialize (X _ _ _ H));
        try (let X := fresh "X" in
             assert (X : forward input m) by (auto with parser_facts);
             apply (fun F => forward_measure m s s1 _ F H) in X);
        clear H
    | H : ?m ?s = Ret (None, ?s1) |- _ =>
        try (let X := fresh "X" in
             assert (X : loud m) by (auto with parser_facts);
             specialize (X _ _ H));
        try (let X := fresh "X" in
             assert (X : grounded input m) by (auto with parser_facts);
             specialize (X _ _ H));
        try (let X := fresh "X" in
             assert (X : clean m) by (auto with parser_facts);
             specialize (X _ _ H));
        try (let X := fresh "X" in
             assert (X : forward input m) by (auto with parser_facts);
             apply (fun F => forward_measure m s s1 _ F H) in X);
        clear H
    | H : ?m ?s = Ret (?a, ?s1) |- _ =>
        try (let X := fresh "X" in
             assert (X : forward input m) by (auto with parser_facts);
             apply (fun F => forward_measure m s s1 _ F H) in X);
        clear H
    end.

Ltac settle :=
  repeat match goal with
    | H : _ /\ _ |- _ => destruct H
    | H : match ?x with _ => _ end |- _ => destruct x
    | H : ?a = ?b :> Parser.State |- _ => first [ subst a | subst b ]
    | H : _ = _ :> Parser.State \/ _ |- _ => destruct H
    end;
  first [ lia | left; reflexivity | right; lia ].

Ltac run_facts := split_run; note_runs; settle.

Create HintDb parser_facts.

#[local] Hint Resolve forward_accept forward_number forward_identifier forward_atom
  forward_paren forward_func_call_arguments forward_func_call_loop forward_func_call
  forward_unary_plusminus forward_muldiv_loop forward_muldiv forward_addsub_loop
  forward_addsub forward_assign_loop forward_assign forward_expr
  forward_simple_type_after_sign forward_simple_type forward_reference_type
  forward_array_type_loop forward_type forward_expr_stmt forward_return_stmt
  forward_func_decl_parameters forward_func_decl forward_var_decl
  forward_scope_statements forward_scope_body forward_scope forward_block_loop
  : parser_facts.

Lemma consuming_number : consuming (Parser.number input).
Proof. intros s a s' H. unfold Parser.number in H. run_facts. Qed.

Lemma clean_number : clean (Parser.number input).
Proof. intros s s' H. unfold Parser.number in H. run_facts. Qed.

Lemma consuming_identifier : consuming (Parser.identifier input).
Proof. intros s a s' H. unfold Parser.identifier in H. run_facts. Qed.

Lemma clean_identifier : clean (Parser.identifier input).
Proof. intros s s' H. unfold Parser.identifier in H. run_facts. Qed.

#[local] Hint Resolve consuming_number clean_number consuming_identifier clean_identifier
  : parser_facts.

Lemma consuming_atom : consuming (Parser.atom input).
Proof. intros s a s' H. unfold Parser.atom in H. run_facts. Qed.

Lemma clean_atom : clean (Parser.atom input).
Proof. intros s s' H. unfold Parser.atom in H. run_facts. Qed.

#[local] Hint Resolve consuming_atom clean_atom : parser_facts.

Section ProgressExpressions.

Variable expr : Parser.production ExpressionPtr.
Hypothesis expr_forward : forward input expr.
Hypothesis expr_consuming : consuming expr.
Hypothesis expr_clean : clean expr.

Lemma consuming_paren : consuming (Parser.paren input expr).
Proof. intros s a s' H. unfold Parser.paren in H. run_facts. Qed.

Lemma clean_paren : clean (Parser.paren input expr).
Proof. intros s s' H. unfold Parser.paren in H. run_facts. Qed.

Lemma consuming_func_call_arguments (fuel : nat) (arg : list ExpressionPtr) :
  consuming (Parser.func_call_arguments input expr fuel arg).
Proof.
  revert arg. induction fuel as [ | fuel IH ]; intros arg s a s' H;
    cbn [Parser.func_call_arguments] in H; run_facts.
Qed.

Lemma loud_func_call_arguments (fuel : nat) (arg : list ExpressionPtr) :
  loud (Parser.func_call_arguments input expr fuel arg).
Proof.
  revert arg. induction fuel as [ | fuel IH ]; intros arg s s' H;
    cbn [Parser.func_call_arguments] in H; run_facts.
Qed.

#[local] Hint Resolve consuming_paren clean_paren consuming_func_call_arguments
  loud_func_call_arguments : parser_facts.

Lemma loud_func_call_loop (fuel : nat) (start : Token) (func_expr : ExpressionPtr) :
  loud (Parser.func_call_loop input expr fuel start func_expr).
Proof.
  revert func_expr. induction fuel as [ | fuel IH ]; intros func_expr s s' H;
    cbn [Parser.func_call_loop] in H; run_facts.
Qed.

#[local] Hint Resolve loud_func_call_loop : parser_facts.

Lemma consuming_func_call (fuel : nat) : consuming (Parser.func_call input expr fuel).
Proof. intros s a s' H. unfold Parser.func_call in H. run_facts. Qed.

Lemma clean_func_call (fuel : nat) : clean (Parser.func_call input expr fuel).
Proof. intros s s' H. unfold Parser.func_call in H. run_facts. Qed.

#[local] Hint Resolve consuming_func_call clean_func_call : parser_facts.

Lemma consuming_unary_plusminus (fuel : nat) :
  consuming (Parser.unary_plusminus input expr fuel).
Proof. intros s a s' H. unfold Parser.unary_plusminus in H. run_facts. Qed.

Lemma clean_unary_plusminus (fuel : nat) :
  clean (Parser.unary_plusminus input expr fuel).
Proof. intros s s' H. unfold Parser.unary_plusminus in H. run_facts. Qed.

#[local] Hint Resolve consuming_unary_plusminus clean_unary_plusminus : parser_facts.

Lemma loud_muldiv_loop (fuel rhs_fuel : nat) (start : Token) (lhs : ExpressionPtr) :
  loud (Parser.muldiv_loop input expr fuel rhs_fuel start lhs).
Proof.
  revert lhs. induction fuel as [ | fuel IH ]; intros lhs s s' H;
    cbn [Parser.muldiv_loop] in H; run_facts.
Qed.

#[local] Hint Resolve loud_muldiv_loop : parser_facts.

Lemma consuming_muldiv (fuel : nat) : consuming (Parser.muldiv input expr fuel).
Proof. intros s a s' H. unfold Parser.muldiv in H. run_facts. Qed.

Lemma clean_muldiv (fuel : nat) : clean (Parser.muldiv input expr fuel).
Proof. intros s s' H. unfold Parser.muldiv in H. run_facts. Qed.

#[local] Hint Resolve consuming_muldiv clean_muldiv : parser_facts.

Lemma loud_addsub_loop (fuel rhs_fuel : nat) (start : Token) (lhs : ExpressionPtr) :
  loud (Parser.addsub_loop input expr fuel rhs_fuel start lhs).
Proof.
  revert lhs. induction fuel as [ | fuel IH ]; intros lhs s s' H;
    cbn [Parser.addsub_loop] in H; run_facts.
Qed.

#[local] Hint Resolve loud_addsub_loop : parser_facts.

Lemma consuming_addsub (fuel : nat) : consuming (Parser.addsub input expr fuel).
Proof. intros s a s' H. unfold Parser.addsub in H. run_facts. Qed.

Lemma clean_addsub (fuel : nat) : clean (Parser.addsub input expr fuel).
Proof. intros s s' H. unfold Parser.addsub in H. run_facts. Qed.

#[local] Hint Resolve consuming_addsub clean_addsub : parser_facts.

Lemma loud_assign_loop (fuel rhs_fuel : nat) (operands : list ExpressionPtr) :
  loud (Parser.assign_loop input expr fuel rhs_fuel operands).
Proof.
  revert operands. induction fuel as [ | fuel IH ]; intros operands s s' H;
    cbn [Parser.assign_loop] in H; run_facts.
Qed.

#[local] Hint Resolve loud_assign_loop : parser_facts.

Lemma consuming_assign (fuel : nat) : consuming (Parser.assign input expr fuel).
Proof. intros s a s' H. unfold Parser.assign in H. run_facts. Qed.

Lemma clean_assign (fuel : nat) : clean (Parser.assign input expr fuel).
Proof. intros s s' H. unfold Parser.assign in H. run_facts. Qed.

End ProgressExpressions.

Lemma consuming_and_clean_expr (fuel : nat) :
  consuming (Parser.expr input fuel) /\ clean (Parser.expr input fuel).
Proof.
  induction fuel as [ | fuel [IHc IHf] ]; cbn [Parser.expr].
  - split; intros s; intros; discriminate.
  - split.
    + apply consuming_assign; first [ apply forward_expr | assumption ].
    + apply clean_assign; first [ apply forward_expr | assumption ].
Qed.

#[local] Hint Resolve forward_expr : parser_facts.

Lemma consuming_expr (fuel : nat) : consuming (Parser.expr input fuel).
Proof. apply consuming_and_clean_expr. Qed.

Lemma clean_expr (fuel : nat) : clean (Parser.expr input fuel).
Proof. apply consuming_and_clean_expr. Qed.

#[local] Hint Resolve consuming_expr clean_expr : parser_facts.

Lemma consuming_simple_type : consuming (Parser.simple_type input).
Proof.
  intros s a s' H. unfold Parser.simple_type in H. run_facts.
Qed.

#[local] Hint Resolve consuming_simple_type : parser_facts.

Lemma consuming_reference_type : consuming (Parser.reference_type input).
Proof. intros s a s' H. unfold Parser.reference_type in H. run_facts. Qed.

#[local] Hint Resolve consuming_reference_type : parser_facts.

Lemma consuming_array_type_loop (fuel expr_fuel : nat) (start : Token) (lhs : TypePtr) :
  consuming (Parser.array_type_loop input fuel expr_fuel start lhs).
Proof.
  revert lhs. induction fuel as [ | fuel IH ]; intros lhs s a s' H;
    cbn [Parser.array_type_loop] in H; run_facts.
Qed.

#[local] Hint Resolve consuming_array_type_loop : parser_facts.

Lemma consuming_type (fuel : nat) : consuming (Parser.type input fuel).
Proof. intros s a s' H. unfold Parser.type, Parser.array_type in H. run_facts. Qed.

Lemma consuming_expr_stmt (fuel : nat) : consuming (Parser.expr_stmt input fuel).
Proof. intros s a s' H. unfold Parser.expr_stmt in H. run_facts. Qed.

Lemma clean_expr_stmt (fuel : nat) : clean (Parser.expr_stmt input fuel).
Proof. intros s s' H. unfold Parser.expr_stmt in H. run_facts. Qed.

#[local] Hint Resolve consuming_type consuming_expr_stmt clean_expr_stmt : parser_facts.

Lemma consuming_return_stmt (fuel : nat) : consuming (Parser.return_stmt input fuel).
Proof. intros s a s' H. unfold Parser.return_stmt in H. run_facts. Qed.

Lemma clean_return_stmt (fuel : nat) : clean (Parser.return_stmt input fuel).
Proof. intros s s' H. unfold Parser.return_stmt in H. run_facts. Qed.

#[local] Hint Resolve consuming_return_stmt clean_return_stmt : parser_facts.

Section ProgressDeclarations.

Variable default_token : Token.
Variable scope : Parser.production StatementPtr.
Hypothesis scope_forward : forward input scope.
Hypothesis scope_consuming : consuming scope.

Lemma consuming_func_decl_parameters (fuel type_fuel : nat) (start : Token)
  (param_list : list VariableDeclaration) :
  consuming (Parser.func_decl_parameters input fuel type_fuel start param_list).
Proof.
  revert param_list. induction fuel as [ | fuel IH ]; intros param_list s a s' H;
    cbn [Parser.func_decl_parameters] in H; run_facts.
Qed.

#[local] Hint Resolve consuming_func_decl_parameters : parser_facts.

Lemma consuming_func_decl (fuel : nat) (start : Token) (return_type : TypePtr)
  (name : string) :
  consuming (Parser.func_decl input scope fuel start return_type name).
Proof. intros s a s' H. unfold Parser.func_decl in H. run_facts. Qed.

#[local] Hint Resolve consuming_func_decl : parser_facts.

Lemma consuming_var_decl (fuel : nat) : consuming (Parser.var_decl input scope fuel).
Proof. intros s a s' H. unfold Parser.var_decl in H. run_facts. Qed.

#[local] Hint Resolve consuming_var_decl : parser_facts.

Lemma consuming_scope_body (fuel : nat) :
  consuming (Parser.scope_body input default_token scope fuel).
Proof. intros s a s' H. unfold Parser.scope_body in H. run_facts. Qed.

End ProgressDeclarations.

Lemma consuming_scope (default_token : Token) (fuel : nat) :
  consuming (Parser.scope input default_token fuel).
Proof.
  induction fuel as [ | fuel IH ]; cbn [Parser.scope].
  - intros s; intros; discriminate.
  - apply consuming_scope_body; first [ apply forward_scope | assumption ].
Qed.

(** Each turn of the loop of [block] adds one statement and consumes at
    least one token. *)
Lemma block_loop_statements (default_token : Token) (fuel scope_fuel : nat)
  (block_start : Token) (statements : list StatementPtr)
  (s s' : Parser.State) (last_start : Token) (out : list StatementPtr) :
  Parser.block_loop input default_token fuel scope_fuel block_start statements s
  = Ret ((last_start, out), s') ->
  List.length out + Parser.token_iter_ s
  <= List.length statements + Parser.token_iter_ s'.
Proof.
  revert block_start statements s.
  induction fuel as [ | fuel IH ]; intros block_start statements s H;
    cbn [Parser.block_loop] in H; [ discriminate | ].
  apply bind_inv in H. destruct H as (r & s1 & R & H).
  destruct r as [[statement start] | ].
  - apply IH in H. apply consuming_scope in R.
    rewrite length_app in H. cbn in H. lia.
  - inversion H; subst.
    destruct (forward_scope input default_token scope_fuel s None s' R) as (P & _).
    lia.
Qed.

(* ----------------------------------------------------------------- *)
(** *** Failures leave the cursor on a token *)

Lemma grounded_number : grounded input (Parser.number input).
Proof. intros s s' H. unfold Parser.number in H. run_facts. Qed.

Lemma grounded_identifier : grounded input (Parser.identifier input).
Proof. intros s s' H. unfold Parser.identifier in H. run_facts. Qed.

#[local] Hint Resolve grounded_number grounded_identifier : parser_facts.

Lemma grounded_atom : grounded input (Parser.atom input).
Proof. intros s s' H. unfold Parser.atom in H. run_facts. Qed.

#[local] Hint Resolve grounded_atom : parser_facts.

Section GroundedExpressions.

Variable expr : Parser.production ExpressionPtr.
Hypothesis expr_forward : forward input expr.
Hypothesis expr_grounded : grounded input expr.

Lemma grounded_paren : grounded input (Parser.paren input expr).
Proof. intros s s' H. unfold Parser.paren in H. run_facts. Qed.

Lemma grounded_func_call_arguments (fuel : nat) (arg : list ExpressionPtr) :
  grounded input (Parser.func_call_arguments input expr fuel arg).
Proof.
  revert arg. induction fuel as [ | fuel IH ]; intros arg s s' H;
    cbn [Parser.func_call_arguments] in H; run_facts.
Qed.

#[local] Hint Resolve grounded_paren grounded_func_call_arguments : parser_facts.

Lemma grounded_func_call_loop (fuel : nat) (start : Token) (func_expr : ExpressionPtr) :
  grounded input (Parser.func_call_loop input expr fuel start func_expr).
Proof.
  revert func_expr. induction fuel as [ | fuel IH ]; intros func_expr s s' H;
    cbn [Parser.func_call_loop] in H; run_facts.
Qed.

#[local] Hint Resolve grounded_func_call_loop : parser_facts.

Lemma grounded_func_call (fuel : nat) : grounded input (Parser.func_call input expr fuel).
Proof. intros s s' H. unfold Parser.func_call in H. run_facts. Qed.

#[local] Hint Resolve grounded_func_call : parser_facts.

Lemma grounded_unary_plusminus (fuel : nat) :
  grounded input (Parser.unary_plusminus input expr fuel).
Proof. intros s s' H. unfold Parser.unary_plusminus in H. run_facts. Qed.

#[local] Hint Resolve grounded_unary_plusminus : parser_facts.

Lemma grounded_muldiv_loop (fuel rhs_fuel : nat) (start : Token) (lhs : ExpressionPtr) :
  grounded input (Parser.muldiv_loop input expr fuel rhs_fuel start lhs).
Proof.
  revert lhs. induction fuel as [ | fuel IH ]; intros lhs s s' H;
    cbn [Parser.muldiv_loop] in H; run_facts.
Qed.

#[local] Hint Resolve grounded_muldiv_loop : parser_facts.

Lemma grounded_muldiv (fuel : nat) : grounded input (Parser.muldiv input expr fuel).
Proof. intros s s' H. unfold Parser.muldiv in H. run_facts. Qed.

#[local] Hint Resolve grounded_muldiv : parser_facts.

Lemma grounded_addsub_loop (fuel rhs_fuel : nat) (start : Token) (lhs : ExpressionPtr) :
  grounded input (Parser.addsub_loop input expr fuel rhs_fuel start lhs).
Proof.
  revert lhs. induction fuel as [ | fuel IH ]; intros lhs s s' H;
    cbn [Parser.addsub_loop] in H; run_facts.
Qed.

#[local] Hint Resolve grounded_addsub_loop : parser_facts.

Lemma grounded_addsub (fuel : nat) : grounded input (Parser.addsub input expr fuel).
Proof. intros s s' H. unfold Parser.addsub in H. run_facts. Qed.

#[local] Hint Resolve grounded_addsub : parser_facts.

Lemma grounded_assign_loop (fuel rhs_fuel : nat) (operands : list ExpressionPtr) :
  grounded input (Parser.assign_loop input expr fuel rhs_fuel operands).
Proof.
  revert operands. induction fuel as [ | fuel IH ]; intros operands s s' H;
    cbn [Parser.assign_loop] in H; run_facts.
Qed.

#[local] Hint Resolve grounded_assign_loop : parser_facts.

Lemma grounded_assign (fuel : nat) : grounded input (Parser.assign input expr fuel).
Proof. intros s s' H. unfold Parser.assign in H. run_facts. Qed.

End GroundedExpressions.

Lemma grounded_expr (fuel : nat) : grounded input (Parser.expr input fuel).
Proof.
  induction fuel as [ | fuel IH ]; cbn [Parser.expr].
  - intros s; intros; discriminate.
  - apply grounded_assign; first [ apply forward_expr | assumption ].
Qed.

#[local] Hint Resolve grounded_expr : parser_facts.

Lemma grounded_expr_stmt (fuel : nat) : grounded input (Parser.expr_stmt input fuel).
Proof. intros s s' H. unfold Parser.expr_stmt in H. run_facts. Qed.

#[local] Hint Resolve grounded_expr_stmt : parser_facts.

Lemma grounded_return_stmt (fuel : nat) : grounded input (Parser.return_stmt input fuel).
Proof. intros s s' H. unfold Parser.return_stmt in H. run_facts. Qed.

#[local] Hint Resolve grounded_return_stmt : parser_facts.

Section GroundedDeclarations.

Variable default_token : Token.
Variable scope : Parser.production StatementPtr.
Hypothesis scope_forward : forward input scope.
Hypothesis scope_grounded : grounded input scope.

Lemma grounded_func_decl_parameters (fuel type_fuel : nat) (start : Token)
  (param_list : list VariableDeclaration) :
  grounded input (Parser.func_decl_parameters input fuel type_fuel start param_list).
Proof.
  revert param_list. induction fuel as [ | fuel IH ]; intros param_list s s' H;
    cbn [Parser.func_decl_parameters] in H; run_facts.
Qed.

#[local] Hint Resolve grounded_func_decl_parameters : parser_facts.

Lemma grounded_func_decl (fuel : nat) (start : Token) (return_type : TypePtr)
  (name : string) :
  grounded input (Parser.func_decl input scope fuel start return_type name).
Proof. intros s s' H. unfold Parser.func_decl in H. run_facts. Qed.

#[local] Hint Resolve grounded_func_decl : parser_facts.

Lemma grounded_var_decl (fuel : nat) : grounded input (Parser.var_decl input scope fuel).
Proof. intros s s' H. unfold Parser.var_decl in H. run_facts. Qed.

#[local] Hint Resolve grounded_var_decl : parser_facts.

Lemma grounded_scope_body (fuel : nat) :
  grounded input (Parser.scope_body input default_token scope fuel).
Proof. intros s s' H. unfold Parser.scope_body in H. run_facts. Qed.

End GroundedDeclarations.

Lemma grounded_scope (default_token : Token) (fuel : nat) :
  grounded input (Parser.scope input default_token fuel).
Proof.
  induction fuel as [ | fuel IH ]; cbn [Parser.scope].
  - intros s; intros; discriminate.
  - apply grounded_scope_body; first [ apply forward_scope | assumption ].
Qed.

(** The loop of [block] ends where a [scope] failed. *)
Lemma block_loop_grounded (default_token : Token) (fuel scope_fuel : nat)
  (block_start : Token) (statements : list StatementPtr)
  (s s' : Parser.State) (r : Token * list StatementPtr) :
  Parser.block_loop input default_token fuel scope_fuel block_start statements s
  = Ret (r, s') ->
  Parser.token_iter_ s' < List.length input.
Proof.
  revert block_start statements s.
  induction fuel as [ | fuel IH ]; intros block_start statements s H;
    cbn [Parser.block_loop] in H; [ discriminate | ].
  apply bind_inv in H. destruct H as (x & s1 & R & H).
  destruct x as [[statement start] | ].
  - exact (IH _ _ _ H).
  - inversion H; subst. exact (grounded_scope default_token scope_fuel s s' R).
Qed.

End Progress.

(** X6: every success of [expr] consumed at least one token. *)
Theorem expr_success_consumes
  (input : TokenSeq) (fuel : nat) (s s' : Parser.State)
  (out : ExpressionPtr) (start : Token) :
  Parser.expr input fuel s = Ret (Some (out, start), s') ->
  Parser.token_iter_ s < Parser.token_iter_ s'.
Proof. intros H. exact (consuming_expr input fuel s (out, start) s' H). Qed.

Lemma expr_success_consumes_witness : 0 < 5.
Proof.
  exact (expr_success_consumes
           [Token.mk TokenType.dec_integer "1" 1 1; Token.mk TokenType.plus "+" 1 3;
            Token.mk TokenType.dec_integer "2" 1 5; Token.mk TokenType.multiply "*" 1 7;
            Token.mk TokenType.dec_integer "3" 1 9; Token.mk TokenType.semicolon ";" 1 10]
           4 Parser.initial {| Parser.token_iter_ := 5; Parser.errors_ := [] |}
           _ _ ltac:(vm_compute; reflexivity)).
Defined.

(** X7: when [expr] returns false, either the state is exactly the one it
    started from (no token consumed) or at least one error was appended:
    the expression grammar never fails silently after consuming a token.
    This is what lets [paren] and [return_stmt] ignore its result. *)
Theorem expr_failure_is_clean_or_reported
  (input : TokenSeq) (fuel : nat) (s s' : Parser.State) :
  Parser.expr input fuel s = Ret (None, s') ->
  s' = s
  \/ exists e more, Parser.errors_ s' = Parser.errors_ s ++ e :: more.
Proof.
  intros H.
  destruct (clean_expr input fuel s s' H) as [E | L]; [ left; exact E | right ].
  destruct (forward_expr input fuel s None s' H) as (_ & _ & raised & E).
  rewrite E, length_app in L.
  destruct raised as [ | e more ]; [ cbn in L; lia | ].
  exists e, more. exact E.
Qed.

Lemma expr_failure_is_clean_or_reported_witness :
  {| Parser.token_iter_ := 2;
     Parser.errors_ :=
       [mkError (Token.mk TokenType.semicolon ";" 1 5)
          ("Expected expression, but got " ++ dquote ++ ";" ++ dquote)%string] |}
  = Parser.initial
  \/ exists e more,
       [mkError (Token.mk TokenType.semicolon ";" 1 5)
          ("Expected expression, but got " ++ dquote ++ ";" ++ dquote)%string]
       = [] ++ e :: more.
Proof.
  apply (expr_failure_is_clean_or_reported
           [Token.mk TokenType.dec_integer "1" 1 1; Token.mk TokenType.plus "+" 1 3;
            Token.mk TokenType.semicolon ";" 1 5]
           3 Parser.initial).
  vm_compute. reflexivity.
Defined.

(** X8: a [Block] returned by [parse] holds at most as many statements as
    tokens were consumed, each top-level [scope] having consumed at least
    one. *)
Theorem block_statements_bounded
  (input : TokenSeq) (default_token : Token) (fuel : nat) (s s' : Parser.State)
  (block_start : Token) (statements : list StatementPtr) :
  Parser.parse input default_token fuel s
  = Ret (Some (Some (Block block_start statements)), s') ->
  List.length statements + Parser.token_iter_ s <= Parser.token_iter_ s'.
Proof.
  unfold Parser.parse, Parser.block, Parser.get_errors, bind, ret.
  destruct (Parser.block_loop input default_token fuel fuel default_token [] s)
    as [[[bs stmts] s1] | f] eqn:L; [ | discriminate ].
  destruct (Parser.errors_ s1); intros H; inversion H; subst.
  exact (block_loop_statements input default_token fuel fuel default_token []
           s s' block_start statements L).
Qed.

Lemma block_statements_bounded_witness : 1 + 0 <= 3.
Proof.
  exact (block_statements_bounded
           [Token.mk TokenType._int "int" 1 1; Token.mk TokenType.identifier "x" 1 5;
            Token.mk TokenType.semicolon ";" 1 6; Token.mk TokenType.rparen ")" 1 8]
           sample_default_token 3 Parser.initial
           {| Parser.token_iter_ := 3; Parser.errors_ := [] |}
           _ _ ltac:(vm_compute; reflexivity)).
Defined.

(* ================================================================= *)
(** ** Further properties: the argument loop of [func_call] *)

Section ArgumentLoop.

Variable input : TokenSeq.



Lemma accept_match_type (s : Parser.State) (tok : Token) (ty : TokenType) :
  nth_error input (Parser.token_iter_ s) = Some tok ->
  Token.type tok = ty ->
  Parser.accept input ty s = Ret (Some tok, after_token s).
Proof. intros H E. subst ty. apply accept_match. exact H. Qed.



End ArgumentLoop.


(* ================================================================= *)
(** ** Further properties: the size keywords of [simple_type] *)

(** X10: [simple_type] consumes a leading [char], [short] or [long] and
    then returns false without raising an error, so [var_decl] goes on to
    [return_stmt] one token later: [char x ;] (likewise [short], [long]) is
    accepted by [parse] as the expression statement [x ;], the keyword
    being dropped. *)
Theorem size_keyword_is_dropped
  (input : TokenSeq) (s : Parser.State)
  (kw name semi nxt : Token) (rest : TokenSeq) (default_token : Token) (fuel : nat) :
  nth_error input (Parser.token_iter_ s) = Some kw ->
  size_keyword (Token.type kw) = true ->
  Token.type name = TokenType.identifier ->
  Token.type semi = TokenType.semicolon ->
  starts_scope (Token.type nxt) = false ->
  Parser.simple_type input s = Ret (None, after_token s)
  /\ Parser.parse (kw :: name :: semi :: nxt :: rest) default_token (4 + fuel)
                  Parser.initial
     = Ret (Some (Some (Block name
                          [Some (ExpressionStatement name
                                   (Some (Identifier name (Token.data name))))])),
            {| Parser.token_iter_ := 3; Parser.errors_ := [] |}).
Proof.
  intros H K Tn Ts Tx. split.
  - assert (R : forall ty, TokenType.eqb (Token.type kw) ty = false ->
                           Parser.accept input ty s = Ret (None, s))
      by (intros ty E; exact (accept_mismatch input s kw ty H E)).
    assert (M : Parser.accept input (Token.type kw) s = Ret (Some kw, after_token s))
      by (exact (accept_match input s kw H)).
    unfold Parser.simple_type, bind.
    destruct (Token.type kw); try discriminate K;
      repeat (rewrite !R by reflexivity; cbv beta iota delta [ret]);
      rewrite M; reflexivity.
  - clear H. expose_token name. expose_token semi.
    destruct kw as [kty kd kl kc]; cbn [Token.type] in K.
    destruct kty; try discriminate K;
      by_cases_on_type nxt; vm_compute; reflexivity.
Qed.

Lemma size_keyword_is_dropped_witness :
  let kw := Token.mk TokenType._char "char" 1 1 in
  let name := Token.mk TokenType.identifier "x" 1 6 in
  let semi := Token.mk TokenType.semicolon ";" 1 7 in
  let nxt := Token.mk TokenType.rbrace "}" 2 1 in
  Parser.simple_type [kw; name; semi; nxt] Parser.initial
  = Ret (None, {| Parser.token_iter_ := 1; Parser.errors_ := [] |})
  /\ Parser.parse [kw; name; semi; nxt] sample_default_token 4 Parser.initial
     = Ret (Some (Some (Block name
                          [Some (ExpressionStatement name (Some (Identifier name "x")))])),
            {| Parser.token_iter_ := 3; Parser.errors_ := [] |}).
Proof.
  cbv zeta.
  apply (size_keyword_is_dropped
           [Token.mk TokenType._char "char" 1 1; Token.mk TokenType.identifier "x" 1 6;
            Token.mk TokenType.semicolon ";" 1 7; Token.mk TokenType.rbrace "}" 2 1]
           Parser.initial
           (Token.mk TokenType._char "char" 1 1) (Token.mk TokenType.identifier "x" 1 6)
           (Token.mk TokenType.semicolon ";" 1 7) (Token.mk TokenType.rbrace "}" 2 1)
           [] sample_default_token 0); reflexivity.
Defined.

(* ================================================================= *)
(** ** Further properties: [Operation.cc] *)

(** X11: two token types with the same printable form are the same token
    type, unless that form is the empty string of the [default] branch:
    no two operators are rendered alike. *)
Theorem operator_string_injective (a b : TokenType) :
  operator_string a = operator_string b ->
  operator_string a <> "" ->
  a = b.
Proof.
  intros E N.
  destruct a; cbn in N; try (exfalso; apply N; reflexivity);
    destruct b; cbn in E; first [ reflexivity | discriminate E ].
Qed.

Lemma operator_string_injective_witness :
  TokenType.bit_lshift_assign = TokenType.bit_lshift_assign.
Proof.
  apply (operator_string_injective TokenType.bit_lshift_assign TokenType.bit_lshift_assign);
    [ reflexivity | discriminate ].
Defined.

(** Induction on expression trees, through the child pointers and the
    argument vectors. *)
Lemma Expression_induction (P : Expression -> Prop) :
  (forall token data, P (Integer32 token data)) ->
  (forall token id, P (Identifier token id)) ->
  (forall token op lhs rhs,
      on_pointer P lhs -> on_pointer P rhs -> P (BinaryOperation token op lhs rhs)) ->
  (forall token op rhs, on_pointer P rhs -> P (UnaryOperation token op rhs)) ->
  (forall token func_expr argument,
      on_pointer P func_expr -> Forall (on_pointer P) argument ->
      P (FunctionCallOperation token func_expr argument)) ->
  forall e, P e.
Proof.
  intros HI HN HB HU HF.
  fix IH 1. intros e.
  destruct e as [ token data | token id | token op lhs rhs | token op rhs
                | token func_expr argument ].
  - apply HI.
  - apply HN.
  - apply HB; [ destruct lhs | destruct rhs ]; cbn; first [ apply IH | exact I ].
  - apply HU. destruct rhs; cbn; first [ apply IH | exact I ].
  - apply HF.
    + destruct func_expr; cbn; first [ apply IH | exact I ].
    + revert argument. fix IHl 1. intros [ | a l ].
      * constructor.
      * constructor; [ destruct a; cbn; first [ apply IH | exact I ] | apply IHl ].
Qed.

Section CodeGenerationInvariants.

Variable Identifier_code_gen : Token -> string -> StateM LLVM.Builder LLVM.Value.

#[local] Abbreviation arguments_code_gen :=
  (FunctionCallOperation_arguments Identifier_code_gen).

Lemma FunctionCallOperation_code_gen_eq (token : Token) (func_expr : ExpressionPtr)
  (argument : list ExpressionPtr) :
  Expression_code_gen Identifier_code_gen (FunctionCallOperation token func_expr argument)
  = (function <- deref_in func_expr (fun f => Expression_code_gen Identifier_code_gen f) ;;
     if LLVM.is_null function then
       raise (Thrown (mkError token "Expected callable function expression"))
     else
       arg_real <- arguments_code_gen argument ;;
       LLVM.CreateCall function arg_real).
Proof. reflexivity. Qed.

Hypothesis Identifier_appends :
  forall token id builder value builder',
    Identifier_code_gen token id builder = Ret (value, builder') ->
    exists created, builder' = builder ++ created.

Lemma emit_appends (instruction value : LLVM.Value) (builder builder' : LLVM.Builder) :
  LLVM.emit instruction builder = Ret (value, builder') ->
  exists created, builder' = builder ++ created.
Proof. intros H. inversion H. exists [value]. reflexivity. Qed.

Lemma code_gen_appends (e : Expression) :
  forall builder value builder',
    Expression_code_gen Identifier_code_gen e builder = Ret (value, builder') ->
    exists created, builder' = builder ++ created.
Proof.
  induction e as [ token data | token id | token op lhs rhs IHl IHr | token op rhs IHr
                 | token func_expr argument IHf IHa ] using Expression_induction;
    intros builder value builder' H.
  - inversion H; subst. exists []. now rewrite app_nil_r.
  - exact (Identifier_appends _ _ _ _ _ H).
  - cbn [Expression_code_gen] in H. unfold bind in H.
    destruct lhs as [l | ]; [ | discriminate H ]. cbn [deref_in on_pointer] in *.
    destruct (Expression_code_gen Identifier_code_gen l builder) as [[lv b1] | f] eqn:El;
      [ | discriminate H ].
    destruct rhs as [r | ]; [ | discriminate H ]. cbn [deref_in on_pointer] in *.
    destruct (Expression_code_gen Identifier_code_gen r b1) as [[rv b2] | f] eqn:Er;
      [ | discriminate H ].
    destruct (IHl _ _ _ El) as [c1 E1]. destruct (IHr _ _ _ Er) as [c2 E2]. subst.
    assert (X : exists c3, builder' = (builder ++ c1) ++ c2 ++ c3).
    { cbv [LLVM.CreateAdd LLVM.CreateSub LLVM.CreateMul LLVM.CreateSDiv] in H.
      destruct op;
        first [ apply emit_appends in H; destruct H as [c3 E3]; exists c3;
                rewrite E3, <- app_assoc; reflexivity
              | inversion H; subst; exists []; now rewrite app_nil_r ]. }
    destruct X as [c3 E3]. exists (c1 ++ c2 ++ c3).
    rewrite E3, <- app_assoc. reflexivity.
  - cbn [Expression_code_gen] in H. unfold bind in H.
    destruct rhs as [r | ]; [ | discriminate H ]. cbn [deref_in on_pointer] in *.
    destruct (Expression_code_gen Identifier_code_gen r builder) as [[rv b1] | f] eqn:Er;
      [ | discriminate H ].
    destruct (IHr _ _ _ Er) as [c1 E1]. subst.
    assert (X : exists c2, builder' = (builder ++ c1) ++ c2).
    { cbv [LLVM.CreateMul] in H.
      destruct op;
        first [ apply emit_appends in H; exact H
              | inversion H; subst; exists []; now rewrite app_nil_r ]. }
    destruct X as [c2 E2]. exists (c1 ++ c2). rewrite E2, <- app_assoc. reflexivity.
  - rewrite FunctionCallOperation_code_gen_eq in H. unfold bind in H.
    destruct func_expr as [f | ]; [ | discriminate H ]. cbn [deref_in on_pointer] in *.
    destruct (Expression_code_gen Identifier_code_gen f builder) as [[fv b1] | ft] eqn:Ef;
      [ | discriminate H ].
    destruct (IHf _ _ _ Ef) as [c1 E1]. subst b1.
    destruct (LLVM.is_null fv); [ discriminate H | ].
    assert (A : forall b values b',
               arguments_code_gen argument b = Ret (values, b') ->
               exists created, b' = b ++ created).
    { clear H. induction IHa as [ | a l Ha Hl IH ]; intros b values b' H.
      - inversion H; subst. exists []. now rewrite app_nil_r.
      - cbn in H. unfold bind in H.
        destruct a as [x | ]; [ | discriminate H ]. cbn [deref_in on_pointer] in *.
        destruct (Expression_code_gen Identifier_code_gen x b) as [[v b1] | ft] eqn:Ex;
          [ | discriminate H ].
        destruct (Ha _ _ _ Ex) as [c1' E1']. subst b1.
        fold (FunctionCallOperation_arguments Identifier_code_gen) in H.
        destruct (arguments_code_gen l (b ++ c1')) as [[vs b2] | ft] eqn:El;
          [ | discriminate H ].
        destruct (IH _ _ _ El) as [c2' E2']. inversion H; subst.
        exists (c1' ++ c2'). now rewrite app_assoc. }
    destruct (arguments_code_gen argument (builder ++ c1)) as [[vs b2] | ft] eqn:Ea;
      [ | discriminate H ].
    destruct (A _ _ _ Ea) as [c2 E2]. subst b2.
    cbv [LLVM.CreateCall] in H. apply emit_appends in H. destruct H as [c3 E3].
    exists (c1 ++ c2 ++ c3). rewrite E3, <- !app_assoc. reflexivity.
Qed.

Hypothesis Identifier_never_null_dereference :
  forall token id builder, Identifier_code_gen token id builder <> Fault NullPointer.

Lemma code_gen_null_free (e : Expression) :
  null_free e = true ->
  forall builder,
    Expression_code_gen Identifier_code_gen e builder <> Fault NullPointer.
Proof.
  induction e as [ token data | token id | token op lhs rhs IHl IHr | token op rhs IHr
                 | token func_expr argument IHf IHa ] using Expression_induction;
    intros N builder.
  - discriminate.
  - apply Identifier_never_null_dereference.
  - cbn [null_free] in N. apply andb_true_iff in N. destruct N as [Nl Nr].
    destruct lhs as [l | ]; [ | discriminate Nl ].
    destruct rhs as [r | ]; [ | discriminate Nr ].
    cbn [on_pointer] in *. cbn [Expression_code_gen deref_in]. unfold bind.
    specialize (IHl Nl builder).
    destruct (Expression_code_gen Identifier_code_gen l builder) as [[lv b1] | f];
      [ | congruence ].
    specialize (IHr Nr b1).
    destruct (Expression_code_gen Identifier_code_gen r b1) as [[rv b2] | f];
      [ | congruence ].
    destruct op; discriminate.
  - cbn [null_free] in N. destruct rhs as [r | ]; [ | discriminate N ].
    cbn [on_pointer] in *. cbn [Expression_code_gen deref_in]. unfold bind.
    specialize (IHr N builder).
    destruct (Expression_code_gen Identifier_code_gen r builder) as [[rv b1] | f];
      [ | congruence ].
    destruct op; discriminate.
  - cbn [null_free] in N. apply andb_true_iff in N. destruct N as [Nf Na].
    destruct func_expr as [f | ]; [ | discriminate Nf ].
    cbn [on_pointer] in *. rewrite FunctionCallOperation_code_gen_eq.
    cbn [deref_in]. unfold bind.
    specialize (IHf Nf builder).
    destruct (Expression_code_gen Identifier_code_gen f builder) as [[fv b1] | ft];
      [ | congruence ].
    destruct (LLVM.is_null fv); [ discriminate | ].
    assert (A : forall b, arguments_code_gen argument b <> Fault NullPointer).
    { clear IHf. induction IHa as [ | a l Ha Hl IH ]; intros b.
      - discriminate.
      - cbn [forallb] in Na. apply andb_true_iff in Na. destruct Na as [Nx Nl].
        destruct a as [x | ]; [ | discriminate Nx ].
        cbn [on_pointer] in Ha. cbn. unfold bind.
        specialize (Ha Nx b).
        destruct (Expression_code_gen Identifier_code_gen x b) as [[v b'] | ft];
          [ | congruence ].
        fold (FunctionCallOperation_arguments Identifier_code_gen). specialize (IH Nl b').
        destruct (arguments_code_gen l b') as [[vs b2] | ft]; [ discriminate | congruence ]. }
    specialize (A b1).
    destruct (arguments_code_gen argument b1) as [[vs b2] | ft];
      [ discriminate | congruence ].
Qed.

End CodeGenerationInvariants.

(** X12: code generation of an expression only appends to the builder:
    the instructions present before the call are still there, in the same
    order, as a prefix of the instructions after it (provided the code
    generation of [Identifier], which these sources do not define, only
    appends too). *)
Theorem code_gen_only_appends
  (Identifier_code_gen : Token -> string -> StateM LLVM.Builder LLVM.Value)
  (e : Expression) (builder builder' : LLVM.Builder) (value : LLVM.Value) :
  (forall token id b v b',
      Identifier_code_gen token id b = Ret (v, b') -> exists created, b' = b ++ created) ->
  Expression_code_gen Identifier_code_gen e builder = Ret (value, builder') ->
  exists created, builder' = builder ++ created.
Proof.
  intros HI H. exact (code_gen_appends Identifier_code_gen HI e builder value builder' H).
Qed.

Lemma code_gen_only_appends_witness :
  exists created,
    [LLVM.Return (LLVM.Extern "x");
     LLVM.Mul (LLVM.ConstantInt 32 (-1)) (LLVM.ConstantInt 32 5)]
    = [LLVM.Return (LLVM.Extern "x")] ++ created.
Proof.
  apply (code_gen_only_appends sample_Identifier_code_gen
           (UnaryOperation (Token.mk TokenType.minus "-" 1 1) TokenType.minus
              (Some (Integer32 (Token.mk TokenType.dec_integer "5" 1 2) 5)))
           [LLVM.Return (LLVM.Extern "x")]
           [LLVM.Return (LLVM.Extern "x");
            LLVM.Mul (LLVM.ConstantInt 32 (-1)) (LLVM.ConstantInt 32 5)]
           (LLVM.Mul (LLVM.ConstantInt 32 (-1)) (LLVM.ConstantInt 32 5))).
  - intros token id b v b' H. inversion H. exists []. now rewrite app_nil_r.
  - reflexivity.
Defined.

(** X13: on a tree none of whose child pointers is null, code generation
    never dereferences a null pointer (provided the code generation of
    [Identifier] does not); the null dereferences of [code_gen] come only
    from the null children the parser can build. *)
Theorem code_gen_null_free_is_safe
  (Identifier_code_gen : Token -> string -> StateM LLVM.Builder LLVM.Value)
  (e : Expression) (builder : LLVM.Builder) :
  (forall token id b, Identifier_code_gen token id b <> Fault NullPointer) ->
  null_free e = true ->
  Expression_code_gen Identifier_code_gen e builder <> Fault NullPointer.
Proof.
  intros HI N. exact (code_gen_null_free Identifier_code_gen HI e N builder).
Qed.

Lemma code_gen_null_free_is_safe_witness :
  Expression_code_gen sample_Identifier_code_gen
    (BinaryOperation (Token.mk TokenType.identifier "a" 1 1) TokenType.plus
       (Some (Identifier (Token.mk TokenType.identifier "a" 1 1) "a"))
       (Some (Integer32 (Token.mk TokenType.dec_integer "2" 1 5) 2)))
    []
  <> Fault NullPointer.
Proof.
  apply (code_gen_null_free_is_safe sample_Identifier_code_gen).
  - intros token id b. discriminate.
  - reflexivity.
Defined.

(** X14: when the callee of a [FunctionCallOperation] generates the null
    value, [code_gen] throws [Error(token, "Expected callable function
    expression")] with the token of the call node, and does so before any
    argument is looked at: the outcome is the same whatever the argument
    vector holds, null pointers included. *)
Theorem FunctionCallOperation_null_callee_throws
  (Identifier_code_gen : Token -> string -> StateM LLVM.Builder LLVM.Value)
  (token : Token) (func_expr : Expression) (argument : list ExpressionPtr)
  (builder b1 : LLVM.Builder) :
  Expression_code_gen Identifier_code_gen func_expr builder = Ret (LLVM.null, b1) ->
  Expression_code_gen Identifier_code_gen
    (FunctionCallOperation token (Some func_expr) argument) builder
  = Fault (Thrown (mkError token "Expected callable function expression")).
Proof.
  intros H. rewrite FunctionCallOperation_code_gen_eq.
  cbn [deref_in]. unfold bind. rewrite H. reflexivity.
Qed.

Lemma FunctionCallOperation_null_callee_throws_witness :
  Expression_code_gen (fun _ _ => ret LLVM.null)
    (FunctionCallOperation (Token.mk TokenType.identifier "f" 1 1)
       (Some (Identifier (Token.mk TokenType.identifier "f" 1 1) "f")) [None])
    []
  = Fault (Thrown (mkError (Token.mk TokenType.identifier "f" 1 1)
                           "Expected callable function expression")).
Proof.
  apply (FunctionCallOperation_null_callee_throws (fun _ _ => ret LLVM.null)
           (Token.mk TokenType.identifier "f" 1 1)
           (Identifier (Token.mk TokenType.identifier "f" 1 1) "f") [None] [] []).
  reflexivity.
Defined.

(** X15: for each of the four supported operators, once the left and then
    the right operand have generated their code, [BinaryOperation::code_gen]
    creates exactly one instruction on the two values and returns it: an
    addition, a subtraction, a multiplication, and for [/] a signed
    division whatever the operands are. *)
Theorem BinaryOperation_code_gen_arithmetic
  (Identifier_code_gen : Token -> string -> StateM LLVM.Builder LLVM.Value)
  (token : Token) (lhs rhs : Expression)
  (builder b1 b2 : LLVM.Builder) (lhs_value rhs_value : LLVM.Value) :
  Expression_code_gen Identifier_code_gen lhs builder = Ret (lhs_value, b1) ->
  Expression_code_gen Identifier_code_gen rhs b1 = Ret (rhs_value, b2) ->
  let run op :=
    Expression_code_gen Identifier_code_gen
      (BinaryOperation token op (Some lhs) (Some rhs)) builder in
  let created (instruction : LLVM.Value) := Ret (instruction, b2 ++ [instruction]) in
  run TokenType.plus = created (LLVM.Add lhs_value rhs_value)
  /\ run TokenType.minus = created (LLVM.Sub lhs_value rhs_value)
  /\ run TokenType.multiply = created (LLVM.Mul lhs_value rhs_value)
  /\ run TokenType.divide = created (LLVM.SDiv lhs_value rhs_value).
Proof.
  intros Hl Hr run created. subst run created. cbv beta.
  rewrite !(BinaryOperation_code_gen_operands Identifier_code_gen token _ lhs rhs
              builder b1 b2 lhs_value rhs_value Hl Hr).
  repeat split.
Qed.

Lemma BinaryOperation_code_gen_arithmetic_witness :
  let t := Token.mk TokenType.dec_integer "6" 1 1 in
  let run op :=
    Expression_code_gen sample_Identifier_code_gen
      (BinaryOperation t op (Some (Integer32 t 6)) (Some (Integer32 t 3))) [] in
  let created (instruction : LLVM.Value) := Ret (instruction, [] ++ [instruction]) in
  run TokenType.plus = created (LLVM.Add (LLVM.getInt32 6) (LLVM.getInt32 3))
  /\ run TokenType.minus = created (LLVM.Sub (LLVM.getInt32 6) (LLVM.getInt32 3))
  /\ run TokenType.multiply = created (LLVM.Mul (LLVM.getInt32 6) (LLVM.getInt32 3))
  /\ run TokenType.divide = created (LLVM.SDiv (LLVM.getInt32 6) (LLVM.getInt32 3)).
Proof.
  exact (BinaryOperation_code_gen_arithmetic sample_Identifier_code_gen
           (Token.mk TokenType.dec_integer "6" 1 1)
           (Integer32 (Token.mk TokenType.dec_integer "6" 1 1) 6)
           (Integer32 (Token.mk TokenType.dec_integer "6" 1 1) 3)
           [] [] [] (LLVM.getInt32 6) (LLVM.getInt32 3) eq_refl eq_refl).
Defined.

(* ----------------------------------------------------------------- *)
(** *** Rendering *)

Section Rendering.

Variable tree_prefix : nat -> string.
Variable token_map : TokenType -> option string.
Variable Identifier_tree_gen : Token -> string -> nat -> outcome string.

Hypothesis token_map_total : forall op, exists name, token_map op = Some name.
Hypothesis Identifier_tree_gen_total :
  forall token id depth, exists text, Identifier_tree_gen token id depth = Ret text.

Lemma operator_line_total (depth : nat) (op : TokenType) :
  exists line, operator_line tree_prefix token_map depth op = Ret line.
Proof.
  unfold operator_line, token_map_at, and_then.
  destruct (token_map_total op) as [name E]. rewrite E. eexists. reflexivity.
Qed.

Lemma tree_gen_null_free (e : Expression) :
  null_free e = true ->
  forall depth,
  exists text,
    Expression_tree_gen tree_prefix token_map Identifier_tree_gen e depth = Ret text.
Proof.
  induction e as [ token data | token id | token op lhs rhs IHl IHr | token op rhs IHr
                 | token func_expr argument IHf IHa ] using Expression_induction;
    intros N depth.
  - eexists. reflexivity.
  - apply Identifier_tree_gen_total.
  - cbn [null_free] in N. apply andb_true_iff in N. destruct N as [Nl Nr].
    destruct lhs as [l | ]; [ | discriminate Nl ].
    destruct rhs as [r | ]; [ | discriminate Nr ].
    cbn [on_pointer] in *. cbn [Expression_tree_gen deref]. cbv zeta.
    destruct (IHl Nl (S depth + 1)) as [tl El]. rewrite El. cbn [and_then].
    destruct (IHr Nr (S depth + 1)) as [tr Er]. rewrite Er. cbn [and_then].
    destruct (operator_line_total (S depth) op) as [line E]. rewrite E.
    eexists. reflexivity.
  - cbn [null_free] in N. destruct rhs as [r | ]; [ | discriminate N ].
    cbn [on_pointer] in *. cbn [Expression_tree_gen deref]. cbv zeta.
    destruct (IHr N (S depth + 1)) as [tr Er]. rewrite Er. cbn [and_then].
    destruct (operator_line_total (S depth) op) as [line E]. rewrite E.
    eexists. reflexivity.
  - cbn [null_free] in N. apply andb_true_iff in N. destruct N as [Nf Na].
    destruct func_expr as [f | ]; [ | discriminate Nf ].
    cbn [on_pointer] in *. cbn [Expression_tree_gen deref]. cbv zeta.
    destruct (IHf Nf (S depth + 1)) as [tf Ef]. rewrite Ef. cbn [and_then].
    generalize ((((tree_prefix depth ++ "FunctionCallOperation:" ++ newline) ++
                  tree_prefix (S depth) ++ "func_expr:" ++ newline) ++ tf ++ newline) ++
                tree_prefix (S depth) ++ "argument:" ++ newline)%string.
    clear IHf Ef. induction IHa as [ | a l Ha Hl IH ]; intros result.
    + eexists. reflexivity.
    + cbn [forallb] in Na. apply andb_true_iff in Na. destruct Na as [Nx Nl].
      destruct a as [x | ]; [ | discriminate Nx ].
      cbn [on_pointer] in Ha. cbn [deref].
      destruct (Ha Nx (S (S depth))) as [tx Ex]. rewrite Ex. cbn [and_then].
      apply IH. exact Nl.
Qed.

End Rendering.

(** X16: [tree_gen] returns a text for every tree none of whose child
    pointers is null, at every depth, as soon as [token_map] has an entry
    for every token type and [Identifier::tree_gen] returns: on such trees
    rendering neither dereferences null nor throws. *)
Theorem tree_gen_total_on_null_free
  (tree_prefix : nat -> string) (token_map : TokenType -> option string)
  (Identifier_tree_gen : Token -> string -> nat -> outcome string)
  (e : Expression) (depth : nat) :
  (forall op, exists name, token_map op = Some name) ->
  (forall token id depth, exists text, Identifier_tree_gen token id depth = Ret text) ->
  null_free e = true ->
  exists text,
    Expression_tree_gen tree_prefix token_map Identifier_tree_gen e depth = Ret text.
Proof.
  intros HT HI N.
  exact (tree_gen_null_free tree_prefix token_map Identifier_tree_gen HT HI e N depth).
Qed.

Lemma tree_gen_total_on_null_free_witness :
  exists text,
    Expression_tree_gen (fun depth => "") (fun op => Some (operator_string op))
      (fun _ id _ => Ret id)
      (UnaryOperation (Token.mk TokenType.minus "-" 1 1) TokenType.minus
         (Some (Integer32 (Token.mk TokenType.dec_integer "5" 1 2) 5)))
      0
    = Ret text.
Proof.
  apply (tree_gen_total_on_null_free (fun depth => "")
           (fun op => Some (operator_string op)) (fun _ id _ => Ret id)).
  - intros op. eexists. reflexivity.
  - intros token id depth. eexists. reflexivity.
  - reflexivity.
Defined.

(* ================================================================= *)
(** ** Further properties: integer literals *)

Lemma read_digits_of_uint_acc (d : Decimal.uint) (acc : positive) (seen : bool) :
  read_digits (NilEmpty.string_of_uint d) (Z.pos acc) seen
  = (Z.pos (Pos.of_uint_acc d acc),
     match d with Decimal.Nil => seen | _ => true end).
Proof.
  revert acc seen.
  induction d as [ | d IH | d IH | d IH | d IH | d IH | d IH | d IH | d IH | d IH | d IH ];
    intros acc seen; [ reflexivity | .. ];
    cbn [NilEmpty.string_of_uint read_digits Pos.of_uint_acc];
    match goal with
    | |- context [digit_of ?c] =>
        let v := eval vm_compute in (digit_of c) in
        change (digit_of c) with v; cbv iota beta
    end;
    match goal with
    | |- read_digits _ ?z _ = (Z.pos (Pos.of_uint_acc _ ?p), _) =>
        replace z with (Z.pos p) by (rewrite ?Pos2Z.inj_add, Pos2Z.inj_mul; lia)
    end;
    rewrite IH; destruct d; reflexivity.
Qed.

Lemma read_digits_of_uint (d : Decimal.uint) (seen : bool) :
  read_digits (NilEmpty.string_of_uint d) 0 seen
  = (Z.of_N (Pos.of_uint d), match d with Decimal.Nil => seen | _ => true end).
Proof.
  revert seen.
  induction d as [ | d IH | d IH | d IH | d IH | d IH | d IH | d IH | d IH | d IH | d IH ];
    intros seen; [ reflexivity | .. ];
    cbn [NilEmpty.string_of_uint read_digits Pos.of_uint];
    match goal with
    | |- context [digit_of ?c] =>
        let v := eval vm_compute in (digit_of c) in
        change (digit_of c) with v; cbv iota beta
    end.
  1: { change (10 * 0 + 0)%Z with 0%Z. rewrite IH. destruct d; reflexivity. }
  all: match goal with
       | |- read_digits _ ?z _ = _ =>
           let v := eval vm_compute in z in change z with v
       end;
    rewrite read_digits_of_uint_acc; destruct d; reflexivity.
Qed.

Lemma string_of_to_uint_shape (p : positive) :
  exists c rest,
    NilEmpty.string_of_uint (Pos.to_uint p) = String c rest
    /\ is_space c = false /\ c <> "-"%char /\ c <> "+"%char.
Proof.
  pose proof (DecimalPos.Unsigned.of_to p) as E.
  destruct (Pos.to_uint p) as [ | d | d | d | d | d | d | d | d | d | d ];
    [ discriminate E | .. ];
    cbn [NilEmpty.string_of_uint]; eexists; eexists;
    (split; [ reflexivity | split; [ reflexivity | split; discriminate ] ]).
Qed.

Lemma stoi_of_positive (p : positive) :
  read_digits (NilEmpty.string_of_uint (Pos.to_uint p)) 0 false = (Z.pos p, true).
Proof.
  rewrite read_digits_of_uint, DecimalPos.Unsigned.of_to.
  pose proof (DecimalPos.Unsigned.of_to p) as E.
  destruct (Pos.to_uint p); [ discriminate E | reflexivity .. ].
Qed.

Lemma stoi_on_to_string (n : Z) :
  stoi (to_string n)
  = if ((-2147483648 <=? n)%Z && (n <=? 2147483647)%Z)%bool
    then Ret n
    else Fault StdOutOfRange.
Proof.
  unfold to_string. destruct n as [ | p | p ].
  - reflexivity.
  - assert (S : NilZero.string_of_int (Z.to_int (Z.pos p))
                = NilEmpty.string_of_uint (Pos.to_uint p)).
    { cbn [Z.to_int]. unfold NilZero.string_of_int.
      pose proof (DecimalPos.Unsigned.of_to p) as E.
      destruct (Pos.to_uint p); [ discriminate E | reflexivity .. ]. }
    rewrite S.
    destruct (string_of_to_uint_shape p) as (c & rest & E & Sp & Nm & Np).
    unfold stoi. rewrite E. cbn [skip_spaces]. rewrite Sp.
    assert (X : match String c rest with
                | String "-"%char r => (true, r)
                | String "+"%char r => (false, r)
                | _ => (false, String c rest)
                end = (false, String c rest)).
    { destruct c as [[|] [|] [|] [|] [|] [|] [|] [|]];
        first [ reflexivity | exfalso; apply Nm; reflexivity
              | exfalso; apply Np; reflexivity ]. }
    rewrite X, <- E, (stoi_of_positive p). reflexivity.
  - assert (S : NilZero.string_of_int (Z.to_int (Z.neg p))
                = String "-"%char (NilEmpty.string_of_uint (Pos.to_uint p))).
    { cbn [Z.to_int]. unfold NilZero.string_of_int.
      pose proof (DecimalPos.Unsigned.of_to p) as E.
      destruct (Pos.to_uint p); [ discriminate E | reflexivity .. ]. }
    rewrite S. unfold stoi. cbn [skip_spaces].
    change (is_space "-"%char) with false. cbv iota.
    rewrite (stoi_of_positive p). reflexivity.
Qed.

(** X17: [std::stoi] reads back what [std::to_string] printed: on the
    decimal text of [n] it returns [n] when [n] fits an [int] and throws
    [std::out_of_range] otherwise. *)
Theorem stoi_to_string (n : Z) :
  stoi (to_string n)
  = if ((-2147483648 <=? n)%Z && (n <=? 2147483647)%Z)%bool
    then Ret n
    else Fault StdOutOfRange.
Proof. exact (stoi_on_to_string n). Qed.

Section Literals.

Variable input : TokenSeq.

Lemma previous_token_after (s : Parser.State) (tok : Token) :
  nth_error input (Parser.token_iter_ s) = Some tok ->
  Parser.previous_token input (after_token s) = Ret (tok, after_token s).
Proof.
  intros H. unfold Parser.previous_token. cbn [after_token Parser.token_iter_].
  rewrite H. reflexivity.
Qed.

Lemma number_on_printed_literal (s : Parser.State) (tok : Token) (n : Z) :
  nth_error input (Parser.token_iter_ s) = Some tok ->
  Token.type tok = TokenType.dec_integer ->
  Token.data tok = to_string n ->
  Parser.number input s
  = if ((-2147483648 <=? n)%Z && (n <=? 2147483647)%Z)%bool
    then Ret (Some (Some (Integer32 tok n), tok), after_token s)
    else Fault StdOutOfRange.
Proof.
  intros H T D. unfold Parser.number, bind.
  rewrite (accept_match_type input s tok TokenType.dec_integer H T).
  rewrite (previous_token_after s tok H).
  rewrite D, stoi_on_to_string. unfold lift.
  destruct ((-2147483648 <=? n)%Z && (n <=? 2147483647)%Z)%bool; reflexivity.
Qed.

(** X18: a [dec_integer] token whose text is the decimal form of [n]
    becomes [Integer32(n)] when [n] fits an [int], and the node is rendered
    with that same text; when [n] does not fit, [std::stoi] throws inside
    [number] and the exception leaves [parse]: no [Error] is recorded and
    [parse] does not return false. *)
Theorem integer_literal_round_trip_or_throw
  (tree_prefix : nat -> string) (token_map : TokenType -> option string)
  (Identifier_tree_gen : Token -> string -> nat -> outcome string)
  (default_token : Token) (s : Parser.State) (tok : Token) (n : Z) (fuel depth : nat) :
  nth_error input (Parser.token_iter_ s) = Some tok ->
  Token.type tok = TokenType.dec_integer ->
  Token.data tok = to_string n ->
  if ((-2147483648 <=? n)%Z && (n <=? 2147483647)%Z)%bool
  then Parser.number input s
       = Ret (Some (Some (Integer32 tok n), tok), after_token s)
       /\ Expression_tree_gen tree_prefix token_map Identifier_tree_gen
            (Integer32 tok n) depth
          = Ret (tree_prefix depth ++ "Integer32(" ++ Token.data tok ++ ")")%string
  else Parser.parse input default_token (2 + fuel) s = Fault StdOutOfRange.
Proof.
  intros H T D.
  pose proof (number_on_printed_literal s tok n H T D) as N.
  destruct ((-2147483648 <=? n)%Z && (n <=? 2147483647)%Z)%bool.
  - split; [ exact N | ]. cbn [Expression_tree_gen]. rewrite D. reflexivity.
  - assert (R : forall ty, TokenType.eqb TokenType.dec_integer ty = false ->
                           Parser.accept input ty s = Ret (None, s)).
    { intros ty Hty. apply (accept_mismatch input s tok ty H). rewrite T. exact Hty. }
    cbn [Nat.add].
    unfold Parser.parse, Parser.block. cbn [Parser.block_loop Parser.scope].
    unfold Parser.scope_body, Parser.var_decl, Parser.type, Parser.array_type,
      Parser.reference_type, Parser.simple_type, Parser.return_stmt, Parser.expr_stmt.
    cbn [Parser.expr].
    unfold Parser.assign, Parser.addsub, Parser.muldiv, Parser.unary_plusminus,
      Parser.func_call, Parser.paren, Parser.atom, Parser.orelse.
    unfold bind.
    repeat (rewrite !R by reflexivity; cbv beta iota delta [ret]).
    rewrite N. reflexivity.
Qed.

End Literals.

Lemma integer_literal_round_trip_or_throw_witness :
  Parser.parse [Token.mk TokenType.dec_integer "2147483648" 1 1]
               sample_default_token 2 Parser.initial
  = Fault StdOutOfRange.
Proof.
  exact (integer_literal_round_trip_or_throw
           [Token.mk TokenType.dec_integer "2147483648" 1 1]
           (fun _ => "") (fun _ => None) (fun _ _ _ => Ret "")
           sample_default_token Parser.initial
           (Token.mk TokenType.dec_integer "2147483648" 1 1) 2147483648 0 0
           eq_refl eq_refl eq_refl).
Defined.

(* ================================================================= *)
(** ** Further properties: associativity for chains of any length *)

Lemma nth_error_at {A : Type} (pre : list A) (x : A) (rest : list A) :
  nth_error (pre ++ x :: rest) (List.length pre) = Some x.
Proof. induction pre as [ | a pre IH ]; [ reflexivity | exact IH ]. Qed.

Lemma nth_error_after {A : Type} (pre : list A) (x y : A) (rest : list A) :
  nth_error (pre ++ x :: y :: rest) (S (List.length pre)) = Some y.
Proof. induction pre as [ | a pre IH ]; [ reflexivity | exact IH ]. Qed.

Section Chains.

Variable input : TokenSeq.
Variable expr : Parser.production ExpressionPtr.

(** An identifier followed by a token other than [(] is a whole
    [unary_plusminus]. *)
Lemma unary_plusminus_on_identifier (s : Parser.State) (t nx : Token) (fuel : nat) :
  nth_error input (Parser.token_iter_ s) = Some t ->
  nth_error input (S (Parser.token_iter_ s)) = Some nx ->
  Token.type t = TokenType.identifier ->
  Token.type nx <> TokenType.lparen ->
  0 < fuel ->
  Parser.unary_plusminus input expr fuel s = Ret (Some (operand t, t), after_token s).
Proof.
  intros Ht Hn Tt Nl Lf. destruct fuel as [ | fuel ]; [ lia | ].
  assert (R : forall ty, TokenType.eqb TokenType.identifier ty = false ->
                         Parser.accept input ty s = Ret (None, s)).
  { intros ty Hty. apply (accept_mismatch input s t ty Ht). rewrite Tt. exact Hty. }
  assert (Q : Parser.accept input TokenType.lparen (after_token s)
              = Ret (None, after_token s)).
  { apply (accept_mismatch input (after_token s) nx _ Hn).
    destruct (TokenType.eqb (Token.type nx) TokenType.lparen) eqn:E; [ | reflexivity ].
    apply TokenType.internal_t_dec_bl in E. contradiction. }
  unfold Parser.unary_plusminus, Parser.func_call, Parser.paren,
    Parser.atom, Parser.number, Parser.identifier, Parser.orelse.
  cbn [Parser.func_call_loop]. unfold bind.
  repeat (rewrite !R by reflexivity; cbv beta iota delta [ret]).
  rewrite (accept_match_type input s t TokenType.identifier Ht Tt).
  rewrite (previous_token_after input s t Ht).
  rewrite Q. reflexivity.
Qed.

(** [accept(a) || accept(b)] on a token of type [a] or [b]. *)
Lemma accept_either (a b : TokenType) (s : Parser.State) (op : Token) :
  nth_error input (Parser.token_iter_ s) = Some op ->
  Token.type op = a \/ Token.type op = b ->
  Parser.orelse (Parser.accept input a) (Parser.accept input b) s
  = Ret (Some op, after_token s).
Proof.
  intros H T. unfold Parser.orelse, bind.
  destruct (TokenType.eqb (Token.type op) a) eqn:E.
  - apply TokenType.internal_t_dec_bl in E.
    rewrite (accept_match_type input s op a H E). reflexivity.
  - rewrite (accept_mismatch input s op a H E).
    destruct T as [T | T]; [ rewrite T in E; unfold TokenType.eqb in E;
                             rewrite (TokenType.internal_t_dec_lb _ _ eq_refl) in E;
                             discriminate E | ].
    rewrite (accept_match_type input s op b H T). reflexivity.
Qed.

Lemma accept_neither (a b : TokenType) (s : Parser.State) (tok : Token) :
  nth_error input (Parser.token_iter_ s) = Some tok ->
  Token.type tok <> a -> Token.type tok <> b ->
  Parser.orelse (Parser.accept input a) (Parser.accept input b) s = Ret (None, s).
Proof.
  intros H Na Nb. unfold Parser.orelse, bind.
  rewrite (accept_mismatch input s tok a H), (accept_mismatch input s tok b H);
    first [ reflexivity
          | apply Bool.not_true_is_false; intros X;
            apply TokenType.internal_t_dec_bl in X; contradiction ].
Qed.

(** The loop of [muldiv] over a chain of multiplicative operators and
    identifiers. *)
Lemma muldiv_loop_on_chain (chain : list (Token * Token)) :
  forall (pre : TokenSeq) (nxt : Token) (rest : TokenSeq) (s : Parser.State)
         (start : Token) (lhs : ExpressionPtr) (fuel rhs_fuel : nat),
    input = pre ++ chain_tokens chain ++ nxt :: rest ->
    Parser.token_iter_ s = List.length pre ->
    Forall (fun link => multiplicative (Token.type (fst link)) = true
                        /\ Token.type (snd link) = TokenType.identifier) chain ->
    Token.type nxt <> TokenType.lparen ->
    multiplicative (Token.type nxt) = false ->
    0 < rhs_fuel ->
    Parser.muldiv_loop input expr (List.length chain + 1 + fuel) rhs_fuel start lhs s
    = Ret (Some (left_nested start lhs chain),
           {| Parser.token_iter_ := Parser.token_iter_ s + 2 * List.length chain;
              Parser.errors_ := Parser.errors_ s |}).
Proof.
  induction chain as [ | [op t] chain IH ];
    intros pre nxt rest s start lhs fuel rhs_fuel E P F Nl C Lr.
  - cbn [chain_tokens flat_map app] in E.
    assert (H : nth_error input (Parser.token_iter_ s) = Some nxt)
      by (rewrite E, P; apply nth_error_at).
    cbn [List.length Nat.add Parser.muldiv_loop left_nested fold_left].
    unfold bind at 1.
    rewrite (accept_neither _ _ s nxt H)
      by (destruct (Token.type nxt); first [ discriminate | discriminate C ]).
    destruct s. cbn. rewrite Nat.add_0_r. reflexivity.
  - inversion F as [ | link chain' [Aop Tt] F' ]; subst link chain'.
    cbn [fst snd] in Aop, Tt.
    cbn [chain_tokens flat_map] in E. fold (chain_tokens chain) in E.
    cbn [app] in E.
    assert (Hop : nth_error input (Parser.token_iter_ s) = Some op)
      by (rewrite E, P; apply nth_error_at).
    assert (Ht : nth_error input (S (Parser.token_iter_ s)) = Some t)
      by (rewrite E, P; apply nth_error_after).
    assert (E2 : input = (pre ++ [op; t]) ++ chain_tokens chain ++ nxt :: rest)
      by (rewrite E, <- app_assoc; reflexivity).
    assert (Hnx : exists nx, nth_error input (S (S (Parser.token_iter_ s))) = Some nx
                             /\ Token.type nx <> TokenType.lparen).
    { assert (L : S (S (Parser.token_iter_ s)) = List.length (pre ++ [op; t]))
        by (rewrite length_app, P; cbn; lia).
      rewrite L, E2.
      destruct chain as [ | [op' t'] chain' ].
      - exists nxt. cbn [chain_tokens flat_map app]. split; [ apply nth_error_at | exact Nl ].
      - exists op'. cbn [chain_tokens flat_map app fst snd].
        split; [ apply nth_error_at | ].
        inversion F' as [ | link chain'' [Aop' _] _ ]; subst. cbn [fst] in Aop'.
        destruct (Token.type op'); cbn in Aop'; first [ discriminate Aop' | discriminate ]. }
    destruct Hnx as (nx & Hnx & Nl').
    cbn [List.length Nat.add Parser.muldiv_loop].
    unfold bind at 1.
    rewrite (accept_either _ _ s op Hop)
      by (destruct (Token.type op); try discriminate Aop; auto).
    unfold bind at 1. rewrite (previous_token_after input s op Hop).
    unfold bind at 1.
    rewrite (unary_plusminus_on_identifier (after_token s) t nx rhs_fuel Ht Hnx Tt Nl' Lr).
    rewrite (IH (pre ++ [op; t]) nxt rest (after_token (after_token s)) start _
               fuel rhs_fuel E2).
    + cbn [left_nested fold_left fst snd after_token Parser.token_iter_ Parser.errors_].
      do 3 f_equal. cbn [List.length]. lia.
    + cbn [after_token Parser.token_iter_]. rewrite length_app, P. cbn. lia.
    + exact F'.
    + exact Nl.
    + exact C.
    + exact Lr.
Qed.

(** An identifier followed by a token that is neither [(] nor a
    multiplicative operator is a whole [muldiv]. *)
Lemma muldiv_on_identifier (s : Parser.State) (t nx : Token) (fuel : nat) :
  nth_error input (Parser.token_iter_ s) = Some t ->
  nth_error input (S (Parser.token_iter_ s)) = Some nx ->
  Token.type t = TokenType.identifier ->
  Token.type nx <> TokenType.lparen ->
  multiplicative (Token.type nx) = false ->
  0 < fuel ->
  Parser.muldiv input expr fuel s = Ret (Some (operand t, t), after_token s).
Proof.
  intros Ht Hn Tt Nl Nm Lf. unfold Parser.muldiv. unfold bind at 1.
  rewrite (unary_plusminus_on_identifier s t nx fuel Ht Hn Tt Nl Lf).
  destruct fuel as [ | fuel ]; [ lia | ].
  cbn [Parser.muldiv_loop]. unfold bind.
  rewrite (accept_neither _ _ (after_token s) nx Hn)
    by (destruct (Token.type nx); first [ discriminate | discriminate Nm ]).
  reflexivity.
Qed.

(** The loop of [addsub] over a chain of additive operators and
    identifiers. *)
Lemma addsub_loop_on_chain (chain : list (Token * Token)) :
  forall (pre : TokenSeq) (nxt : Token) (rest : TokenSeq) (s : Parser.State)
         (start : Token) (lhs : ExpressionPtr) (fuel rhs_fuel : nat),
    input = pre ++ chain_tokens chain ++ nxt :: rest ->
    Parser.token_iter_ s = List.length pre ->
    Forall (fun link => additive (Token.type (fst link)) = true
                        /\ Token.type (snd link) = TokenType.identifier) chain ->
    Token.type nxt <> TokenType.lparen ->
    multiplicative (Token.type nxt) = false ->
    additive (Token.type nxt) = false ->
    0 < rhs_fuel ->
    Parser.addsub_loop input expr (List.length chain + 1 + fuel) rhs_fuel start lhs s
    = Ret (Some (left_nested start lhs chain),
           {| Parser.token_iter_ := Parser.token_iter_ s + 2 * List.length chain;
              Parser.errors_ := Parser.errors_ s |}).
Proof.
  induction chain as [ | [op t] chain IH ];
    intros pre nxt rest s start lhs fuel rhs_fuel E P F Nl Nm C Lr.
  - cbn [chain_tokens flat_map app] in E.
    assert (H : nth_error input (Parser.token_iter_ s) = Some nxt)
      by (rewrite E, P; apply nth_error_at).
    cbn [List.length Nat.add Parser.addsub_loop left_nested fold_left].
    unfold bind at 1.
    rewrite (accept_neither _ _ s nxt H)
      by (destruct (Token.type nxt); first [ discriminate | discriminate C ]).
    destruct s. cbn. rewrite Nat.add_0_r. reflexivity.
  - inversion F as [ | link chain' [Aop Tt] F' ]; subst link chain'.
    cbn [fst snd] in Aop, Tt.
    cbn [chain_tokens flat_map] in E. fold (chain_tokens chain) in E.
    cbn [app] in E.
    assert (Hop : nth_error input (Parser.token_iter_ s) = Some op)
      by (rewrite E, P; apply nth_error_at).
    assert (Ht : nth_error input (S (Parser.token_iter_ s)) = Some t)
      by (rewrite E, P; apply nth_error_after).
    assert (E2 : input = (pre ++ [op; t]) ++ chain_tokens chain ++ nxt :: rest)
      by (rewrite E, <- app_assoc; reflexivity).
    assert (Hnx : exists nx, nth_error input (S (S (Parser.token_iter_ s))) = Some nx
                             /\ Token.type nx <> TokenType.lparen
                             /\ multiplicative (Token.type nx) = false).
    { assert (L : S (S (Parser.token_iter_ s)) = List.length (pre ++ [op; t]))
        by (rewrite length_app, P; cbn; lia).
      rewrite L, E2.
      destruct chain as [ | [op' t'] chain' ].
      - exists nxt. cbn [chain_tokens flat_map app].
        split; [ apply nth_error_at | split; assumption ].
      - exists op'. cbn [chain_tokens flat_map app fst snd].
        split; [ apply nth_error_at | ].
        inversion F' as [ | link chain'' [Aop' _] _ ]; subst. cbn [fst] in Aop'.
        destruct (Token.type op'); cbn in Aop';
          first [ discriminate Aop' | split; [ discriminate | reflexivity ] ]. }
    destruct Hnx as (nx & Hnx & Nl' & Nm').
    cbn [List.length Nat.add Parser.addsub_loop].
    unfold bind at 1.
    rewrite (accept_either _ _ s op Hop)
      by (destruct (Token.type op); try discriminate Aop; auto).
    unfold bind at 1. rewrite (previous_token_after input s op Hop).
    unfold bind at 1.
    rewrite (muldiv_on_identifier (after_token s) t nx rhs_fuel Ht Hnx Tt Nl' Nm' Lr).
    rewrite (IH (pre ++ [op; t]) nxt rest (after_token (after_token s)) start _
               fuel rhs_fuel E2).
    + cbn [left_nested fold_left fst snd after_token Parser.token_iter_ Parser.errors_].
      do 3 f_equal. cbn [List.length]. lia.
    + cbn [after_token Parser.token_iter_]. rewrite length_app, P. cbn. lia.
    + exact F'.
    + exact Nl.
    + exact Nm.
    + exact C.
    + exact Lr.
Qed.

(** An identifier followed by a token that continues neither a call, a
    product nor a sum is a whole [addsub]. *)
Lemma addsub_on_identifier (s : Parser.State) (t nx : Token) (fuel : nat) :
  nth_error input (Parser.token_iter_ s) = Some t ->
  nth_error input (S (Parser.token_iter_ s)) = Some nx ->
  Token.type t = TokenType.identifier ->
  Token.type nx <> TokenType.lparen ->
  multiplicative (Token.type nx) = false ->
  additive (Token.type nx) = false ->
  0 < fuel ->
  Parser.addsub input expr fuel s = Ret (Some (operand t, t), after_token s).
Proof.
  intros Ht Hn Tt Nl Nm Na Lf. unfold Parser.addsub. unfold bind at 1.
  rewrite (muldiv_on_identifier s t nx fuel Ht Hn Tt Nl Nm Lf).
  destruct fuel as [ | fuel ]; [ lia | ].
  cbn [Parser.addsub_loop]. unfold bind.
  rewrite (accept_neither _ _ (after_token s) nx Hn)
    by (destruct (Token.type nx); first [ discriminate | discriminate Na ]).
  reflexivity.
Qed.

(** The loop of [assign] over a chain of [=] and identifiers: the operands
    are pushed in source order. *)
Lemma assign_loop_on_chain (chain : list (Token * Token)) :
  forall (pre : TokenSeq) (nxt : Token) (rest : TokenSeq) (s : Parser.State)
         (operands : list ExpressionPtr) (fuel rhs_fuel : nat),
    input = pre ++ chain_tokens chain ++ nxt :: rest ->
    Parser.token_iter_ s = List.length pre ->
    Forall (fun link => Token.type (fst link) = TokenType.assign
                        /\ Token.type (snd link) = TokenType.identifier) chain ->
    continues_expression (Token.type nxt) = false ->
    0 < rhs_fuel ->
    Parser.assign_loop input expr (List.length chain + 1 + fuel) rhs_fuel operands s
    = Ret (Some (operands ++ map (fun link => operand (snd link)) chain),
           {| Parser.token_iter_ := Parser.token_iter_ s + 2 * List.length chain;
              Parser.errors_ := Parser.errors_ s |}).
Proof.
  induction chain as [ | [op t] chain IH ];
    intros pre nxt rest s operands fuel rhs_fuel E P F C Lr.
  - cbn [chain_tokens flat_map app] in E.
    assert (H : nth_error input (Parser.token_iter_ s) = Some nxt)
      by (rewrite E, P; apply nth_error_at).
    cbn [List.length Nat.add Parser.assign_loop map].
    unfold bind at 1.
    rewrite (accept_mismatch input s nxt _ H)
      by (destruct (Token.type nxt); first [ reflexivity | discriminate C ]).
    rewrite app_nil_r. destruct s. cbn. rewrite Nat.add_0_r. reflexivity.
  - inversion F as [ | link chain' [Aop Tt] F' ]; subst link chain'.
    cbn [fst snd] in Aop, Tt.
    cbn [chain_tokens flat_map] in E. fold (chain_tokens chain) in E.
    cbn [app] in E.
    assert (Hop : nth_error input (Parser.token_iter_ s) = Some op)
      by (rewrite E, P; apply nth_error_at).
    assert (Ht : nth_error input (S (Parser.token_iter_ s)) = Some t)
      by (rewrite E, P; apply nth_error_after).
    assert (E2 : input = (pre ++ [op; t]) ++ chain_tokens chain ++ nxt :: rest)
      by (rewrite E, <- app_assoc; reflexivity).
    assert (Hnx : exists nx, nth_error input (S (S (Parser.token_iter_ s))) = Some nx
                             /\ Token.type nx <> TokenType.lparen
                             /\ multiplicative (Token.type nx) = false
                             /\ additive (Token.type nx) = false).
    { assert (L : S (S (Parser.token_iter_ s)) = List.length (pre ++ [op; t]))
        by (rewrite length_app, P; cbn; lia).
      rewrite L, E2.
      destruct chain as [ | [op' t'] chain' ].
      - exists nxt. cbn [chain_tokens flat_map app]. split; [ apply nth_error_at | ].
        destruct (Token.type nxt); cbn in C;
          first [ discriminate C
                | split; [ discriminate | split; reflexivity ] ].
      - exists op'. cbn [chain_tokens flat_map app fst snd].
        split; [ apply nth_error_at | ].
        inversion F' as [ | link chain'' [Aop' _] _ ]; subst. cbn [fst] in Aop'.
        rewrite Aop'. split; [ discriminate | split; reflexivity ]. }
    destruct Hnx as (nx & Hnx & Nl' & Nm' & Na').
    cbn [List.length Nat.add Parser.assign_loop].
    unfold bind at 1.
    rewrite (accept_match_type input s op TokenType.assign Hop Aop).
    unfold bind at 1.
    rewrite (addsub_on_identifier (after_token s) t nx rhs_fuel Ht Hnx Tt Nl' Nm' Na' Lr).
    rewrite (IH (pre ++ [op; t]) nxt rest (after_token (after_token s)) _
               fuel rhs_fuel E2).
    + cbn [map snd after_token Parser.token_iter_ Parser.errors_].
      rewrite <- app_assoc. do 3 f_equal. cbn [List.length]. lia.
    + cbn [after_token Parser.token_iter_]. rewrite length_app, P. cbn. lia.
    + exact F'.
    + exact C.
    + exact Lr.
Qed.

End Chains.

(** The fold of [assign] on the operands of a chain is the right-nested
    tree. *)
Lemma assign_fold_right_nested (start x : Token) (rest : list Token) :
  Parser.assign_fold start (operand x :: map operand rest)
  = right_nested start x rest.
Proof.
  revert x. induction rest as [ | y rest IH ]; intros x.
  - reflexivity.
  - cbn [map right_nested]. rewrite assign_fold_cons, IH. reflexivity.
Qed.

Lemma length_chain_tokens (chain : list (Token * Token)) :
  List.length (chain_tokens chain) = 2 * List.length chain.
Proof.
  induction chain as [ | link chain IH ]; [ reflexivity | ].
  cbn [chain_tokens flat_map app List.length]. fold (chain_tokens chain).
  rewrite IH. lia.
Qed.

(** The token after the first operand of a chain: the first operator, or
    the token that follows the chain. *)
Lemma chain_second_token (P : TokenType -> Prop) (t0 : Token)
  (chain : list (Token * Token)) (nxt : Token) (rest : TokenSeq) :
  Forall (fun link => P (Token.type (fst link))) chain ->
  P (Token.type nxt) ->
  exists nx,
    nth_error (t0 :: chain_tokens chain ++ nxt :: rest) 1 = Some nx /\ P (Token.type nx).
Proof.
  intros F N. destruct chain as [ | [op t] chain ].
  - exists nxt. split; [ reflexivity | exact N ].
  - exists op. split; [ reflexivity | ].
    inversion F; subst. assumption.
Qed.

Lemma nth_error_after_chain (t0 : Token) (chain : list (Token * Token))
  (nxt : Token) (rest : TokenSeq) :
  nth_error (t0 :: chain_tokens chain ++ nxt :: rest) (1 + 2 * List.length chain)
  = Some nxt.
Proof.
  change (t0 :: chain_tokens chain ++ nxt :: rest)
    with ((t0 :: chain_tokens chain) ++ nxt :: rest).
  replace (1 + 2 * List.length chain) with (List.length (t0 :: chain_tokens chain))
    by (cbn [List.length]; rewrite length_chain_tokens; lia).
  apply nth_error_at.
Qed.

(** X19: sums of any length are left-associative.  For an identifier
    followed by any number of links [+ x] or [- x] and then by a token that
    does not continue an expression, [expr] returns the tree in which each
    link wraps everything to its left, every node carrying the first
    token, and consumes exactly the chain. *)
Theorem addsub_chain_left_associative
  (t0 : Token) (chain : list (Token * Token)) (nxt : Token) (rest : TokenSeq)
  (fuel : nat) :
  Token.type t0 = TokenType.identifier ->
  Forall (fun link => additive (Token.type (fst link)) = true
                      /\ Token.type (snd link) = TokenType.identifier) chain ->
  continues_expression (Token.type nxt) = false ->
  Parser.expr (t0 :: chain_tokens chain ++ nxt :: rest)
              (S (List.length chain + 1 + fuel)) Parser.initial
  = Ret (Some (left_nested t0 (operand t0) chain, t0),
         {| Parser.token_iter_ := 1 + 2 * List.length chain; Parser.errors_ := [] |}).
Proof.
  intros T0 F C.
  set (input := t0 :: chain_tokens chain ++ nxt :: rest).
  assert (Cn : Token.type nxt <> TokenType.lparen
               /\ multiplicative (Token.type nxt) = false
               /\ additive (Token.type nxt) = false).
  { destruct (Token.type nxt); cbn in C;
      first [ discriminate C | split; [ discriminate | split; reflexivity ] ]. }
  destruct Cn as (Cl & Cm & Ca).
  destruct (chain_second_token
              (fun ty => ty <> TokenType.lparen /\ multiplicative ty = false)
              t0 chain nxt rest) as (nx & Hnx & Nl & Nm).
  { apply Forall_impl with (2 := F). intros [op t] [A _]. cbn [fst] in *.
    destruct (Token.type op); cbn in A;
      first [ discriminate A | split; [ discriminate | reflexivity ] ]. }
  { split; assumption. }
  pose proof (nth_error_after_chain t0 chain nxt rest) as Hend. fold input in Hend.
  cbn [Parser.expr]. unfold Parser.assign, Parser.addsub, bind.
  rewrite (muldiv_on_identifier input _ Parser.initial t0 nx _ eq_refl Hnx T0 Nl Nm)
    by lia.
  rewrite (addsub_loop_on_chain input _ chain [t0] nxt rest (after_token Parser.initial)
             t0 (operand t0) fuel _ eq_refl eq_refl F Cl Cm Ca) by lia.
  cbn [after_token Parser.initial Parser.token_iter_ Parser.errors_].
  replace (List.length chain + 1 + fuel) with (S (List.length chain + fuel)) by lia.
  cbn [Parser.assign_loop]. unfold bind. cbv beta iota delta [ret].
  rewrite (accept_mismatch input
             {| Parser.token_iter_ := 1 + 2 * List.length chain; Parser.errors_ := [] |}
             nxt TokenType.assign Hend)
    by (destruct (Token.type nxt); first [ reflexivity | discriminate C ]).
  reflexivity.
Qed.

(** X20: products of any length are left-associative, in the same way,
    for links [* x] and [/ x]. *)
Theorem muldiv_chain_left_associative
  (t0 : Token) (chain : list (Token * Token)) (nxt : Token) (rest : TokenSeq)
  (fuel : nat) :
  Token.type t0 = TokenType.identifier ->
  Forall (fun link => multiplicative (Token.type (fst link)) = true
                      /\ Token.type (snd link) = TokenType.identifier) chain ->
  continues_expression (Token.type nxt) = false ->
  Parser.expr (t0 :: chain_tokens chain ++ nxt :: rest)
              (S (List.length chain + 1 + fuel)) Parser.initial
  = Ret (Some (left_nested t0 (operand t0) chain, t0),
         {| Parser.token_iter_ := 1 + 2 * List.length chain; Parser.errors_ := [] |}).
Proof.
  intros T0 F C.
  set (input := t0 :: chain_tokens chain ++ nxt :: rest).
  assert (Cn : Token.type nxt <> TokenType.lparen
               /\ multiplicative (Token.type nxt) = false
               /\ additive (Token.type nxt) = false).
  { destruct (Token.type nxt); cbn in C;
      first [ discriminate C | split; [ discriminate | split; reflexivity ] ]. }
  destruct Cn as (Cl & Cm & Ca).
  destruct (chain_second_token (fun ty => ty <> TokenType.lparen)
              t0 chain nxt rest) as (nx & Hnx & Nl).
  { apply Forall_impl with (2 := F). intros [op t] [A _]. cbn [fst] in *.
    destruct (Token.type op); cbn in A; first [ discriminate A | discriminate ]. }
  { exact Cl. }
  pose proof (nth_error_after_chain t0 chain nxt rest) as Hend. fold input in Hend.
  cbn [Parser.expr]. unfold Parser.assign, Parser.addsub, Parser.muldiv, bind.
  rewrite (unary_plusminus_on_identifier input _ Parser.initial t0 nx _ eq_refl Hnx T0 Nl)
    by lia.
  rewrite (muldiv_loop_on_chain input _ chain [t0] nxt rest (after_token Parser.initial)
             t0 (operand t0) fuel _ eq_refl eq_refl F Cl Cm) by lia.
  cbn [after_token Parser.initial Parser.token_iter_ Parser.errors_].
  replace (List.length chain + 1 + fuel) with (S (List.length chain + fuel)) by lia.
  cbn [Parser.addsub_loop]. unfold bind. cbv beta iota delta [ret].
  rewrite (accept_neither input _ _
             {| Parser.token_iter_ := 1 + 2 * List.length chain; Parser.errors_ := [] |}
             nxt Hend)
    by (destruct (Token.type nxt); first [ discriminate | discriminate Ca ]).
  cbn [Parser.assign_loop]. unfold bind. cbv beta iota delta [ret].
  rewrite (accept_mismatch input
             {| Parser.token_iter_ := 1 + 2 * List.length chain; Parser.errors_ := [] |}
             nxt TokenType.assign Hend)
    by (destruct (Token.type nxt); first [ reflexivity | discriminate C ]).
  reflexivity.
Qed.

(** X21: assignments of any length are right-associative.  For an
    identifier followed by any number of links [= x] and then by a token
    that does not continue an expression, [expr] returns
    [x0 = (x1 = (... = xn))], every node carrying the first token, and
    consumes exactly the chain. *)
Theorem assign_chain_right_associative
  (t0 : Token) (chain : list (Token * Token)) (nxt : Token) (rest : TokenSeq)
  (fuel : nat) :
  Token.type t0 = TokenType.identifier ->
  Forall (fun link => Token.type (fst link) = TokenType.assign
                      /\ Token.type (snd link) = TokenType.identifier) chain ->
  continues_expression (Token.type nxt) = false ->
  Parser.expr (t0 :: chain_tokens chain ++ nxt :: rest)
              (S (List.length chain + 1 + fuel)) Parser.initial
  = Ret (Some (right_nested t0 t0 (map snd chain), t0),
         {| Parser.token_iter_ := 1 + 2 * List.length chain; Parser.errors_ := [] |}).
Proof.
  intros T0 F C.
  set (input := t0 :: chain_tokens chain ++ nxt :: rest).
  destruct (chain_second_token
              (fun ty => ty <> TokenType.lparen /\ multiplicative ty = false
                         /\ additive ty = false)
              t0 chain nxt rest) as (nx & Hnx & Nl & Nm & Na).
  { apply Forall_impl with (2 := F). intros [op t] [A _]. cbn [fst] in *.
    rewrite A. split; [ discriminate | split; reflexivity ]. }
  { destruct (Token.type nxt); cbn in C;
      first [ discriminate C | split; [ discriminate | split; reflexivity ] ]. }
  cbn [Parser.expr]. unfold Parser.assign, bind.
  rewrite (addsub_on_identifier input _ Parser.initial t0 nx _ eq_refl Hnx T0 Nl Nm Na)
    by lia.
  rewrite (assign_loop_on_chain input _ chain [t0] nxt rest (after_token Parser.initial)
             [operand t0] fuel _ eq_refl eq_refl F C) by lia.
  cbn [after_token Parser.initial Parser.token_iter_ Parser.errors_ app].
  rewrite <- (map_map snd operand), assign_fold_right_nested.
  reflexivity.
Qed.

(* ================================================================= *)
(** ** Further properties: the end of the token sequence *)

(** X22: whenever [parse] returns, true or false, the cursor rests on a
    token of the input that was not consumed: [parse] never returns after
    having consumed the whole sequence, because the [scope] call that ends
    the loop of [block] has read the token it stopped on. *)
Theorem parse_never_consumes_everything
  (input : TokenSeq) (default_token : Token) (fuel : nat)
  (s s' : Parser.State) (out : option StatementPtr) :
  Parser.parse input default_token fuel s = Ret (out, s') ->
  Parser.token_iter_ s' < List.length input.
Proof.
  unfold Parser.parse, Parser.block, Parser.get_errors, bind, ret.
  destruct (Parser.block_loop input default_token fuel fuel default_token [] s)
    as [[[bs stmts] s1] | f] eqn:L; [ | discriminate ].
  apply block_loop_grounded in L.
  destruct (Parser.errors_ s1); intros H; inversion H; subst; exact L.
Qed.

Lemma parse_never_consumes_everything_witness : 3 < 4.
Proof.
  exact (parse_never_consumes_everything
           [Token.mk TokenType._int "int" 1 1; Token.mk TokenType.identifier "x" 1 5;
            Token.mk TokenType.semicolon ";" 1 6; Token.mk TokenType.rparen ")" 1 8]
           sample_default_token 3 Parser.initial
           {| Parser.token_iter_ := 3; Parser.errors_ := [] |}
           _ ltac:(vm_compute; reflexivity)).
Defined.

(** X23: with the cursor at or past the end of the input, in particular
    on the empty token sequence, [parse] reads the token iterator out of
    range at its first [accept]. *)
Theorem parse_at_end_reads_out_of_range
  (input : TokenSeq) (default_token : Token) (fuel : nat) (s : Parser.State) :
  List.length input <= Parser.token_iter_ s ->
  Parser.parse input default_token (S (S fuel)) s = Fault OutOfRange.
Proof.
  intros L.
  assert (N : nth_error input (Parser.token_iter_ s) = None)
    by (apply nth_error_None; exact L).
  unfold Parser.parse, Parser.block. cbn [Parser.block_loop Parser.scope].
  unfold Parser.scope_body, Parser.accept, Parser.current_token, bind.
  rewrite N. reflexivity.
Qed.

Lemma parse_at_end_reads_out_of_range_witness :
  Parser.parse [] sample_default_token 2 Parser.initial = Fault OutOfRange.
Proof.
  apply (parse_at_end_reads_out_of_range [] sample_default_token 0 Parser.initial).
  cbn. lia.
Defined.

(* ================================================================= *)
(** ** Further properties: call chains and parameter lists *)

Section Calls.

Variable input : TokenSeq.

(** One empty argument list: [( )] at the cursor, inside [func_call]. *)
Lemma func_call_arguments_empty (s : Parser.State) (rp : Token)
  (expr_fuel fuel : nat) :
  nth_error input (Parser.token_iter_ s) = Some rp ->
  Token.type rp = TokenType.rparen ->
  0 < fuel ->
  Parser.func_call_arguments input (Parser.expr input (S expr_fuel)) fuel [] s
  = Ret (Some [], after_token s).
Proof.
  intros H T L. destruct fuel as [ | fuel ]; [ lia | ].
  cbn [Parser.func_call_arguments]. unfold bind.
  rewrite (expr_fails_at input s rp expr_fuel H) by (rewrite T; reflexivity).
  rewrite (accept_match_type input s rp TokenType.rparen H T). reflexivity.
Qed.

Lemma func_call_loop_step (expr : Parser.production ExpressionPtr) (fuel : nat)
  (start : Token) (func_expr : ExpressionPtr) :
  Parser.func_call_loop input expr (S fuel) start func_expr
  = (l <- Parser.accept input TokenType.lparen ;;
     match l with
     | Some _ =>
         a <- Parser.func_call_arguments input expr fuel [] ;;
         match a with
         | Some arg =>
             Parser.func_call_loop input expr fuel start
               (Some (FunctionCallOperation start func_expr arg))
         | None => ret None
         end
     | None => ret (Some func_expr)
     end).
Proof. reflexivity. Qed.

(** The loop of [func_call] over a chain of empty argument lists. *)
Lemma func_call_loop_on_calls (chain : list (Token * Token)) :
  forall (pre : TokenSeq) (nxt : Token) (rest : TokenSeq) (s : Parser.State)
         (start : Token) (func_expr : ExpressionPtr) (fuel expr_fuel : nat),
    input = pre ++ chain_tokens chain ++ nxt :: rest ->
    Parser.token_iter_ s = List.length pre ->
    Forall (fun link => Token.type (fst link) = TokenType.lparen
                        /\ Token.type (snd link) = TokenType.rparen) chain ->
    Token.type nxt <> TokenType.lparen ->
    Parser.func_call_loop input (Parser.expr input (S expr_fuel))
                          (S (List.length chain + 1 + fuel)) start func_expr s
    = Ret (Some (fold_left (fun callee _ => Some (FunctionCallOperation start callee []))
                           chain func_expr),
           {| Parser.token_iter_ := Parser.token_iter_ s + 2 * List.length chain;
              Parser.errors_ := Parser.errors_ s |}).
Proof.
  induction chain as [ | [lp rp] chain IH ];
    intros pre nxt rest s start func_expr fuel expr_fuel E P F Nl.
  - cbn [chain_tokens flat_map app] in E.
    assert (H : nth_error input (Parser.token_iter_ s) = Some nxt)
      by (rewrite E, P; apply nth_error_at).
    rewrite func_call_loop_step. cbn [List.length fold_left]. unfold bind.
    rewrite (accept_mismatch input s nxt TokenType.lparen H)
      by (apply Bool.not_true_is_false; intros X;
          apply TokenType.internal_t_dec_bl in X; contradiction).
    destruct s. cbn. rewrite Nat.add_0_r. reflexivity.
  - inversion F as [ | link chain' [Tl Tr] F' ]; subst link chain'.
    cbn [fst snd] in Tl, Tr.
    cbn [chain_tokens flat_map] in E. fold (chain_tokens chain) in E.
    cbn [app] in E.
    assert (Hl : nth_error input (Parser.token_iter_ s) = Some lp)
      by (rewrite E, P; apply nth_error_at).
    assert (Hr : nth_error input (S (Parser.token_iter_ s)) = Some rp)
      by (rewrite E, P; apply nth_error_after).
    assert (E2 : input = (pre ++ [lp; rp]) ++ chain_tokens chain ++ nxt :: rest)
      by (rewrite E, <- app_assoc; reflexivity).
    rewrite func_call_loop_step. cbn [List.length Nat.add]. unfold bind at 1.
    rewrite (accept_match_type input s lp TokenType.lparen Hl Tl).
    unfold bind at 1.
    rewrite (func_call_arguments_empty (after_token s) rp expr_fuel _ Hr Tr) by lia.
    rewrite (IH (pre ++ [lp; rp]) nxt rest (after_token (after_token s)) start _
               fuel expr_fuel E2).
    + cbn [fold_left after_token Parser.token_iter_ Parser.errors_].
      do 3 f_equal. cbn [List.length]. lia.
    + cbn [after_token Parser.token_iter_]. rewrite length_app, P. cbn. lia.
    + exact F'.
    + exact Nl.
Qed.

(** X24: a parameter type that is not [void] and is directly followed by
    [)] is accepted and dropped: the parameter loop of [func_decl] ends
    with the parameter list it had before that type, whatever the type is
    (an unnamed parameter is recorded only when a comma follows it). *)
Theorem trailing_unnamed_parameter_is_dropped
  (s s1 : Parser.State) (ty : Type_) (type_start rp start : Token)
  (param_list : list VariableDeclaration) (fuel type_fuel : nat) :
  Parser.type input type_fuel s = Ret (Some (Some ty, type_start), s1) ->
  Token.type (Type_token ty) <> TokenType._void ->
  nth_error input (Parser.token_iter_ s1) = Some rp ->
  Token.type rp = TokenType.rparen ->
  Parser.func_decl_parameters input (S (S fuel)) type_fuel start param_list s
  = Ret (Some param_list, after_token s1).
Proof.
  intros Hty Nv Hr Tr.
  assert (R : forall t, TokenType.eqb TokenType.rparen t = false ->
                        Parser.accept input t s1 = Ret (None, s1)).
  { intros t Ht. apply (accept_mismatch input s1 rp t Hr). rewrite Tr. exact Ht. }
  assert (V : TokenType.eqb (Token.type (Type_token ty)) TokenType._void = false).
  { apply Bool.not_true_is_false. intros X.
    apply TokenType.internal_t_dec_bl in X. contradiction. }
  assert (T1 : Parser.type input type_fuel s1 = Ret (None, s1)).
  { unfold Parser.type, Parser.array_type, Parser.reference_type, Parser.simple_type, bind.
    repeat (rewrite !R by reflexivity; cbv beta iota delta [ret]).
    reflexivity. }
  cbn [Parser.func_decl_parameters]. unfold bind at 1. rewrite Hty.
  rewrite V. unfold bind.
  repeat (rewrite !R by reflexivity; cbv beta iota delta [ret]).
  rewrite T1.
  rewrite (accept_match_type input s1 rp TokenType.rparen Hr Tr). reflexivity.
Qed.

End Calls.

Lemma trailing_unnamed_parameter_is_dropped_witness :
  let t_int := Token.mk TokenType._int "int" 1 9 in
  let t_rp := Token.mk TokenType.rparen ")" 1 13 in
  Parser.func_decl_parameters [t_int; t_rp] 2 1 t_int [] Parser.initial
  = Ret (Some [], {| Parser.token_iter_ := 2; Parser.errors_ := [] |}).
Proof.
  cbv zeta.
  apply (trailing_unnamed_parameter_is_dropped
           [Token.mk TokenType._int "int" 1 9; Token.mk TokenType.rparen ")" 1 13]
           Parser.initial {| Parser.token_iter_ := 1; Parser.errors_ := [] |}
           (SimpleType (Token.mk TokenType._int "int" 1 9) "int" false)
           (Token.mk TokenType._int "int" 1 9) (Token.mk TokenType.rparen ")" 1 13)
           (Token.mk TokenType._int "int" 1 9) [] 0 1);
    first [ reflexivity | discriminate ].
Defined.

(** X25: calls chain to the left.  For an identifier followed by any
    number of empty argument lists [( )] and then by a token that does not
    continue an expression, [expr] returns the callee wrapped once per
    argument list, innermost first, every node carrying the first token,
    and consumes exactly the chain. *)
Theorem call_chain_left_associative
  (t0 : Token) (chain : list (Token * Token)) (nxt : Token) (rest : TokenSeq)
  (fuel : nat) :
  Token.type t0 = TokenType.identifier ->
  Forall (fun link => Token.type (fst link) = TokenType.lparen
                      /\ Token.type (snd link) = TokenType.rparen) chain ->
  continues_expression (Token.type nxt) = false ->
  Parser.expr (t0 :: chain_tokens chain ++ nxt :: rest)
              (S (S (List.length chain + 1 + fuel))) Parser.initial
  = Ret (Some (fold_left (fun callee _ => Some (FunctionCallOperation t0 callee []))
                         chain (operand t0), t0),
         {| Parser.token_iter_ := 1 + 2 * List.length chain; Parser.errors_ := [] |}).
Proof.
  intros T0 F C.
  set (input := t0 :: chain_tokens chain ++ nxt :: rest).
  assert (Cn : Token.type nxt <> TokenType.lparen
               /\ multiplicative (Token.type nxt) = false
               /\ additive (Token.type nxt) = false).
  { destruct (Token.type nxt); cbn in C;
      first [ discriminate C | split; [ discriminate | split; reflexivity ] ]. }
  destruct Cn as (Cl & Cm & Ca).
  pose proof (nth_error_after_chain t0 chain nxt rest) as Hend. fold input in Hend.
  assert (H0 : nth_error input (Parser.token_iter_ Parser.initial) = Some t0)
    by reflexivity.
  assert (R : forall ty, TokenType.eqb TokenType.identifier ty = false ->
                         Parser.accept input ty Parser.initial = Ret (None, Parser.initial)).
  { intros ty Hty. apply (accept_mismatch input Parser.initial t0 ty H0).
    rewrite T0. exact Hty. }
  change (Parser.expr input (S (S (List.length chain + 1 + fuel))))
    with (Parser.assign input (Parser.expr input (S (List.length chain + 1 + fuel)))
                        (S (List.length chain + 1 + fuel))).
  unfold Parser.assign, Parser.addsub, Parser.muldiv, Parser.unary_plusminus,
    Parser.func_call, Parser.paren, Parser.atom, Parser.number, Parser.identifier,
    Parser.orelse, bind.
  repeat (rewrite !R by reflexivity; cbv beta iota delta [ret]).
  rewrite (accept_match_type input Parser.initial t0 TokenType.identifier H0 T0).
  rewrite (previous_token_after input Parser.initial t0 H0).
  rewrite (func_call_loop_on_calls input chain [t0] nxt rest (after_token Parser.initial)
             t0 (operand t0) fuel _ eq_refl eq_refl F Cl).
  cbn [after_token Parser.initial Parser.token_iter_ Parser.errors_].
  cbn [Parser.muldiv_loop Parser.addsub_loop Parser.assign_loop].
  unfold Parser.orelse, bind. cbv beta iota delta [ret].
  rewrite !(accept_mismatch input
              {| Parser.token_iter_ := 1 + 2 * List.length chain; Parser.errors_ := [] |}
              nxt _ Hend)
    by (destruct (Token.type nxt); first [ reflexivity | discriminate C ]).
  reflexivity.
Qed.

Lemma addsub_chain_left_associative_witness :
  let a := Token.mk TokenType.identifier "a" 1 1 in
  let p := Token.mk TokenType.plus "+" 1 3 in
  let b := Token.mk TokenType.identifier "b" 1 5 in
  let m := Token.mk TokenType.minus "-" 1 7 in
  let c := Token.mk TokenType.identifier "c" 1 9 in
  let semi := Token.mk TokenType.semicolon ";" 1 10 in
  Parser.expr [a; p; b; m; c; semi] 4 Parser.initial
  = Ret (Some (Some (BinaryOperation a TokenType.minus
                       (Some (BinaryOperation a TokenType.plus
                                (Some (Identifier a "a")) (Some (Identifier b "b"))))
                       (Some (Identifier c "c"))), a),
         {| Parser.token_iter_ := 5; Parser.errors_ := [] |}).
Proof.
  cbv zeta.
  apply (addsub_chain_left_associative
           (Token.mk TokenType.identifier "a" 1 1)
           [(Token.mk TokenType.plus "+" 1 3, Token.mk TokenType.identifier "b" 1 5);
            (Token.mk TokenType.minus "-" 1 7, Token.mk TokenType.identifier "c" 1 9)]
           (Token.mk TokenType.semicolon ";" 1 10) [] 0);
    first [ reflexivity | repeat constructor ].
Defined.

Lemma muldiv_chain_left_associative_witness :
  let a := Token.mk TokenType.identifier "a" 1 1 in
  let p := Token.mk TokenType.divide "/" 1 3 in
  let b := Token.mk TokenType.identifier "b" 1 5 in
  let m := Token.mk TokenType.multiply "*" 1 7 in
  let c := Token.mk TokenType.identifier "c" 1 9 in
  let semi := Token.mk TokenType.semicolon ";" 1 10 in
  Parser.expr [a; p; b; m; c; semi] 4 Parser.initial
  = Ret (Some (Some (BinaryOperation a TokenType.multiply
                       (Some (BinaryOperation a TokenType.divide
                                (Some (Identifier a "a")) (Some (Identifier b "b"))))
                       (Some (Identifier c "c"))), a),
         {| Parser.token_iter_ := 5; Parser.errors_ := [] |}).
Proof.
  cbv zeta.
  apply (muldiv_chain_left_associative
           (Token.mk TokenType.identifier "a" 1 1)
           [(Token.mk TokenType.divide "/" 1 3, Token.mk TokenType.identifier "b" 1 5);
            (Token.mk TokenType.multiply "*" 1 7, Token.mk TokenType.identifier "c" 1 9)]
           (Token.mk TokenType.semicolon ";" 1 10) [] 0);
    first [ reflexivity | repeat constructor ].
Defined.

Lemma assign_chain_right_associative_witness :
  let a := Token.mk TokenType.identifier "a" 1 1 in
  let e1 := Token.mk TokenType.assign "=" 1 3 in
  let b := Token.mk TokenType.identifier "b" 1 5 in
  let e2 := Token.mk TokenType.assign "=" 1 7 in
  let c := Token.mk TokenType.identifier "c" 1 9 in
  let e3 := Token.mk TokenType.assign "=" 1 11 in
  let d := Token.mk TokenType.identifier "d" 1 13 in
  let semi := Token.mk TokenType.semicolon ";" 1 14 in
  Parser.expr [a; e1; b; e2; c; e3; d; semi] 5 Parser.initial
  = Ret (Some (Some (BinaryOperation a TokenType.assign (Some (Identifier a "a"))
                 (Some (BinaryOperation a TokenType.assign (Some (Identifier b "b"))
                    (Some (BinaryOperation a TokenType.assign (Some (Identifier c "c"))
                       (Some (Identifier d "d"))))))), a),
         {| Parser.token_iter_ := 7; Parser.errors_ := [] |}).
Proof.
  cbv zeta.
  apply (assign_chain_right_associative
           (Token.mk TokenType.identifier "a" 1 1)
           [(Token.mk TokenType.assign "=" 1 3, Token.mk TokenType.identifier "b" 1 5);
            (Token.mk TokenType.assign "=" 1 7, Token.mk TokenType.identifier "c" 1 9);
            (Token.mk TokenType.assign "=" 1 11, Token.mk TokenType.identifier "d" 1 13)]
           (Token.mk TokenType.semicolon ";" 1 14) [] 0);
    first [ reflexivity | repeat constructor ].
Defined.

Lemma call_chain_left_associative_witness :
  let f := Token.mk TokenType.identifier "f" 1 1 in
  let l1 := Token.mk TokenType.lparen "(" 1 2 in
  let r1 := Token.mk TokenType.rparen ")" 1 3 in
  let l2 := Token.mk TokenType.lparen "(" 1 4 in
  let r2 := Token.mk TokenType.rparen ")" 1 5 in
  let semi := Token.mk TokenType.semicolon ";" 1 6 in
  Parser.expr [f; l1; r1; l2; r2; semi] 5 Parser.initial
  = Ret (Some (Some (FunctionCallOperation f
                       (Some (FunctionCallOperation f (Some (Identifier f "f")) []))
                       []), f),
         {| Parser.token_iter_ := 5; Parser.errors_ := [] |}).
Proof.
  cbv zeta.
  apply (call_chain_left_associative
           (Token.mk TokenType.identifier "f" 1 1)
           [(Token.mk TokenType.lparen "(" 1 2, Token.mk TokenType.rparen ")" 1 3);
            (Token.mk TokenType.lparen "(" 1 4, Token.mk TokenType.rparen ")" 1 5)]
           (Token.mk TokenType.semicolon ";" 1 6) [] 0);
    first [ reflexivity | repeat constructor ].
Defined.

(* ================================================================= *)
(** ** Further properties: two error paths *)

Section ErrorPaths.

Variable input : TokenSeq.

(** X26: a prefix sign applies once.  When a [+] or [-] is followed by a
    token that starts no call operand (another sign, for instance), [expr]
    returns false having consumed the sign only, with the single new error
    [Expected expression, but got "..."] raised on the token after the
    sign. *)
Theorem sign_needs_an_operand
  (s : Parser.State) (sign nx : Token) (fuel : nat) :
  nth_error input (Parser.token_iter_ s) = Some sign ->
  nth_error input (S (Parser.token_iter_ s)) = Some nx ->
  additive (Token.type sign) = true ->
  Token.type nx <> TokenType.lparen ->
  Token.type nx <> TokenType.dec_integer ->
  Token.type nx <> TokenType.identifier ->
  Parser.expr input (S fuel) s
  = Ret (None,
         {| Parser.token_iter_ := S (Parser.token_iter_ s);
            Parser.errors_ :=
              Parser.errors_ s
              ++ [mkError nx ("Expected expression, but got " ++ dquote
                              ++ Token.data nx ++ dquote)%string] |}).
Proof.
  intros Hs Hn A Nl Nd Ni.
  assert (Q : forall ty, ty = TokenType.lparen \/ ty = TokenType.dec_integer
                         \/ ty = TokenType.identifier ->
                         Parser.accept input ty (after_token s)
                         = Ret (None, after_token s)).
  { intros ty Hty. apply (accept_mismatch input (after_token s) nx ty Hn).
    apply Bool.not_true_is_false. intros X.
    apply TokenType.internal_t_dec_bl in X. subst ty.
    destruct Hty as [E | [E | E]]; contradiction. }
  cbn [Parser.expr].
  unfold Parser.assign, Parser.addsub, Parser.muldiv, Parser.unary_plusminus.
  unfold bind at 1. unfold bind at 1. unfold bind at 1. unfold bind at 1.
  rewrite (accept_either input _ _ s sign Hs)
    by (destruct (Token.type sign); try discriminate A; auto).
  unfold bind at 1. rewrite (previous_token_after input s sign Hs).
  unfold Parser.func_call, Parser.paren, Parser.atom, Parser.number, Parser.identifier,
    Parser.orelse, bind.
  repeat (rewrite !Q by auto; cbv beta iota delta [ret]).
  unfold Parser.error_here, Parser.current_token, Parser.add_error, bind.
  cbn [after_token Parser.token_iter_ Parser.errors_]. rewrite Hn.
  reflexivity.
Qed.

(** X27: after a type and a name, a token that is none of [=], [;] and [(]
    makes [var_decl] return false with the error
    [Expected identifier, but got "..."] raised on that token, although the
    identifier was read: the message of the missing-name case is reused. *)
Theorem var_decl_after_name_reports_identifier
  (scope : Parser.production StatementPtr)
  (s s1 : Parser.State) (ty : TypePtr) (type_start name nx : Token) (fuel : nat) :
  Parser.type input fuel s = Ret (Some (ty, type_start), s1) ->
  nth_error input (Parser.token_iter_ s1) = Some name ->
  nth_error input (S (Parser.token_iter_ s1)) = Some nx ->
  Token.type name = TokenType.identifier ->
  Token.type nx <> TokenType.assign ->
  Token.type nx <> TokenType.semicolon ->
  Token.type nx <> TokenType.lparen ->
  Parser.var_decl input scope fuel s
  = Ret (None,
         {| Parser.token_iter_ := S (Parser.token_iter_ s1);
            Parser.errors_ :=
              Parser.errors_ s1
              ++ [mkError nx ("Expected identifier, but got " ++ dquote
                              ++ Token.data nx ++ dquote)%string] |}).
Proof.
  intros Hty Hname Hnx Tn Na Ns Nl.
  assert (Q : forall t, t = TokenType.assign \/ t = TokenType.semicolon
                        \/ t = TokenType.lparen ->
                        Parser.accept input t (after_token s1)
                        = Ret (None, after_token s1)).
  { intros t Ht. apply (accept_mismatch input (after_token s1) nx t Hnx).
    apply Bool.not_true_is_false. intros X.
    apply TokenType.internal_t_dec_bl in X. subst t.
    destruct Ht as [E | [E | E]]; contradiction. }
  unfold Parser.var_decl. unfold bind at 1. rewrite Hty.
  unfold bind at 1.
  rewrite (accept_match_type input s1 name TokenType.identifier Hname Tn).
  unfold bind at 1. rewrite (previous_token_after input s1 name Hname).
  unfold bind.
  repeat (rewrite !Q by auto; cbv beta iota delta [ret]).
  unfold Parser.error_here, Parser.current_token, Parser.add_error, bind.
  cbn [after_token Parser.token_iter_ Parser.errors_]. rewrite Hnx.
  reflexivity.
Qed.

End ErrorPaths.

Lemma sign_needs_an_operand_witness :
  let m1 := Token.mk TokenType.minus "-" 1 1 in
  let m2 := Token.mk TokenType.minus "-" 1 2 in
  let x := Token.mk TokenType.identifier "x" 1 3 in
  Parser.expr [m1; m2; x] 1 Parser.initial
  = Ret (None,
         {| Parser.token_iter_ := 1;
            Parser.errors_ :=
              [mkError m2 ("Expected expression, but got " ++ dquote ++ "-" ++ dquote)%string]
         |}).
Proof.
  cbv zeta.
  apply (sign_needs_an_operand
           [Token.mk TokenType.minus "-" 1 1; Token.mk TokenType.minus "-" 1 2;
            Token.mk TokenType.identifier "x" 1 3]
           Parser.initial
           (Token.mk TokenType.minus "-" 1 1) (Token.mk TokenType.minus "-" 1 2) 0);
    first [ reflexivity | discriminate ].
Defined.

Lemma var_decl_after_name_reports_identifier_witness :
  let t_int := Token.mk TokenType._int "int" 1 1 in
  let x := Token.mk TokenType.identifier "x" 1 5 in
  let comma := Token.mk TokenType.comma "," 1 6 in
  Parser.var_decl [t_int; x; comma] (Parser.scope [t_int; x; comma] sample_default_token 0)
                  1 Parser.initial
  = Ret (None,
         {| Parser.token_iter_ := 2;
            Parser.errors_ :=
              [mkError comma ("Expected identifier, but got " ++ dquote ++ "," ++ dquote)%string]
         |}).
Proof.
  cbv zeta.
  apply (var_decl_after_name_reports_identifier
           [Token.mk TokenType._int "int" 1 1; Token.mk TokenType.identifier "x" 1 5;
            Token.mk TokenType.comma "," 1 6]
           (Parser.scope [Token.mk TokenType._int "int" 1 1;
                          Token.mk TokenType.identifier "x" 1 5;
                          Token.mk TokenType.comma "," 1 6] sample_default_token 0)
           Parser.initial {| Parser.token_iter_ := 1; Parser.errors_ := [] |}
           (Some (SimpleType (Token.mk TokenType._int "int" 1 1) "int" false))
           (Token.mk TokenType._int "int" 1 1)
           (Token.mk TokenType.identifier "x" 1 5) (Token.mk TokenType.comma "," 1 6) 1);
    first [ reflexivity | discriminate ].
Defined.
